(** * Gargantua: bitboards, leaper attack tables, make/unmake, move ordering

    A shallow embedding of the core of the Gargantua chess engine
    (bitboard.h, bitboard.cpp, movgen.h, search.h, search.cpp).

    A [Bitboard] is a 64-bit unsigned word, modelled as a [Z] in
    [0, 2^64) with the wrap-around of the C++ operators written out.
    An [int] is a [Z]; the int operations used by the engine (masking,
    right shifts, [^= 1], [+ 8], [- 8]) never leave the 32-bit range on
    the inputs considered, so they are not wrapped.  The global arrays
    are lists read with [!!!] and written with [<[ i := v ]>].

    What C++ leaves undefined is given a value here and kept out of the
    theorems by their hypotheses: a shift by a count outside 0..63 yields
    0, a read past the end of an array yields 0, a write past the end does
    nothing.  Indices come from masked fields and are never negative.
    The lines printed to [std::cout] by [makeMove] and [undoMove] are not
    modelled. *)

From Stdlib Require Import ZArith Lia Bool List String Ascii DecimalString Sorted Permutation.
From stdpp Require Import base list.
Import ListNotations.
Local Open Scope Z_scope.

(** ** Bit utilities (bitboard.h) *)

Module Bits.

(** [typedef uint64_t Bitboard]. *)
Abbreviation Bitboard := Z.

Definition wrap64 (x : Z) : Z := x mod 2 ^ 64.

(** [b << n] on a 64-bit unsigned word. *)
Definition shl64 (b n : Z) : Bitboard := wrap64 (Z.shiftl b n).

(** [b >> n] on a 64-bit unsigned word. *)
Definition shr64 (b n : Z) : Bitboard := Z.shiftr b n.

(** [~b] on a 64-bit unsigned word. *)
Definition not64 (b : Z) : Bitboard := wrap64 (Z.lnot b).

(** [-b] on a 64-bit unsigned word. *)
Definition neg64 (b : Z) : Bitboard := wrap64 (- b).

(** A C++ condition on an integer: non-zero is true. *)
Definition truthy (x : Z) : bool := negb (x =? 0).

Definition getBit (b : Bitboard) (pos : Z) : Z := Z.land (shr64 b pos) 1.

Definition setBit (b : Bitboard) (pos : Z) : Bitboard := Z.lor b (shl64 1 pos).

Definition clearBit (b : Bitboard) (pos : Z) : Bitboard :=
  Z.land b (not64 (shl64 1 pos)).

Definition toggleBit (b : Bitboard) (pos : Z) : Bitboard :=
  Z.lxor b (shl64 1 pos).

(** Modelled from the spec: [popBit] is used throughout movgen.h but its
    definition (definitions.h) is not among the sources.  The spec's bit
    utilities are get, set, clear and toggle, and every use of [popBit] in
    the engine removes a piece from a square, so it is the clear operation. *)
Definition popBit (b : Bitboard) (pos : Z) : Bitboard := clearBit b pos.

Definition INDEX64 : list Z :=
  [ 63;  0; 58;  1; 59; 47; 53;  2;
    60; 39; 48; 27; 54; 33; 42;  3;
    61; 51; 37; 40; 49; 18; 28; 20;
    55; 30; 34; 11; 43; 14; 22;  4;
    62; 57; 46; 52; 38; 26; 32; 41;
    50; 36; 17; 19; 29; 10; 13; 21;
    56; 45; 25; 31; 35; 16;  9; 12;
    44; 24; 15;  8; 23;  7;  6;  5 ].

Definition DEBRUIJN64 : Bitboard := 0x07EDD5E59A4E28C2.

(** Array read; the engine never reads out of range on the inputs the
    theorems consider.  Here a read past the end yields the default of
    stdpp's total lookup, and a negative index reads entry 0. *)
Definition rd (l : list Z) (i : Z) : Z := l !!! Z.to_nat i.

(** Array write; stdpp's insert leaves the list alone out of range. *)
Definition wr (l : list Z) (i : Z) (v : Z) : list Z := <[ Z.to_nat i := v ]> l.

Definition ls1b (bb : Bitboard) : Z :=
  rd INDEX64 (shr64 (wrap64 (Z.land bb (neg64 bb) * DEBRUIJN64)) 58).

Definition countBits (bb : Bitboard) : Z :=
  let M1 := 0x5555555555555555 in
  let M2 := 0x3333333333333333 in
  let M4 := 0x0f0f0f0f0f0f0f0f in
  let M8 := 0x00ff00ff00ff00ff in
  let M16 := 0x0000ffff0000ffff in
  let M32 := 0x00000000ffffffff in
  let bb := wrap64 (Z.land bb M1 + Z.land (shr64 bb 1) M1) in
  let bb := wrap64 (Z.land bb M2 + Z.land (shr64 bb 2) M2) in
  let bb := wrap64 (Z.land bb M4 + Z.land (shr64 bb 4) M4) in
  let bb := wrap64 (Z.land bb M8 + Z.land (shr64 bb 8) M8) in
  let bb := wrap64 (Z.land bb M16 + Z.land (shr64 bb 16) M16) in
  let bb := wrap64 (Z.land bb M32 + Z.land (shr64 bb 32) M32) in
  bb.

End Bits.
Export Bits.

(** ** Sides, pieces and squares *)

(** Modelled from the spec: the side, piece and square enumerations of
    definitions.h, which is not among the sources.  Sides are white = 0,
    black = 1, both = 2 (spec 3.2); the numbering agrees with the indices
    of [PawnAttacks[2][64]] and [occupancies[3]]. *)
Definition White : Z := 0.
Definition Black : Z := 1.
Definition Both : Z := 2.

(** Modelled from the spec: the twelve piece kinds of definitions.h,
    numbered 0..11 in the order white pawn, knight, bishop, rook, queen,
    king, then the black ones (spec 3.2); the rows and columns of
    [mvv_lva] follow this order.  [Piece.P] .. [Piece.K] are white,
    [Piece.p] .. [Piece.k] black. *)
Module Piece.
Definition P : Z := 0.
Definition N : Z := 1.
Definition B : Z := 2.
Definition R : Z := 3.
Definition Q : Z := 4.
Definition K : Z := 5.
Definition p : Z := 6.
Definition n : Z := 7.
Definition b : Z := 8.
Definition r : Z := 9.
Definition q : Z := 10.
Definition k : Z := 11.
End Piece.

(** Modelled from the spec: the squares of definitions.h that movgen.h
    names, rank-major from a8 = 0 to h1 = 63, and the sentinel [NoSq] = 64
    (spec 3.1, 3.3); [CastlingRights] is laid out for this numbering. *)
Definition a8 : Z := 0.
Definition c8 : Z := 2.
Definition d8 : Z := 3.
Definition e8 : Z := 4.
Definition f8 : Z := 5.
Definition g8 : Z := 6.
Definition h8 : Z := 7.
Definition a1 : Z := 56.
Definition c1 : Z := 58.
Definition d1 : Z := 59.
Definition e1 : Z := 60.
Definition f1 : Z := 61.
Definition g1 : Z := 62.
Definition h1 : Z := 63.
Definition NoSq : Z := 64.

(** ** Leaper attack tables (bitboard.h, bitboard.cpp) *)

Definition NotFileA_Mask : Bitboard := 18374403900871474942.
Definition NotFileH_Mask : Bitboard := 9187201950435737471.
Definition NotFileHG_Mask : Bitboard := 4557430888798830399.
Definition NotFileAB_Mask : Bitboard := 18229723555195321596.

(** One line [if (x & mask) attacks |= x;] of the mask functions. *)
Definition orIf (x mask attacks : Bitboard) : Bitboard :=
  if truthy (Z.land x mask) then Z.lor attacks x else attacks.

Definition maskPawnAttacks (side square : Z) : Bitboard :=
  let attacks := 0 in
  let bb := setBit 0 square in
  if side =? White then
    let attacks := orIf (shr64 bb 7) NotFileA_Mask attacks in
    let attacks := orIf (shr64 bb 9) NotFileH_Mask attacks in
    attacks
  else if side =? Black then
    let attacks := orIf (shl64 bb 7) NotFileH_Mask attacks in
    let attacks := orIf (shl64 bb 9) NotFileA_Mask attacks in
    attacks
  else attacks.

Definition maskKnightAttacks (square : Z) : Bitboard :=
  let attacks := 0 in
  let bb := setBit 0 square in
  let attacks := orIf (shr64 bb 17) NotFileH_Mask attacks in
  let attacks := orIf (shr64 bb 15) NotFileA_Mask attacks in
  let attacks := orIf (shr64 bb 10) NotFileHG_Mask attacks in
  let attacks := orIf (shr64 bb 6) NotFileAB_Mask attacks in
  let attacks := orIf (shl64 bb 17) NotFileA_Mask attacks in
  let attacks := orIf (shl64 bb 15) NotFileH_Mask attacks in
  let attacks := orIf (shl64 bb 10) NotFileAB_Mask attacks in
  let attacks := orIf (shl64 bb 6) NotFileHG_Mask attacks in
  attacks.

(** [if (bb >> 8) attacks |= (bb >> 8);]: the unmasked lines of the king. *)
Definition orIfAny (x attacks : Bitboard) : Bitboard :=
  if truthy x then Z.lor attacks x else attacks.

Definition maskKingAttacks (square : Z) : Bitboard :=
  let attacks := 0 in
  let bb := setBit 0 square in
  let attacks := orIfAny (shr64 bb 8) attacks in
  let attacks := orIf (shr64 bb 9) NotFileH_Mask attacks in
  let attacks := orIf (shr64 bb 7) NotFileA_Mask attacks in
  let attacks := orIf (shr64 bb 1) NotFileH_Mask attacks in
  let attacks := orIfAny (shl64 bb 8) attacks in
  let attacks := orIf (shl64 bb 9) NotFileA_Mask attacks in
  let attacks := orIf (shl64 bb 7) NotFileH_Mask attacks in
  let attacks := orIf (shl64 bb 1) NotFileA_Mask attacks in
  attacks.

(** Reads and writes of a two-dimensional array. *)
Definition rd2 (l : list (list Z)) (i j : Z) : Z := rd (l !!! Z.to_nat i) j.

Definition wr2 (l : list (list Z)) (i j : Z) (v : Z) : list (list Z) :=
  <[ Z.to_nat i := wr (l !!! Z.to_nat i) j v ]> l.

(** The three global tables [PawnAttacks[2][64]], [KnightAttacks[64]] and
    [KingAttacks[64]]; zero-initialised like every C++ global. *)
Record LeaperTables := mkLeaperTables {
  PawnAttacksT : list (list Bitboard);
  KnightAttacksT : list Bitboard;
  KingAttacksT : list Bitboard
}.

Definition zeroTables : LeaperTables :=
  mkLeaperTables (replicate 2 (replicate 64 0)) (replicate 64 0) (replicate 64 0).

(** The body of the loop of [initLeaperAttacks] for one square. *)
Definition initLeaperSquare (t : LeaperTables) (square : Z) : LeaperTables :=
  let pa := wr2 (PawnAttacksT t) White square (maskPawnAttacks White square) in
  let pa := wr2 pa Black square (maskPawnAttacks Black square) in
  mkLeaperTables pa
    (wr (KnightAttacksT t) square (maskKnightAttacks square))
    (wr (KingAttacksT t) square (maskKingAttacks square)).

(** [for (int square = 0; square < 64; square++)]. *)
Definition squares : list Z := seqZ 0 64.

Definition initLeaperAttacks (t : LeaperTables) : LeaperTables :=
  fold_left initLeaperSquare squares t.

(** The tables as every later function sees them: after initialisation. *)
Definition Tables : LeaperTables := initLeaperAttacks zeroTables.

Definition PawnAttacks (side square : Z) : Bitboard := rd2 (PawnAttacksT Tables) side square.
Definition KnightAttacks (square : Z) : Bitboard := rd (KnightAttacksT Tables) square.
Definition KingAttacks (square : Z) : Bitboard := rd (KingAttacksT Tables) square.

(** ** Position and state history (movgen.h; position.h is not among the
    sources) *)

(** Modelled from the spec: the [StateInfo] record of position.h, with the
    three fields movgen.h reads and writes through [st] ([capturedPiece],
    [castle], [epsq]); its fourth field, the [previous] pointer, is the
    tail of the list below. *)
Record StateInfo := mkStateInfo {
  capturedPiece : Z;
  st_castle : Z;
  st_epsq : Z
}.

(** The global position.  [st] is the state pointer together with the chain
    it heads: [st = NULL] is the empty list, [*st] the head, [st->previous]
    the tail. *)
Record Position := mkPosition {
  bitboards : list Bitboard;
  occupancies : list Bitboard;
  sideToMove : Z;
  epsq : Z;
  castle : Z;
  st : list StateInfo
}.

(** What a call can end in: a normal return, a failed [assert], or the
    dereference of a null [st]. *)
Inductive outcome (A : Type) : Type :=
  | Done (a : A)
  | AssertionFailed
  | NullDereference.
Arguments Done {A} a.
Arguments AssertionFailed {A}.
Arguments NullDereference {A}.

(** *** Field updates *)

Definition withBitboards (pos : Position) (bbs : list Bitboard) : Position :=
  mkPosition bbs (occupancies pos) (sideToMove pos) (epsq pos) (castle pos) (st pos).

Definition withOccupancies (pos : Position) (occ : list Bitboard) : Position :=
  mkPosition (bitboards pos) occ (sideToMove pos) (epsq pos) (castle pos) (st pos).

Definition withSide (pos : Position) (s : Z) : Position :=
  mkPosition (bitboards pos) (occupancies pos) s (epsq pos) (castle pos) (st pos).

Definition withEpsq (pos : Position) (e : Z) : Position :=
  mkPosition (bitboards pos) (occupancies pos) (sideToMove pos) e (castle pos) (st pos).

Definition withCastle (pos : Position) (c : Z) : Position :=
  mkPosition (bitboards pos) (occupancies pos) (sideToMove pos) (epsq pos) c (st pos).

Definition withSt (pos : Position) (s : list StateInfo) : Position :=
  mkPosition (bitboards pos) (occupancies pos) (sideToMove pos) (epsq pos) (castle pos) s.

(** [popBit(bitboards[piece], sq)] and [setBit(bitboards[piece], sq)]. *)
Definition popBB (pos : Position) (piece sq : Z) : Position :=
  withBitboards pos (wr (bitboards pos) piece (popBit (rd (bitboards pos) piece) sq)).

Definition setBB (pos : Position) (piece sq : Z) : Position :=
  withBitboards pos (wr (bitboards pos) piece (setBit (rd (bitboards pos) piece) sq)).

(** [popBit(occupancies[side], sq)] and [setBit(occupancies[side], sq)]. *)
Definition popOcc (pos : Position) (side sq : Z) : Position :=
  withOccupancies pos (wr (occupancies pos) side (popBit (rd (occupancies pos) side) sq)).

Definition setOcc (pos : Position) (side sq : Z) : Position :=
  withOccupancies pos (wr (occupancies pos) side (setBit (rd (occupancies pos) side) sq)).

(** Writes through the state pointer: [st->capturedPiece = v] and the
    pair [st->castle = castle; st->epsq = epsq]. *)
Definition setCaptured (pos : Position) (v : Z) : Position :=
  match st pos with
  | s :: prev => withSt pos (mkStateInfo v (st_castle s) (st_epsq s) :: prev)
  | [] => pos
  end.

Definition syncStateInfo (pos : Position) : Position :=
  match st pos with
  | s :: prev => withSt pos (mkStateInfo (capturedPiece s) (castle pos) (epsq pos) :: prev)
  | [] => pos
  end.

(** ** Move encoding (movgen.h) *)

Definition encodeMove (fromSq toSq piece promo capture double ep castling : Z) : Z :=
  Z.lor fromSq (Z.lor (Z.shiftl toSq 6) (Z.lor (Z.shiftl piece 12)
    (Z.lor (Z.shiftl promo 16) (Z.lor (Z.shiftl capture 20)
      (Z.lor (Z.shiftl double 21) (Z.lor (Z.shiftl ep 22) (Z.shiftl castling 23))))))).

Definition getMoveSource (move : Z) : Z := Z.land move 0x3f.
Definition getMoveTarget (move : Z) : Z := Z.shiftr (Z.land move 0xfc0) 6.
Definition getMovePiece (move : Z) : Z := Z.shiftr (Z.land move 0xf000) 12.
Definition getPromo (move : Z) : Z := Z.shiftr (Z.land move 0xf0000) 16.
Definition getMoveCapture (move : Z) : Z := Z.land move 0x100000.
Definition getDoublePush (move : Z) : Z := Z.land move 0x200000.
Definition getEp (move : Z) : Z := Z.land move 0x400000.
Definition getCastle (move : Z) : Z := Z.land move 0x800000.

Definition CastlingRights : list Z :=
  [  7; 15; 15; 15;  3; 15; 15; 11;
    15; 15; 15; 15; 15; 15; 15; 15;
    15; 15; 15; 15; 15; 15; 15; 15;
    15; 15; 15; 15; 15; 15; 15; 15;
    15; 15; 15; 15; 15; 15; 15; 15;
    15; 15; 15; 15; 15; 15; 15; 15;
    15; 15; 15; 15; 15; 15; 15; 15;
    13; 15; 15; 15; 12; 15; 15; 14 ].

(** ** Sliding attacks *)

(** Modelled from the spec: the squares seen from rank [rk], file [fl] along
    the direction [(dr, df)], cast until a blocker (included) or the board
    edge (spec 4.2, step 3).  The magic lookup behind [getBishopAttacks] and
    [getRookAttacks] is not among the sources; by the spec it reproduces
    this ray-cast set. *)
Fixpoint castRay (fuel : nat) (rk fl dr df : Z) (block : Bitboard) : Bitboard :=
  match fuel with
  | O => 0
  | S fuel' =>
      let rk' := rk + dr in
      let fl' := fl + df in
      if (0 <=? rk') && (rk' <=? 7) && (0 <=? fl') && (fl' <=? 7) then
        let sq := rk' * 8 + fl' in
        if truthy (getBit block sq) then setBit 0 sq
        else Z.lor (setBit 0 sq) (castRay fuel' rk' fl' dr df block)
      else 0
  end.

(** Modelled from the spec: bishop attacks as the four diagonal rays. *)
Definition getBishopAttacks (square : Z) (occupancy : Bitboard) : Bitboard :=
  let rk := square / 8 in
  let fl := square mod 8 in
  Z.lor (castRay 7 rk fl 1 1 occupancy)
    (Z.lor (castRay 7 rk fl (-1) 1 occupancy)
      (Z.lor (castRay 7 rk fl 1 (-1) occupancy) (castRay 7 rk fl (-1) (-1) occupancy))).

(** Modelled from the spec: rook attacks as the four straight rays. *)
Definition getRookAttacks (square : Z) (occupancy : Bitboard) : Bitboard :=
  let rk := square / 8 in
  let fl := square mod 8 in
  Z.lor (castRay 7 rk fl 1 0 occupancy)
    (Z.lor (castRay 7 rk fl (-1) 0 occupancy)
      (Z.lor (castRay 7 rk fl 0 1 occupancy) (castRay 7 rk fl 0 (-1) occupancy))).

(** Modelled from the spec: queen attacks are bishop and rook attacks. *)
Definition getQueenAttacks (square : Z) (occupancy : Bitboard) : Bitboard :=
  Z.lor (getBishopAttacks square occupancy) (getRookAttacks square occupancy).

(** ** Attack query (movgen.h) *)

Definition isSquareAttacked (square side : Z) (pos : Position) : bool :=
  let bbs := bitboards pos in
  let occ := rd (occupancies pos) Both in
  if (side =? White) && truthy (Z.land (PawnAttacks Black square) (rd bbs Piece.P)) then true
  else if (side =? Black) && truthy (Z.land (PawnAttacks White square) (rd bbs Piece.p)) then true
  else if truthy (Z.land (KnightAttacks square)
                    (if side =? White then rd bbs Piece.N else rd bbs Piece.n)) then true
  else if truthy (Z.land (getBishopAttacks square occ)
                    (if side =? White then rd bbs Piece.B else rd bbs Piece.b)) then true
  else if truthy (Z.land (getRookAttacks square occ)
                    (if side =? White then rd bbs Piece.R else rd bbs Piece.r)) then true
  else if truthy (Z.land (getQueenAttacks square occ)
                    (if side =? White then rd bbs Piece.Q else rd bbs Piece.q)) then true
  else if truthy (Z.land (KingAttacks square)
                    (if side =? White then rd bbs Piece.K else rd bbs Piece.k)) then true
  else false.

(** ** Save and restore by copy (movgen.h, macros [saveBoard], [takeBack]) *)

Record BoardCopy := mkBoardCopy {
  bitboards_copy : list Bitboard;
  occupancies_copy : list Bitboard;
  side_copy : Z;
  enpassant_copy : Z;
  castle_copy : Z
}.

Definition saveBoard (pos : Position) : BoardCopy :=
  mkBoardCopy (bitboards pos) (occupancies pos) (sideToMove pos) (epsq pos) (castle pos).

(** [takeBack] overwrites the five copied fields and leaves [st] and the
    records it points to as they are. *)
Definition takeBack (c : BoardCopy) (pos : Position) : Position :=
  mkPosition (bitboards_copy c) (occupancies_copy c) (side_copy c)
             (enpassant_copy c) (castle_copy c) (st pos).

(** ** Make (movgen.h, [makeMove]) *)

Definition AllMoves : Z := 0.
Definition CaptureMoves : Z := 1.

(** The loop [for (bb_piece = start_piece; bb_piece <= end_piece; bb_piece++)]
    of the capture step, over the piece indices still to visit; it stops at
    the first bitboard with a bit on [toSq]. *)
Fixpoint captureLoop (pieces : list Z) (toSq Them : Z) (pos : Position) : Position :=
  match pieces with
  | [] => pos
  | bb_piece :: rest =>
      if truthy (getBit (rd (bitboards pos) bb_piece) toSq) then
        let pos := popBB pos bb_piece toSq in
        let pos := popOcc pos Them toSq in
        setCaptured pos bb_piece
      else captureLoop rest toSq Them pos
  end.

(** The rook step of the [switch (toSq)] of a castling move. *)
Definition castleRook (toSq : Z) (pos : Position) : Position :=
  if toSq =? g1 then
    setOcc (popOcc (setBB (popBB pos Piece.R h1) Piece.R f1) White h1) White f1
  else if toSq =? c1 then
    setOcc (popOcc (setBB (popBB pos Piece.R a1) Piece.R d1) White a1) White d1
  else if toSq =? g8 then
    setOcc (popOcc (setBB (popBB pos Piece.r h8) Piece.r f8) Black h8) Black f8
  else if toSq =? c8 then
    setOcc (popOcc (setBB (popBB pos Piece.r a8) Piece.r d8) Black a8) Black d8
  else pos.

(** The blocks of the [flag == AllMoves] branch, one definition per block,
    each reading [sideToMove] where the source does. *)

(** "move the piece from source to target" and "update occupancies for the
    piece being moved". *)
Definition movePiece (piece fromSq toSq : Z) (pos : Position) : Position :=
  let pos := popBB pos piece fromSq in
  let pos := setBB pos piece toSq in
  let pos := popOcc pos (sideToMove pos) fromSq in
  setOcc pos (sideToMove pos) toSq.

(** "after the moving piece, also handle the captured piece, if any". *)
Definition captureStep (capture toSq Them : Z) (pos : Position) : Position :=
  if truthy capture then
    let start_piece := if sideToMove pos =? White then Piece.p else Piece.P in
    let end_piece := if sideToMove pos =? White then Piece.k else Piece.K in
    captureLoop (seqZ start_piece (end_piece - start_piece + 1)) toSq Them pos
  else pos.

(** "handle pawn promotions". *)
Definition promoStep (promo toSq : Z) (pos : Position) : Position :=
  if truthy promo then
    let pos := if sideToMove pos =? White then popBB pos Piece.P toSq
               else popBB pos Piece.p toSq in
    setBB pos promo toSq
  else pos.

(** "handle enpassant captures": the pawn is popped once by the
    conditional expression and once more, with the occupancy, by the
    if/else that follows it. *)
Definition epStep (ep toSq : Z) (pos : Position) : Position :=
  if truthy ep then
    let pos := if sideToMove pos =? White then popBB pos Piece.p (toSq + 8)
               else popBB pos Piece.P (toSq - 8) in
    if sideToMove pos =? White then
      popOcc (popBB pos Piece.p (toSq + 8)) Black (toSq + 8)
    else
      popOcc (popBB pos Piece.P (toSq - 8)) White (toSq - 8)
  else pos.

(** "reset enpassant square" and "handle double pawn pushes". *)
Definition dpushStep (dpush toSq : Z) (pos : Position) : Position :=
  let pos := withEpsq pos NoSq in
  if truthy dpush then
    if sideToMove pos =? White then withEpsq pos (toSq + 8)
    else withEpsq pos (toSq - 8)
  else pos.

(** "handle castling moves". *)
Definition castlingStep (castling toSq : Z) (pos : Position) : Position :=
  if truthy castling then castleRook toSq pos else pos.

(** "update castling rights". *)
Definition rightsStep (fromSq toSq : Z) (pos : Position) : Position :=
  let pos := withCastle pos (Z.land (castle pos) (rd CastlingRights fromSq)) in
  withCastle pos (Z.land (castle pos) (rd CastlingRights toSq)).

(** [occupancies[Both] = occupancies[White] | occupancies[Black];] *)
Definition bothStep (pos : Position) : Position :=
  withOccupancies pos
    (wr (occupancies pos) Both
        (Z.lor (rd (occupancies pos) White) (rd (occupancies pos) Black))).

(** [sideToMove ^= 1;] *)
Definition flipSide (pos : Position) : Position :=
  withSide pos (Z.lxor (sideToMove pos) 1).

(** The mutations of the [flag == AllMoves] branch, up to and including the
    change of side; the branch then only tests the king. *)
Definition applyMove (move : Z) (pos : Position) : Position :=
  let fromSq := getMoveSource move in
  let toSq := getMoveTarget move in
  let piece := getMovePiece move in
  let promo := getPromo move in
  let capture := getMoveCapture move in
  let dpush := getDoublePush move in
  let ep := getEp move in
  let castling := getCastle move in
  let Them := if sideToMove pos =? White then Black else White in
  let pos := movePiece piece fromSq toSq pos in
  let pos := captureStep capture toSq Them pos in
  let pos := promoStep promo toSq pos in
  let pos := epStep ep toSq pos in
  let pos := dpushStep dpush toSq pos in
  let pos := castlingStep castling toSq pos in
  let pos := rightsStep fromSq toSq pos in
  let pos := syncStateInfo pos in
  let pos := bothStep pos in
  flipSide pos.

(** The legality test at the end of the [AllMoves] branch, on the position
    after the change of side. *)
Definition kingAttacked (pos : Position) : bool :=
  isSquareAttacked
    (if sideToMove pos =? White then ls1b (rd (bitboards pos) Piece.k)
     else ls1b (rd (bitboards pos) Piece.K))
    (sideToMove pos) pos.

(** [makeMove(move, AllMoves)]: the entry assertion, the mutations, the
    king test. *)
Definition makeMoveAll (move : Z) (pos : Position) : outcome (Z * Position) :=
  match st pos with
  | [] => AssertionFailed
  | _ :: _ =>
      let pos := applyMove move pos in
      if kingAttacked pos then Done (0, pos) else Done (1, pos)
  end.

(** [makeMove(move, flag)].  In the capture branch the nested call's result
    is dropped and control falls to the final [return 0]. *)
Definition makeMove (move flag : Z) (pos : Position) : outcome (Z * Position) :=
  match st pos with
  | [] => AssertionFailed
  | _ :: _ =>
      if flag =? AllMoves then makeMoveAll move pos
      else if truthy (getMoveCapture move) then
        match makeMoveAll move pos with
        | Done (_, pos) => Done (0, pos)
        | AssertionFailed => AssertionFailed
        | NullDereference => NullDereference
        end
      else Done (0, pos)
  end.

(** ** Unmake (movgen.h, [undoMove]) *)

(** The four-statement group of every case of [switch (piece)]:
    pop [toSq] and set [fromSq] in [bitboards[pc]] and [occupancies[side]]. *)
Definition moveBack (pc side fromSq toSq : Z) (pos : Position) : Position :=
  let pos := popBB pos pc toSq in
  let pos := popOcc pos side toSq in
  let pos := setBB pos pc fromSq in
  setOcc pos side fromSq.

(** "undo promotions". *)
Definition undoPromotion (promo fromSq toSq : Z) (pos : Position) : Position :=
  if sideToMove pos =? White then
    (* switch (promo): cases N, B, R, Q *)
    let pos :=
      if promo =? Piece.N then popBB pos Piece.N toSq
      else if promo =? Piece.B then popBB pos Piece.B toSq
      else if promo =? Piece.R then popBB pos Piece.R toSq
      else if promo =? Piece.Q then popBB pos Piece.Q toSq
      else pos in
    let pos := popOcc pos White toSq in
    let pos := setBB pos Piece.P fromSq in
    setOcc pos White fromSq
  else
    (* the same case labels N, B, R, Q, on the black bitboards *)
    let pos :=
      if promo =? Piece.N then popBB pos Piece.n toSq
      else if promo =? Piece.B then popBB pos Piece.b toSq
      else if promo =? Piece.R then popBB pos Piece.r toSq
      else if promo =? Piece.Q then popBB pos Piece.q toSq
      else pos in
    let pos := popOcc pos Black toSq in
    let pos := setBB pos Piece.p fromSq in
    setOcc pos Black fromSq.

(** "undo castling": both branches work on [bitboards[K]], [bitboards[R]]
    and, for the king, [occupancies[White]], as the source does. *)
Definition undoCastling (fromSq toSq : Z) (pos : Position) : Position :=
  if fromSq =? e1 then
    let pos := popBB pos Piece.K toSq in
    let pos := popOcc pos White toSq in
    let pos := setBB pos Piece.K e1 in
    let pos := setOcc pos White e1 in
    if toSq =? g1 then
      setOcc (setBB (popOcc (popBB pos Piece.R f1) White f1) Piece.R h1) White h1
    else
      setOcc (setBB (popOcc (popBB pos Piece.R d1) White d1) Piece.R a1) White a1
  else
    let pos := popBB pos Piece.K toSq in
    let pos := popOcc pos White toSq in
    let pos := setBB pos Piece.K e8 in
    let pos := setOcc pos White e8 in
    if toSq =? g8 then
      setOcc (setBB (popOcc (popBB pos Piece.R f8) Black f8) Piece.R h8) Black h8
    else
      setOcc (setBB (popOcc (popBB pos Piece.R d8) Black d8) Piece.R a8) Black a8.

(** "restore the captured piece, if any": only the piece bitboard is
    written. *)
Definition restoreCaptured (m toSq : Z) (pos : Position) : Position :=
  match st pos with
  | s :: _ =>
      if (Piece.P <=? capturedPiece s) && (capturedPiece s <=? Piece.k) then
        let capsq :=
          if truthy (getEp m) then
            if sideToMove pos =? White then toSq + 8 else toSq - 8
          else toSq in
        setBB pos (capturedPiece s) capsq
      else pos
  | [] => pos
  end.

(** "undo any other moves (including captures)": the [switch (piece)] has
    the cases P..K on [occupancies[White]] and p..k on [occupancies[Black]],
    and no default. *)
Definition undoOther (m piece fromSq toSq : Z) (pos : Position) : Position :=
  let pos :=
    if (Piece.P <=? piece) && (piece <=? Piece.K) then moveBack piece White fromSq toSq pos
    else if (Piece.p <=? piece) && (piece <=? Piece.k) then moveBack piece Black fromSq toSq pos
    else pos in
  restoreCaptured m toSq pos.

Definition undoMove (m : Z) (pos : Position) : outcome Position :=
  match st pos with
  | [] => AssertionFailed
  | _ :: _ =>
      let pos := flipSide pos in
      let fromSq := getMoveSource m in
      let toSq := getMoveTarget m in
      let piece := getMovePiece m in
      let promo := getPromo m in
      let pos :=
        if truthy (getPromo m) then undoPromotion promo fromSq toSq pos
        else if truthy (getCastle m) then undoCastling fromSq toSq pos
        else undoOther m piece fromSq toSq pos in
      let pos := bothStep pos in
      (* st = st->previous; castle = st->castle; *)
      let pos := withSt pos (tail (st pos)) in
      match st pos with
      | s :: _ => Done (withCastle pos (st_castle s))
      | [] => NullDereference
      end
  end.

(** ** Concrete positions *)

Module Fixtures.

Definition squaresBB (l : list Z) : Bitboard := fold_left setBit l 0.

(** A sentinel outside the piece range 0..11 for "nothing captured". *)
Definition NoPiece : Z := 12.

(** A position set up from the squares of the twelve piece kinds, with the
    occupancies computed from them and a one-entry state history in step
    with the castling rights and the en-passant square. *)
Definition setup (pieces : list (list Z)) (side ep cas : Z) : Position :=
  let bbs := map squaresBB pieces in
  let w := fold_left Z.lor (take 6 bbs) 0 in
  let bl := fold_left Z.lor (drop 6 bbs) 0 in
  mkPosition bbs [w; bl; Z.lor w bl] side ep cas [mkStateInfo NoPiece cas ep].

(** The caller-side push of a new state record that dperft carries in
    comments ([StateInfo newState = *st; newState.previous = st;
    st = &newState;]). *)
Definition pushState (pos : Position) : Position :=
  match st pos with
  | s :: prev => withSt pos (s :: s :: prev)
  | [] => pos
  end.

(** rnbqkbnr/pppppppp/8/8/8/8/PPPPPPPP/RNBQKBNR w KQkq - 0 1 *)
Definition startpos : Position :=
  setup [ [48;49;50;51;52;53;54;55]; [57;62]; [58;61]; [56;63]; [59]; [60];
          [8;9;10;11;12;13;14;15]; [1;6]; [2;5]; [0;7]; [3]; [4] ]
        White NoSq 15.

(** rnbqkbnr/ppp1pppp/8/3p4/4P3/8/PPPP1PPP/RNBQKBNR w KQkq d6 0 2 *)
Definition afterE4D5 : Position :=
  setup [ [48;49;50;51;36;53;54;55]; [57;62]; [58;61]; [56;63]; [59]; [60];
          [8;9;10;27;12;13;14;15]; [1;6]; [2;5]; [0;7]; [3]; [4] ]
        White 19 15.

(** r3k2r/8/8/8/8/8/8/R3K2R b KQkq - 0 1 *)
Definition castlingBlack : Position :=
  setup [ []; []; []; [56;63]; []; [60];
          []; []; []; [0;7]; []; [4] ]
        Black NoSq 15.

(** rnbqkbnr/ppp1p1pp/8/3pPp2/8/8/PPPP1PPP/RNBQKBNR w KQkq f6 0 3 *)
Definition enPassantWhite : Position :=
  setup [ [48;49;50;51;28;53;54;55]; [57;62]; [58;61]; [56;63]; [59]; [60];
          [8;9;10;27;12;29;14;15]; [1;6]; [2;5]; [0;7]; [3]; [4] ]
        White 21 15.

(** 4k3/8/8/8/8/3p4/8/4K3 w - - 0 1: e2 is attacked by the pawn on d3. *)
Definition kingAndPawn : Position :=
  setup [ []; []; []; []; []; [60];
          [43]; []; []; []; []; [4] ]
        White NoSq 0.


Definition e2e4 : Z := encodeMove 52 36 Piece.P 0 0 1 0 0.
Definition e4xd5 : Z := encodeMove 36 27 Piece.P 0 1 0 0 0.
Definition black_OO : Z := encodeMove e8 g8 Piece.k 0 0 0 0 1.
Definition e5xf6_ep : Z := encodeMove 28 21 Piece.P 0 1 0 1 0.
Definition g1f3 : Z := encodeMove 62 45 Piece.N 0 0 0 0 0.
Definition Ke1e2 : Z := encodeMove e1 52 Piece.K 0 0 0 0 0.

End Fixtures.

Export Fixtures.

(** ** Move ordering (search.h) *)

Definition MAXPLY : Z := 256.
Definition MOVESCORE_PROMO_QUIET : Z := 10000.

Definition mvv_lva : list (list Z) :=
  [ [105; 205; 305; 405; 505; 605;  105; 205; 305; 405; 505; 605];
    [104; 204; 304; 404; 504; 604;  104; 204; 304; 404; 504; 604];
    [103; 203; 303; 403; 503; 603;  103; 203; 303; 403; 503; 603];
    [102; 202; 302; 402; 502; 602;  102; 202; 302; 402; 502; 602];
    [101; 201; 301; 401; 501; 601;  101; 201; 301; 401; 501; 601];
    [100; 200; 300; 400; 500; 600;  100; 200; 300; 400; 500; 600];

    [105; 205; 305; 405; 505; 605;  105; 205; 305; 405; 505; 605];
    [104; 204; 304; 404; 504; 604;  104; 204; 304; 404; 504; 604];
    [103; 203; 303; 403; 503; 603;  103; 203; 303; 403; 503; 603];
    [102; 202; 302; 402; 502; 602;  102; 202; 302; 402; 502; 602];
    [101; 201; 301; 401; 501; 601;  101; 201; 301; 401; 501; 601];
    [100; 200; 300; 400; 500; 600;  100; 200; 300; 400; 500; 600] ].

(** The search globals [scoreMove] reads and writes.  [ply] is declared
    outside the sources at hand (it is the global the code indexes
    [pv_table] and [killers] with), and is kept here with the others. *)
Record SearchState := mkSearchState {
  ply : Z;
  pv_table : list (list Z);
  killers : list (list Z);
  history : list (list Z);
  followPV : bool;
  scorePV : bool
}.

Definition withScorePV (ss : SearchState) (v : bool) : SearchState :=
  mkSearchState (ply ss) (pv_table ss) (killers ss) (history ss) (followPV ss) v.

(** The victim loop of [scoreMove]: the first opponent bitboard with a bit
    on [toSq], or the initial [target_piece] when there is none. *)
Fixpoint victimLoop (pieces : list Z) (toSq : Z) (bbs : list Bitboard)
    (target_piece : Z) : Z :=
  match pieces with
  | [] => target_piece
  | bb_piece :: rest =>
      if truthy (getBit (rd bbs bb_piece) toSq) then bb_piece
      else victimLoop rest toSq bbs target_piece
  end.

Definition scoreMove (move : Z) (pos : Position) (ss : SearchState) : Z * SearchState :=
  if scorePV ss && (rd2 (pv_table ss) 0 (ply ss) =? move) then
    (20000, withScorePV ss false)
  else if truthy (getMoveCapture move) then
    let target_piece := Piece.P in
    let toSq := getMoveTarget move in
    let start_piece := if sideToMove pos =? White then Piece.p else Piece.P in
    let end_piece := if sideToMove pos =? White then Piece.k else Piece.K in
    let target_piece :=
      victimLoop (seqZ start_piece (end_piece - start_piece + 1)) toSq
                 (bitboards pos) target_piece in
    (rd2 mvv_lva (getMovePiece move) target_piece + 10000, ss)
  else if truthy (getPromo move) then (MOVESCORE_PROMO_QUIET, ss)
  else if rd2 (killers ss) 0 (ply ss) =? move then (9000, ss)
  else if rd2 (killers ss) 1 (ply ss) =? move then (8000, ss)
  else (rd2 (history ss) (getMovePiece move) (getMoveTarget move), ss).

(** Scoring the moves of a list one after the other, in list order, with
    the search state threaded through the calls; each move is paired with
    the score it received. *)
Fixpoint scoreMoves (l : list Z) (pos : Position) (ss : SearchState)
    : list (Z * Z) * SearchState :=
  match l with
  | [] => ([], ss)
  | m :: rest =>
      let '(s, ss1) := scoreMove m pos ss in
      let '(scored, ss2) := scoreMoves rest pos ss1 in
      ((m, s) :: scored, ss2)
  end.

(** A square holds exactly the piece [pc]: its bit is set in
    [bitboards[pc]] and in no other piece bitboard. *)
Definition holds (pos : Position) (sq pc : Z) : Prop :=
  getBit (rd (bitboards pos) pc) sq = 1 /\
  forall pc', 0 <= pc' < 12 -> pc' <> pc -> getBit (rd (bitboards pos) pc') sq = 0.

(** Pawn and queen of a side, by the piece numbering. *)
Definition pawnOf (side : Z) : Z := if side =? White then Piece.P else Piece.p.
Definition queenOf (side : Z) : Z := if side =? White then Piece.Q else Piece.q.
Definition other (side : Z) : Z := if side =? White then Black else White.

(** *** A position and a search state for the ordering of moves *)

Module OrderingFixtures.

(** 4k3/P7/8/3q4/3pP3/8/8/1N1QK1N1 w - - 0 1 *)
Definition orderingPos : Position :=
  setup [ [8;36]; [57;62]; []; []; [59]; [60];
          [35]; []; []; []; [27]; [4] ]
        White NoSq 0.

Definition Ng1h3 : Z := encodeMove 62 47 Piece.N 0 0 0 0 0.
Definition e4xd5_queen : Z := encodeMove 36 27 Piece.P 0 1 0 0 0.
Definition Qd1xd4 : Z := encodeMove 59 35 Piece.Q 0 1 0 0 0.
Definition a7a8_queen : Z := encodeMove 8 0 Piece.P Piece.Q 0 0 0 0.
Definition Ng1f3 : Z := encodeMove 62 45 Piece.N 0 0 0 0 0.
Definition Nb1c3 : Z := encodeMove 57 42 Piece.N 0 0 0 0 0.
Definition Ke1e2_quiet : Z := encodeMove 60 52 Piece.K 0 0 0 0 0.

(** Ply 0, PV scoring on with Ng1-h3 as the PV move, Ng1-f3 and Nb1-c3 as
    the killers of the ply, an empty history table. *)
Definition orderingState : SearchState :=
  mkSearchState 0
    (wr2 (replicate 256 (replicate 256 0)) 0 0 Ng1h3)
    (wr2 (wr2 (replicate 2 (replicate 256 0)) 0 0 Ng1f3) 1 0 Nb1c3)
    (replicate 12 (replicate 64 0))
    true true.

End OrderingFixtures.
Export OrderingFixtures.

(** ** Perft (search.h, search.cpp) *)

Record MoveList_t := mkMoveList {
  moves : list Z;
  count : Z
}.

Section Perft.

(** [generateMoves] is declared in movgen.h and defined outside the
    sources at hand, like the two tables [prettyMove] prints from; and the
    elapsed time [ns] comes from the clock. *)
Variable generateMoves : Position -> MoveList_t.
Variable SquareToCoordinates : Z -> string.
Variable PromoPieces : Z -> string.

Definition prettyMove (move : Z) : string :=
  (SquareToCoordinates (getMoveSource move) ++
   SquareToCoordinates (getMoveTarget move) ++
   PromoPieces (getPromo move))%string.

(** What the perft functions thread: the position and the node counter. *)
Record PerftState := mkPerftState {
  board : Position;
  nodes : Z
}.

(** One turn of the loop of [perft] over the generated moves, given the
    recursive call for the remaining depth.  The one-argument call
    [makeMove(move)] of the source is read as [makeMove(move, AllMoves)]. *)
Definition perftStep (recur : PerftState -> outcome PerftState)
    (acc : outcome PerftState) (move : Z) : outcome PerftState :=
  match acc with
  | Done s =>
      let saved := saveBoard (board s) in
      match makeMove move AllMoves (board s) with
      | Done (res, pos') =>
          if res =? 0 then Done (mkPerftState (takeBack saved pos') (nodes s))
          else
            match recur (mkPerftState pos' (nodes s)) with
            | Done s' => Done (mkPerftState (takeBack saved (board s')) (nodes s'))
            | AssertionFailed => AssertionFailed
            | NullDereference => NullDereference
            end
      | AssertionFailed => AssertionFailed
      | NullDereference => NullDereference
      end
  | AssertionFailed => AssertionFailed
  | NullDereference => NullDereference
  end.

(** The moves [moves[0] .. moves[count - 1]] of a move list. *)
Definition listed (ml : MoveList_t) : list Z :=
  map (rd (moves ml)) (seqZ 0 (count ml)).

(** [perft] for a depth that passed the assertion [depth >= 0]. *)
Fixpoint perftFrom (depth : nat) (s : PerftState) : outcome PerftState :=
  match depth with
  | O => Done (mkPerftState (board s) (wrap64 (nodes s + 1)))
  | S depth' =>
      fold_left (perftStep (perftFrom depth')) (listed (generateMoves (board s))) (Done s)
  end.

Definition perft (depth : Z) (s : PerftState) : outcome PerftState :=
  if depth >=? 0 then perftFrom (Z.to_nat depth) s else AssertionFailed.

(** What dperft threads: the perft state and the lines printed so far. *)
Definition DivideState : Type := PerftState * list string.

Definition decimal (x : Z) : string := NilZero.string_of_int (Z.to_int x).

(** One turn of the loop of [dperft]. *)
Definition dperftStep (depth : Z) (acc : outcome DivideState) (move : Z)
    : outcome DivideState :=
  match acc with
  | Done (s, out) =>
      let saved := saveBoard (board s) in
      match makeMove move AllMoves (board s) with
      | Done (res, pos') =>
          if res =? 0 then Done (mkPerftState (takeBack saved pos') (nodes s), out)
          else
            let cNodes := nodes s in
            match perft (depth - 1) (mkPerftState pos' (nodes s)) with
            | Done s' =>
                let PrevNodes := wrap64 (nodes s' - cNodes) in
                Done (mkPerftState (takeBack saved (board s')) (nodes s'),
                      out ++ [(prettyMove move ++ ": " ++ decimal PrevNodes)%string])
            | AssertionFailed => AssertionFailed
            | NullDereference => NullDereference
            end
      | AssertionFailed => AssertionFailed
      | NullDereference => NullDereference
      end
  | AssertionFailed => AssertionFailed
  | NullDereference => NullDereference
  end.

(** [dperft(depth)] up to the per-move lines and the assertion on the
    elapsed time [ns]; the closing summary (floating-point time and speed)
    is left out. *)
Definition dperft (ns : Z) (depth : Z) (s : PerftState) : outcome DivideState :=
  if depth <? 0 then
    let s := mkPerftState (board s) 0 in
    match fold_left (dperftStep depth) (listed (generateMoves (board s))) (Done (s, [])) with
    | Done r => if truthy ns then Done r else AssertionFailed
    | AssertionFailed => AssertionFailed
    | NullDereference => NullDereference
    end
  else AssertionFailed.

End Perft.


(** ** Further functions of the sources *)

(** [addMove] (movgen.h): store the move at index [count], then count up. *)
Definition addMove (MoveList : MoveList_t) (move : Z) : MoveList_t :=
  mkMoveList (wr (moves MoveList) (count MoveList) move) (count MoveList + 1).

Definition withFollowPV (ss : SearchState) (v : bool) : SearchState :=
  mkSearchState (ply ss) (pv_table ss) (killers ss) (history ss) v (scorePV ss).

(** One turn of the loop of [enablePV_scoring] (search.h). *)
Definition enablePVStep (ss : SearchState) (move : Z) : SearchState :=
  if rd2 (pv_table ss) 0 (ply ss) =? move then
    withFollowPV (withScorePV ss true) true
  else ss.

(** [enablePV_scoring]: [followPV] is cleared, then every listed move that
    is the PV move of the ply sets [scorePV] and [followPV]. *)
Definition enablePV_scoring (MoveList : MoveList_t) (ss : SearchState) : SearchState :=
  fold_left enablePVStep (listed MoveList) (withFollowPV ss false).

Definition wrap32 (x : Z) : Z := x mod 2 ^ 32.

(** [rng32] (bitboard.h): the 32-bit xorshift on the global [rng32_state];
    the value returned and the new state. *)
Definition rng32 (rng32_state : Z) : Z * Z :=
  let number := rng32_state in
  let number := Z.lxor number (wrap32 (Z.shiftl number 13)) in
  let number := Z.lxor number (Z.shiftr number 17) in
  let number := Z.lxor number (wrap32 (Z.shiftl number 5)) in
  (number, number).

(** [rng64] (bitboard.h): four calls of [rng32], sixteen bits of each. *)
Definition rng64 (rng32_state : Z) : Z * Z :=
  let '(r1, state) := rng32 rng32_state in
  let n1 := Z.land r1 0xFFFF in
  let '(r2, state) := rng32 state in
  let n2 := Z.land r2 0xFFFF in
  let '(r3, state) := rng32 state in
  let n3 := Z.land r3 0xFFFF in
  let '(r4, state) := rng32 state in
  let n4 := Z.land r4 0xFFFF in
  (Z.lor n1 (Z.lor (shl64 n2 16) (Z.lor (shl64 n3 32) (shl64 n4 48))), state).

(** Rank (0 for the eighth) and file (0 for a) of a square index. *)
Definition rankOf (sq : Z) : Z := sq / 8.
Definition fileOf (sq : Z) : Z := sq mod 8.

(** The De Bruijn lookup of [ls1b] on the single-bit board of square [k]. *)
Definition deBruijnIndex (k : Z) : Z :=
  rd INDEX64 (shr64 (wrap64 (2 ^ k * DEBRUIJN64)) 58).

(** The geometry of the leaper moves between two squares, as booleans. *)
Definition knightJump (s t : Z) : bool :=
  ((Z.abs (rankOf t - rankOf s) =? 1) && (Z.abs (fileOf t - fileOf s) =? 2)) ||
  ((Z.abs (rankOf t - rankOf s) =? 2) && (Z.abs (fileOf t - fileOf s) =? 1)).

Definition kingStep (s t : Z) : bool :=
  (Z.abs (rankOf t - rankOf s) <=? 1) && (Z.abs (fileOf t - fileOf s) <=? 1) &&
  negb (t =? s).

(** White pawns capture one rank up the board (towards rank index 0),
    black pawns one rank down, one file to either side. *)
Definition pawnCapture (side s t : Z) : bool :=
  (rankOf t =? (if side =? White then rankOf s - 1 else rankOf s + 1)) &&
  (Z.abs (fileOf t - fileOf s) =? 1).

(** Knight and king of a side, by the piece numbering. *)
Definition knightOf (side : Z) : Z := if side =? White then Piece.N else Piece.n.
Definition kingOf (side : Z) : Z := if side =? White then Piece.K else Piece.k.

(** The sizes of the two arrays of a position agree. *)
Definition sameShape (x y : Position) : Prop :=
  length (bitboards x) = length (bitboards y) /\
  length (occupancies x) = length (occupancies y).

(** The board [undoMove] has rebuilt when it turns to the state pointer:
    the side flipped back, the move taken back by its branch, and
    [occupancies[Both]] recomputed. *)
Definition undoBoard (m : Z) (pos : Position) : Position :=
  let pos := flipSide pos in
  bothStep
    (if truthy (getPromo m) then
       undoPromotion (getPromo m) (getMoveSource m) (getMoveTarget m) pos
     else if truthy (getCastle m) then
       undoCastling (getMoveSource m) (getMoveTarget m) pos
     else undoOther m (getMovePiece m) (getMoveSource m) (getMoveTarget m) pos).

(** ** Predicates of the statements *)

(** The fields other than the bitboards, the occupancies and the captured
    piece of the top state record. *)
Definition sameScalars (x y : Position) : Prop :=
  sideToMove x = sideToMove y /\ epsq x = epsq y /\ castle x = castle y /\
  length (st x) = length (st y).

(** The five fields [saveBoard] copies agree. *)
Definition sameBoard (x y : Position) : Prop :=
  bitboards x = bitboards y /\ occupancies x = occupancies y /\
  sideToMove x = sideToMove y /\ epsq x = epsq y /\ castle x = castle y.

(** The OR of the bitboards [bitboards[from] .. bitboards[from + len - 1]]. *)
Definition orBitboards (pos : Position) (from len : Z) : Bitboard :=
  fold_left Z.lor (map (rd (bitboards pos)) (seqZ from len)) 0.

(** The occupancy invariant (spec 3.3, invariant 1). *)
Definition occupanciesConsistent (pos : Position) : bool :=
  (rd (occupancies pos) White =? orBitboards pos Piece.P 6) &&
  (rd (occupancies pos) Black =? orBitboards pos Piece.p 6) &&
  (rd (occupancies pos) Both =?
     Z.lor (rd (occupancies pos) White) (rd (occupancies pos) Black)).

(** Square [t] is a member of the attack set [bb]. *)
Definition member (t : Z) (bb : Bitboard) : Prop := getBit bb t = 1.

Definition memberb (t : Z) (bb : Bitboard) : bool := getBit bb t =? 1.

(** The symmetry of the three leaper tables at a pair of squares, as a
    boolean. *)
Definition symmetricAt (s t : Z) : bool :=
  eqb (memberb t (PawnAttacks White s)) (memberb s (PawnAttacks Black t)) &&
  eqb (memberb t (PawnAttacks Black s)) (memberb s (PawnAttacks White t)) &&
  eqb (memberb t (KnightAttacks s)) (memberb s (KnightAttacks t)) &&
  eqb (memberb t (KingAttacks s)) (memberb s (KingAttacks t)).

Definition symmetricEverywhere : bool :=
  forallb (fun s => forallb (symmetricAt s) squares) squares.

(** The square of the pawn an en-passant capture removes, as [makeMove]
    computes it: [toSq + 8] when white captures, [toSq - 8] when black
    does. *)
Definition epCaptureSquare (us toSq : Z) : Z :=
  if us =? White then toSq + 8 else toSq - 8.

(** The piece indices of a side other than its pawn. *)
Definition officerOf (side pc : Z) : Prop := pawnOf side < pc < pawnOf side + 6.

(** A piece index of a side. *)
Definition pieceOf (side pc : Z) : Prop := pawnOf side <= pc < pawnOf side + 6.

(** What a block of make leaves alone on the opponent's side: the sizes of
    the two arrays, the opponent's piece bitboards and the opponent's
    occupancy. *)
Definition themFrame (them : Z) (x y : Position) : Prop :=
  length (bitboards x) = length (bitboards y) /\
  length (occupancies x) = length (occupancies y) /\
  (forall pc, pieceOf them pc -> rd (bitboards x) pc = rd (bitboards y) pc) /\
  rd (occupancies x) them = rd (occupancies y) them.

(** The score [scoreMove] gives a move once the PV flag is consumed. *)
Definition plainScore (move : Z) (pos : Position) (ss : SearchState) : Z :=
  fst (scoreMove move pos (withScorePV ss false)).

(** Descending by score. *)
Definition scoreDescending (a c : Z * Z) : Prop := snd a >= snd c.

(** What a call of [perft] hands back to its caller: the board fields as
    they were, the same records below the top one, a top record still
    there. *)
Definition handedBack (before after : Position) : Prop :=
  sameBoard after before /\ tl (st after) = tl (st before) /\ st after <> [].

(** The sum of the [n] lowest fields of [w] bits of [x]. *)
Fixpoint fieldSum (w : Z) (n : nat) (x : Z) : Z :=
  match n with
  | O => 0
  | S n' => x mod 2 ^ w + fieldSum w n' (x / 2 ^ w)
  end.

(** The mask of [n] fields of [2 * k] bits with the low [k] bits of each
    set: the constants [M1] .. [M32] of [countBits]. *)
Fixpoint lowMask (k : Z) (n : nat) : Z :=
  match n with
  | O => 0
  | S n' => Z.ones k + 2 ^ (2 * k) * lowMask k n'
  end.

(** * Properties *)

(** ** Fields left alone by the blocks of make and unmake *)

Lemma sameScalars_refl x : sameScalars x x.
Proof. repeat split. Qed.

Lemma sameScalars_trans x y z : sameScalars x y -> sameScalars y z -> sameScalars x z.
Proof. unfold sameScalars. intros (?&?&?&?) (?&?&?&?). repeat split; congruence. Qed.

Lemma sameScalars_if (c : bool) x y z :
  sameScalars x z -> sameScalars y z -> sameScalars (if c then x else y) z.
Proof. destruct c; auto. Qed.

Lemma popBB_scalars pos pc sq : sameScalars (popBB pos pc sq) pos.
Proof. repeat split. Qed.
Lemma setBB_scalars pos pc sq : sameScalars (setBB pos pc sq) pos.
Proof. repeat split. Qed.
Lemma popOcc_scalars pos s sq : sameScalars (popOcc pos s sq) pos.
Proof. repeat split. Qed.
Lemma setOcc_scalars pos s sq : sameScalars (setOcc pos s sq) pos.
Proof. repeat split. Qed.
Lemma bothStep_scalars pos : sameScalars (bothStep pos) pos.
Proof. repeat split. Qed.
Lemma setCaptured_scalars pos v : sameScalars (setCaptured pos v) pos.
Proof. unfold setCaptured. destruct (st pos) eqn:E; repeat split. simpl. now rewrite E. Qed.

Create HintDb scalars.
#[local] Hint Resolve sameScalars_refl popBB_scalars setBB_scalars popOcc_scalars
  setOcc_scalars bothStep_scalars setCaptured_scalars sameScalars_if : scalars.

(** Chains the elementary facts along a composition of updates. *)
Ltac scalars :=
  repeat first
    [ apply sameScalars_refl
    | apply sameScalars_if
    | (eapply sameScalars_trans; [solve [eauto with scalars]|]) ].

Lemma movePiece_scalars pc f t pos : sameScalars (movePiece pc f t pos) pos.
Proof. unfold movePiece. scalars. Qed.

Lemma captureLoop_scalars pieces toSq Them pos :
  sameScalars (captureLoop pieces toSq Them pos) pos.
Proof.
  induction pieces as [|pc rest IH]; simpl; [apply sameScalars_refl|].
  apply sameScalars_if; [|exact IH]. scalars.
Qed.

Lemma captureStep_scalars c t them pos : sameScalars (captureStep c t them pos) pos.
Proof. unfold captureStep. apply sameScalars_if; auto with scalars. apply captureLoop_scalars. Qed.

Lemma promoStep_scalars pr t pos : sameScalars (promoStep pr t pos) pos.
Proof. unfold promoStep. scalars. Qed.

Lemma epStep_scalars e t pos : sameScalars (epStep e t pos) pos.
Proof. unfold epStep. cbv zeta. scalars. Qed.

Lemma castleRook_scalars t pos : sameScalars (castleRook t pos) pos.
Proof. unfold castleRook. scalars. Qed.

Lemma castlingStep_scalars c t pos : sameScalars (castlingStep c t pos) pos.
Proof. unfold castlingStep. apply sameScalars_if; auto with scalars. apply castleRook_scalars. Qed.

(** The scalar fields after the mutations of a move: the side is flipped,
    the rights are masked by the table entries of the two squares, the
    en-passant square is reset or set behind a double push, and the state
    chain keeps its length (nothing is pushed). *)
Lemma applyMove_fields move pos :
  let pos' := applyMove move pos in
  sideToMove pos' = Z.lxor (sideToMove pos) 1 /\
  castle pos' = Z.land (Z.land (castle pos) (rd CastlingRights (getMoveSource move)))
                       (rd CastlingRights (getMoveTarget move)) /\
  epsq pos' = (if truthy (getDoublePush move) then
                 if sideToMove pos =? White then getMoveTarget move + 8
                 else getMoveTarget move - 8
               else NoSq) /\
  length (st pos') = length (st pos).
Proof.
  unfold applyMove. cbv zeta.
  set (Them := if sideToMove pos =? White then Black else White).
  set (p4 := epStep _ _ _).
  assert (H4 : sameScalars p4 pos).
  { unfold p4.
    eapply sameScalars_trans; [apply epStep_scalars|].
    eapply sameScalars_trans; [apply promoStep_scalars|].
    eapply sameScalars_trans; [apply captureStep_scalars|].
    apply movePiece_scalars. }
  destruct H4 as (Hs & _ & Hc & Hl).
  set (p5 := dpushStep _ _ p4).
  assert (H5 : sideToMove p5 = sideToMove pos /\ castle p5 = castle pos /\
               length (st p5) = length (st pos) /\
               epsq p5 = (if truthy (getDoublePush move) then
                            if sideToMove pos =? White then getMoveTarget move + 8
                            else getMoveTarget move - 8
                          else NoSq)).
  { unfold p5, dpushStep. cbv zeta. cbn [sideToMove withEpsq]. rewrite Hs.
    destruct (truthy (getDoublePush move)), (sideToMove pos =? White); cbn; auto. }
  destruct H5 as (Hs5 & Hc5 & Hl5 & He5).
  set (p6 := castlingStep _ _ p5).
  destruct (castlingStep_scalars (getCastle move) (getMoveTarget move) p5)
    as (Hs6 & He6 & Hc6 & Hl6). fold p6 in Hs6, He6, Hc6, Hl6.
  unfold flipSide, bothStep, rightsStep, syncStateInfo. cbv zeta.
  cbn [sideToMove castle epsq st withCastle withOccupancies withSide].
  destruct (st p6) eqn:E6;
    cbn [sideToMove castle epsq st withCastle withOccupancies withSide withSt];
    rewrite ?E6; cbn [length]; repeat split; try congruence;
    cbn [length] in Hl6; congruence.
Qed.

(** A position with a state record makes every move: [makeMove] returns. *)
Lemma makeMoveAll_returns move pos :
  st pos <> [] ->
  makeMoveAll move pos =
    Done ((if kingAttacked (applyMove move pos) then 0 else 1), applyMove move pos).
Proof.
  intros H. unfold makeMoveAll. destruct (st pos); [congruence|].
  destruct (kingAttacked _); reflexivity.
Qed.

(** The subset reading of an AND-ed mask. *)
Lemma land_subset c x y :
  Z.land (Z.land (Z.land c x) y) c = Z.land (Z.land c x) y.
Proof.
  apply Z.bits_inj'. intros i Hi. rewrite !Z.land_spec.
  destruct (Z.testbit c i), (Z.testbit x i), (Z.testbit y i); reflexivity.
Qed.

(** ** Castling rights under make *)

(** C7.  For every position with a state record and every move, [makeMove]
    returns, and the castling-rights mask after the call is a subset of
    the mask before it: every bit set afterwards was set before, so make
    only clears rights.  When the move is applied (under [AllMoves], or
    under [CaptureMoves] with the capture flag set) the new mask is the
    old one AND-ed with the [CastlingRights] entries of the source and the
    target square. *)
Theorem makeMove_castle_only_cleared (move flag : Z) (pos : Position) :
  st pos <> [] ->
  exists res pos',
    makeMove move flag pos = Done (res, pos') /\
    Z.land (castle pos') (castle pos) = castle pos' /\
    (forall i, Z.testbit (castle pos') i = true -> Z.testbit (castle pos) i = true) /\
    (flag = AllMoves \/ getMoveCapture move <> 0 ->
     castle pos' =
       Z.land (Z.land (castle pos) (rd CastlingRights (getMoveSource move)))
              (rd CastlingRights (getMoveTarget move))).
Proof.
  intros Hst.
  pose proof (makeMoveAll_returns move pos Hst) as Hall.
  destruct (applyMove_fields move pos) as (_ & Hc & _).
  assert (Hsub : forall c', Z.land c' (castle pos) = c' ->
                 forall i, Z.testbit c' i = true -> Z.testbit (castle pos) i = true).
  { intros c' Hc' i Hi. rewrite <- Hc', Z.land_spec in Hi.
    apply andb_true_iff in Hi. tauto. }
  unfold makeMove. destruct (st pos) as [|s prev] eqn:E; [congruence|].
  destruct (flag =? AllMoves) eqn:Hflag.
  - rewrite Hall. do 2 eexists. split; [reflexivity|].
    cbn [snd]. rewrite Hc. split; [apply land_subset|].
    split; [apply Hsub, land_subset | reflexivity].
  - destruct (truthy (getMoveCapture move)) eqn:Hcap.
    + rewrite Hall. do 2 eexists. split; [reflexivity|].
      cbn [snd]. rewrite Hc. split; [apply land_subset|].
      split; [apply Hsub, land_subset | reflexivity].
    + do 2 eexists. split; [reflexivity|].
      split; [apply Z.land_diag|]. split; [apply Hsub, Z.land_diag|].
      intros [Hf | Hm].
      * apply Z.eqb_neq in Hflag. contradiction.
      * unfold truthy in Hcap. apply negb_false_iff, Z.eqb_eq in Hcap. contradiction.
Qed.

Lemma makeMove_castle_only_cleared_witness :
  exists res pos',
    makeMove black_OO AllMoves castlingBlack = Done (res, pos') /\
    Z.land (castle pos') (castle castlingBlack) = castle pos' /\
    (forall i, Z.testbit (castle pos') i = true ->
               Z.testbit (castle castlingBlack) i = true) /\
    (AllMoves = AllMoves \/ getMoveCapture black_OO <> 0 ->
     castle pos' =
       Z.land (Z.land (castle castlingBlack) (rd CastlingRights (getMoveSource black_OO)))
              (rd CastlingRights (getMoveTarget black_OO))).
Proof.
  apply (makeMove_castle_only_cleared black_OO AllMoves castlingBlack).
  vm_compute. discriminate.
Defined.

(** ** Failure of make *)


(** ** The capture filter *)

(** Under [CaptureMoves] a move without the capture flag is refused and
    the position is left as it was. *)
Lemma makeMove_CaptureMoves_quiet (move : Z) (pos : Position) :
  st pos <> [] -> getMoveCapture move = 0 ->
  makeMove move CaptureMoves pos = Done (0, pos).
Proof.
  intros Hst Hcap. unfold makeMove. destruct (st pos); [congruence|].
  rewrite Hcap. reflexivity.
Qed.

(** Under [CaptureMoves] the value returned is 0 whatever the move. *)
Lemma makeMove_CaptureMoves_result (move res : Z) (pos pos' : Position) :
  makeMove move CaptureMoves pos = Done (res, pos') -> res = 0.
Proof.
  unfold makeMove. destruct (st pos); [discriminate|].
  change (CaptureMoves =? AllMoves) with false. cbv iota.
  destruct (truthy (getMoveCapture move)).
  - destruct (makeMoveAll move pos) as [[? ?]| |]; intros H; inversion H; reflexivity.
  - intros H; inversion H; reflexivity.
Qed.

(** C4.  The capture e4xd5 after 1. e4 d5 is legal: [makeMove] returns 1
    for it under [AllMoves].  Under [CaptureMoves] the same move is made
    (the same position results) but the value returned is 0: the result
    of the nested call is dropped. *)
Theorem makeMove_CaptureMoves_drops_result :
  getMoveCapture e4xd5 <> 0 /\
  exists pos',
    makeMove e4xd5 AllMoves afterE4D5 = Done (1, pos') /\
    makeMove e4xd5 CaptureMoves afterE4D5 = Done (0, pos').
Proof.
  split; [vm_compute; discriminate|].
  eexists. split; vm_compute; reflexivity.
Qed.

(** ** Unmake *)

Lemma moveBack_scalars pc side f t pos : sameScalars (moveBack pc side f t pos) pos.
Proof. unfold moveBack. scalars. Qed.

Lemma undoPromotion_scalars pr f t pos : sameScalars (undoPromotion pr f t pos) pos.
Proof. unfold undoPromotion. cbv zeta. scalars. Qed.

Lemma undoCastling_scalars f t pos : sameScalars (undoCastling f t pos) pos.
Proof. unfold undoCastling. cbv zeta. scalars. Qed.

Lemma restoreCaptured_scalars m t pos : sameScalars (restoreCaptured m t pos) pos.
Proof. unfold restoreCaptured. destruct (st pos); scalars. Qed.

Lemma undoOther_scalars m pc f t pos : sameScalars (undoOther m pc f t pos) pos.
Proof.
  unfold undoOther. cbv zeta.
  eapply sameScalars_trans; [apply restoreCaptured_scalars|].
  repeat apply sameScalars_if; auto using moveBack_scalars, sameScalars_refl.
Qed.

Lemma restoreCaptured_st m t pos : st (restoreCaptured m t pos) = st pos.
Proof.
  unfold restoreCaptured. destruct (st pos) as [|s prev] eqn:E; [exact E|].
  destruct (_ && _); [cbn [st setBB withBitboards]|]; exact E.
Qed.

Lemma undoOther_st m pc f t pos : st (undoOther m pc f t pos) = st pos.
Proof.
  unfold undoOther. cbv zeta. rewrite restoreCaptured_st.
  repeat (match goal with |- context [if ?c then _ else _] => destruct c end);
    reflexivity.
Qed.

(** [undoMove] never writes the en-passant square, and the rights it
    installs are those of the record below the top of the chain. *)
Lemma undoMove_scalars (m : Z) (pos pos' : Position) :
  undoMove m pos = Done pos' ->
  epsq pos' = epsq pos /\
  sideToMove pos' = Z.lxor (sideToMove pos) 1 /\
  st pos' = tail (st pos) /\
  exists s prev, tail (st pos) = s :: prev /\ castle pos' = st_castle s.
Proof.
  unfold undoMove. destruct (st pos) as [|s0 prev0] eqn:E; [discriminate|].
  cbv zeta.
  set (mid := if truthy (getPromo m) then _ else _).
  assert (Hmid : sameScalars mid (flipSide pos) /\ st mid = st pos).
  { unfold mid.
    destruct (truthy (getPromo m)); [|destruct (truthy (getCastle m))].
    - split; [apply undoPromotion_scalars|].
      unfold undoPromotion. cbv zeta.
      repeat (match goal with |- context [if ?c then _ else _] => destruct c end);
        reflexivity.
    - split; [apply undoCastling_scalars|].
      unfold undoCastling. cbv zeta.
      repeat (match goal with |- context [if ?c then _ else _] => destruct c end);
        reflexivity.
    - split; [apply undoOther_scalars|]. rewrite undoOther_st. reflexivity. }
  destruct Hmid as ((Hs & He & Hc & _) & Hst).
  cbn [st withSt bothStep withOccupancies]. rewrite Hst, E. cbn [tail].
  destruct prev0 as [|s1 prev1]; [discriminate|].
  intros H; inversion H; subst; clear H.
  cbn [epsq sideToMove st castle withCastle withSt bothStep withOccupancies].
  rewrite He, Hs. repeat split. exists s1, prev1. split; reflexivity.
Qed.

(** C5.  From the start position (no en-passant square) the double push
    e2-e4 is made on a chain the caller has pushed a record on, as the
    commented lines of dperft would; make sets the en-passant square to
    e3 (44) and pushes nothing itself.  [undoMove] then pops the record
    and restores the castling rights from the one below, but the
    en-passant square stays e3: it is not put back to its value before the
    move.  On the unpushed one-record chain the same undo dereferences the
    null [previous] pointer. *)
Theorem undoMove_epsq_not_restored :
  epsq startpos = NoSq /\
  exists made undone,
    makeMove e2e4 AllMoves (pushState startpos) = Done (1, made) /\
    length (st made) = length (st (pushState startpos)) /\
    epsq made = 44 /\
    undoMove e2e4 made = Done undone /\
    epsq undone = 44 /\
    epsq undone <> epsq startpos /\
    castle undone = castle startpos /\
    st undone = st startpos /\
    undoMove e2e4 (applyMove e2e4 startpos) = NullDereference.
Proof.
  split; [reflexivity|].
  do 2 eexists. split; [vm_compute; reflexivity|].
  split; [reflexivity|]. split; [reflexivity|].
  split; [vm_compute; reflexivity|].
  split; [reflexivity|]. split; [vm_compute; discriminate|].
  split; [reflexivity|]. split; vm_compute; reflexivity.
Qed.

(** C1.  In r3k2r/8/8/8/8/8/8/R3K2R with black to move, black castles
    king-side (legal: [makeMove] returns 1) and the move is undone.  The
    position is not the one before the move: the black king stays on g8
    and the black rook on f8, a white king appears on e8 and a white rook
    on h8, and the occupancies follow. *)
Theorem make_undo_black_castling_differs :
  exists made undone,
    makeMove black_OO AllMoves (pushState castlingBlack) = Done (1, made) /\
    undoMove black_OO made = Done undone /\
    ~ sameBoard undone castlingBlack /\
    rd (bitboards castlingBlack) Piece.k = setBit 0 e8 /\
    rd (bitboards undone) Piece.k = setBit 0 g8 /\
    rd (bitboards undone) Piece.K = setBit (setBit 0 e1) e8 /\
    rd (bitboards undone) Piece.R = setBit (setBit (setBit 0 a1) h1) h8 /\
    rd (bitboards undone) Piece.r = setBit (setBit 0 a8) f8 /\
    rd (occupancies undone) White <> rd (occupancies castlingBlack) White /\
    rd (occupancies undone) Black <> rd (occupancies castlingBlack) Black.
Proof.
  do 2 eexists. split; [vm_compute; reflexivity|].
  split; [vm_compute; reflexivity|].
  split; [intros (Hb & _); vm_compute in Hb; discriminate Hb|].
  repeat split; vm_compute; (reflexivity || discriminate).
Qed.

(** Restoring the captured piece never writes an occupancy. *)
Lemma restoreCaptured_occupancies m toSq pos :
  occupancies (restoreCaptured m toSq pos) = occupancies pos.
Proof.
  unfold restoreCaptured. destruct (st pos); [reflexivity|].
  destruct (_ && _); reflexivity.
Qed.

(** C2.  After 1. e4 d5 white takes on d5 (legal: [makeMove] returns 1);
    the occupancies are consistent before the move and after make.  After
    [undoMove] the black pawn is back on d5 in its piece bitboard but not
    in [occupancies[Black]] (nor in [occupancies[Both]]): the occupancy
    invariant is broken. *)
Theorem undoMove_capture_breaks_occupancies :
  occupanciesConsistent (pushState afterE4D5) = true /\
  exists made undone,
    makeMove e4xd5 AllMoves (pushState afterE4D5) = Done (1, made) /\
    occupanciesConsistent made = true /\
    undoMove e4xd5 made = Done undone /\
    occupanciesConsistent undone = false /\
    getBit (rd (bitboards undone) Piece.p) 27 = 1 /\
    getBit (rd (occupancies undone) Black) 27 = 0 /\
    getBit (rd (occupancies undone) Both) 27 = 0 /\
    rd (occupancies undone) Black <> orBitboards undone Piece.p 6.
Proof.
  split; [vm_compute; reflexivity|].
  do 2 eexists. split; [vm_compute; reflexivity|].
  split; [vm_compute; reflexivity|].
  split; [vm_compute; reflexivity|].
  repeat split; vm_compute; (reflexivity || discriminate).
Qed.

(** ** Symmetry of the leaper tables *)

Lemma memberb_spec t bb : memberb t bb = true <-> member t bb.
Proof. unfold memberb, member. apply Z.eqb_eq. Qed.

Lemma symmetricEverywhere_holds : symmetricEverywhere = true.
Proof. vm_compute. reflexivity. Qed.

Lemma in_squares s : 0 <= s < 64 -> In s squares.
Proof.
  intros H. apply list_elem_of_In. unfold squares. apply elem_of_seqZ. lia.
Qed.

Lemma symmetricAt_holds s t : 0 <= s < 64 -> 0 <= t < 64 -> symmetricAt s t = true.
Proof.
  intros Hs Ht. pose proof symmetricEverywhere_holds as H.
  unfold symmetricEverywhere in H. rewrite forallb_forall in H.
  specialize (H s (in_squares s Hs)). rewrite forallb_forall in H.
  exact (H t (in_squares t Ht)).
Qed.

Lemma eqb_member_iff s t bb1 bb2 :
  eqb (memberb t bb1) (memberb s bb2) = true -> (member t bb1 <-> member s bb2).
Proof.
  intros H. apply eqb_prop in H. rewrite <- !memberb_spec, H. tauto.
Qed.

(** C8.  With the tables as [initLeaperAttacks] fills them, for all
    squares [s], [t] in 0..63 and each side [c]: [t] is in
    [PawnAttacks[c][s]] iff [s] is in [PawnAttacks[1 - c][t]]; [t] is in
    [KnightAttacks[s]] iff [s] is in [KnightAttacks[t]]; and [t] is in
    [KingAttacks[s]] iff [s] is in [KingAttacks[t]]. *)
Theorem leaper_attacks_symmetric (s t c : Z) :
  0 <= s < 64 -> 0 <= t < 64 -> c = White \/ c = Black ->
  (member t (PawnAttacks c s) <-> member s (PawnAttacks (1 - c) t)) /\
  (member t (KnightAttacks s) <-> member s (KnightAttacks t)) /\
  (member t (KingAttacks s) <-> member s (KingAttacks t)).
Proof.
  intros Hs Ht Hc. pose proof (symmetricAt_holds s t Hs Ht) as H.
  unfold symmetricAt in H. rewrite !andb_true_iff in H.
  destruct H as (((Hw & Hb) & Hn) & Hk).
  split; [|split; apply eqb_member_iff; assumption].
  destruct Hc as [-> | ->].
  - change (1 - White) with Black. apply eqb_member_iff, Hw.
  - change (1 - Black) with White. apply eqb_member_iff, Hb.
Qed.

Lemma leaper_attacks_symmetric_witness :
  (member 27 (PawnAttacks White 36) <-> member 36 (PawnAttacks (1 - White) 27)) /\
  (member 27 (KnightAttacks 36) <-> member 36 (KnightAttacks 27)) /\
  (member 27 (KingAttacks 36) <-> member 36 (KingAttacks 27)).
Proof.
  apply (leaper_attacks_symmetric 36 27 White); [lia | lia | left; reflexivity].
Defined.

(** ** Array reads after writes *)

Lemma rd_wr_same (l : list Z) i v :
  0 <= i < Z.of_nat (length l) -> rd (wr l i v) i = v.
Proof.
  intros H. unfold rd, wr. apply list_lookup_total_insert_eq. lia.
Qed.

Lemma rd_wr_other (l : list Z) i j v :
  0 <= i -> 0 <= j -> i <> j -> rd (wr l i v) j = rd l j.
Proof.
  intros Hi Hj Hne. unfold rd, wr. apply list_lookup_total_insert_ne. lia.
Qed.

Lemma length_wr (l : list Z) i v : length (wr l i v) = length l.
Proof. unfold wr. apply length_insert. Qed.

(** ** Bits of a popped bitboard *)

Lemma shl64_one_testbit s i :
  0 <= s < 64 -> 0 <= i -> Z.testbit (shl64 1 s) i = (i =? s).
Proof.
  intros Hs Hi. unfold shl64, wrap64.
  rewrite Z.shiftl_1_l, Z.mod_small.
  - destruct (Z.eqb_spec i s) as [->|Hne].
    + apply Z.pow2_bits_true. lia.
    + apply Z.pow2_bits_false. lia.
  - split; [apply Z.pow_nonneg; lia|]. apply Z.pow_lt_mono_r; lia.
Qed.

Lemma not64_testbit x i :
  0 <= i < 64 -> Z.testbit (not64 x) i = negb (Z.testbit x i).
Proof.
  intros Hi. unfold not64, wrap64.
  rewrite Z.mod_pow2_bits_low by lia. apply Z.lnot_spec. lia.
Qed.

(** Popping square [s] clears bit [s] and keeps every other bit of the
    64-bit word. *)
Lemma popBit_testbit bb s i :
  0 <= s < 64 -> 0 <= i < 64 ->
  Z.testbit (popBit bb s) i = Z.testbit bb i && negb (i =? s).
Proof.
  intros Hs Hi. unfold popBit, clearBit.
  rewrite Z.land_spec, not64_testbit, shl64_one_testbit by lia. reflexivity.
Qed.

(** Popping the same square twice is popping it once. *)
Lemma popBit_twice bb s : popBit (popBit bb s) s = popBit bb s.
Proof.
  unfold popBit, clearBit. rewrite <- Z.land_assoc, Z.land_diag. reflexivity.
Qed.

(** ** En-passant captures *)


Lemma themFrame_trans them x y z :
  themFrame them x y -> themFrame them y z -> themFrame them x z.
Proof.
  intros (Hb1 & Ho1 & Hp1 & Hq1) (Hb2 & Ho2 & Hp2 & Hq2).
  repeat split; try congruence.
  intros pc Hpc. rewrite Hp1, Hp2 by assumption. reflexivity.
Qed.

(** Splits on the side to move and turns the piece ranges into numbers. *)
Ltac by_side H :=
  destruct H as [H | H]; rewrite H in *;
  unfold pieceOf, officerOf, pawnOf, other, epCaptureSquare, White, Black, Both,
         Piece.P, Piece.p, Piece.K, Piece.k in *;
  cbn [Z.eqb Pos.eqb] in *.

Lemma movePiece_frame us f t pos :
  sideToMove pos = us -> us = White \/ us = Black ->
  themFrame (other us) (movePiece (pawnOf us) f t pos) pos.
Proof.
  intros Hs Hside. unfold movePiece, themFrame. cbv zeta.
  cbn [bitboards occupancies sideToMove popBB setBB popOcc setOcc
       withBitboards withOccupancies].
  rewrite !length_wr, Hs.
  split; [reflexivity|]. split; [reflexivity|].
  by_side Hside.
  - split; [|rewrite !rd_wr_other by lia; reflexivity].
    intros pc Hpc. rewrite !rd_wr_other by lia. reflexivity.
  - split; [|rewrite !rd_wr_other by lia; reflexivity].
    intros pc Hpc. rewrite !rd_wr_other by lia. reflexivity.
Qed.

Lemma captureLoop_none pieces toSq Them pos :
  (forall pc, In pc pieces -> getBit (rd (bitboards pos) pc) toSq = 0) ->
  captureLoop pieces toSq Them pos = pos.
Proof.
  induction pieces as [|pc rest IH]; intros H; [reflexivity|].
  cbn [captureLoop]. rewrite (H pc) by (left; reflexivity).
  cbn. apply IH. intros pc' Hin. apply H. right. exact Hin.
Qed.

Lemma captureStep_none us c toSq Them pos :
  sideToMove pos = us -> us = White \/ us = Black ->
  (forall pc, pieceOf (other us) pc -> getBit (rd (bitboards pos) pc) toSq = 0) ->
  captureStep c toSq Them pos = pos.
Proof.
  intros Hs Hside Hempty. unfold captureStep. destruct (truthy c); [|reflexivity].
  cbv zeta. rewrite Hs. apply captureLoop_none. intros pc Hin.
  apply Hempty. apply list_elem_of_In in Hin.
  by_side Hside; apply elem_of_seqZ in Hin; lia.
Qed.

(** The en-passant block removes the pawn on [epCaptureSquare] from the
    opponent's pawn bitboard and occupancy, and nothing else of the
    opponent's. *)
Lemma epStep_removes us ep toSq pos :
  sideToMove pos = us -> us = White \/ us = Black ->
  ep <> 0 ->
  length (bitboards pos) = 12%nat -> length (occupancies pos) = 3%nat ->
  let pos' := epStep ep toSq pos in
  let capsq := epCaptureSquare us toSq in
  length (bitboards pos') = 12%nat /\ length (occupancies pos') = 3%nat /\
  rd (bitboards pos') (pawnOf (other us)) =
    popBit (rd (bitboards pos) (pawnOf (other us))) capsq /\
  rd (occupancies pos') (other us) = popBit (rd (occupancies pos) (other us)) capsq /\
  (forall pc, officerOf (other us) pc -> rd (bitboards pos') pc = rd (bitboards pos) pc).
Proof.
  intros Hs Hside Hep Hbb Hocc. cbv zeta. unfold epStep.
  assert (Ht : truthy ep = true).
  { unfold truthy. apply negb_true_iff, Z.eqb_neq. exact Hep. }
  rewrite Ht. cbv zeta.
  by_side Hside;
    repeat first
      [ rewrite Hs
      | progress cbn [Z.eqb Pos.eqb bitboards occupancies sideToMove popBB popOcc
                      withBitboards withOccupancies] ];
    rewrite !length_wr;
    (split; [assumption|]); (split; [assumption|]).
  - rewrite !rd_wr_same by (rewrite ?length_wr; lia).
    rewrite popBit_twice. split; [reflexivity|]. split; [reflexivity|].
    intros pc Hpc. rewrite !rd_wr_other by lia. reflexivity.
  - rewrite !rd_wr_same by (rewrite ?length_wr; lia).
    rewrite popBit_twice. split; [reflexivity|]. split; [reflexivity|].
    intros pc Hpc. rewrite !rd_wr_other by lia. reflexivity.
Qed.

Lemma dpushStep_frame them d t pos : themFrame them (dpushStep d t pos) pos.
Proof.
  unfold dpushStep. cbv zeta.
  destruct (truthy d); [destruct (_ =? _)|]; repeat split.
Qed.

Lemma rightsStep_frame them f t pos : themFrame them (rightsStep f t pos) pos.
Proof. repeat split. Qed.

Lemma syncStateInfo_frame them pos : themFrame them (syncStateInfo pos) pos.
Proof. unfold syncStateInfo. destruct (st pos); repeat split. Qed.

Lemma bothStep_frame them pos :
  them = White \/ them = Black -> themFrame them (bothStep pos) pos.
Proof.
  intros Hthem. unfold bothStep, themFrame.
  cbn [bitboards occupancies withOccupancies]. rewrite length_wr.
  repeat split.
  destruct Hthem as [-> | ->]; apply rd_wr_other; unfold White, Black, Both; lia.
Qed.

Lemma flipSide_frame them pos : themFrame them (flipSide pos) pos.
Proof. repeat split. Qed.

(** The blocks after the en-passant block leave the opponent's side as it
    is. *)
Lemma after_ep_frame them dpush fromSq toSq pos :
  them = White \/ them = Black ->
  themFrame them
    (flipSide (bothStep (syncStateInfo (rightsStep fromSq toSq
       (castlingStep 0 toSq (dpushStep dpush toSq pos)))))) pos.
Proof.
  intros Hthem. unfold castlingStep. change (truthy 0) with false. cbv iota.
  eapply themFrame_trans; [apply flipSide_frame|].
  eapply themFrame_trans; [apply bothStep_frame, Hthem|].
  eapply themFrame_trans; [apply syncStateInfo_frame|].
  eapply themFrame_trans; [apply rightsStep_frame|].
  apply dpushStep_frame.
Qed.

Lemma makeMove_AllMoves move pos :
  st pos <> [] ->
  makeMove move AllMoves pos =
    Done ((if kingAttacked (applyMove move pos) then 0 else 1), applyMove move pos).
Proof.
  intros Hst. unfold makeMove. rewrite (makeMoveAll_returns move pos Hst).
  destruct (st pos); [congruence|]. reflexivity.
Qed.

(** C6, as stated, fails.  In the en-passant position of the spec
    (rnbqkbnr/ppp1p1pp/8/3pPp2/8/8/PPPP1PPP/RNBQKBNR w KQkq f6) white
    captures e5xf6.  The black pawn removed is the one on f5 = target + 8
    (29); on target - 8 = f7 (13) there is no pawn, and the black pawn
    bitboard and occupancy after the move are not the old ones with the
    square target - 8 cleared. *)
Lemma enpassant_white_removes_plus_8 :
  sideToMove enPassantWhite = White /\ getEp e5xf6_ep <> 0 /\
  getMoveTarget e5xf6_ep = 21 /\
  exists made,
    makeMove e5xf6_ep AllMoves enPassantWhite = Done (1, made) /\
    getBit (rd (bitboards enPassantWhite) Piece.p) (21 - 8) = 0 /\
    getBit (rd (bitboards enPassantWhite) Piece.p) (21 + 8) = 1 /\
    getBit (rd (bitboards made) Piece.p) (21 + 8) = 0 /\
    rd (bitboards made) Piece.p <> popBit (rd (bitboards enPassantWhite) Piece.p) (21 - 8) /\
    rd (occupancies made) Black <> popBit (rd (occupancies enPassantWhite) Black) (21 - 8).
Proof.
  split; [reflexivity|]. split; [vm_compute; discriminate|]. split; [reflexivity|].
  eexists. split; [vm_compute; reflexivity|].
  repeat split; vm_compute; (reflexivity || discriminate).
Qed.

(** C6, amended.  Making a move whose en-passant flag is set (a pawn move
    of the side to move, without promotion or castling flag, to a square
    no opponent piece stands on) removes exactly one opponent pawn, the
    one on target + 8 for a white captor and target - 8 for a black
    captor: that bit, and no other, is cleared in the opponent's pawn
    bitboard and in the opponent's occupancy, and no other opponent
    bitboard changes.  The second pop of the same square changes nothing
    more. *)
Theorem makeMove_enpassant_removes_one_pawn (move : Z) (pos : Position) :
  length (bitboards pos) = 12%nat ->
  length (occupancies pos) = 3%nat ->
  st pos <> [] ->
  sideToMove pos = White \/ sideToMove pos = Black ->
  getEp move <> 0 ->
  getPromo move = 0 ->
  getCastle move = 0 ->
  getMovePiece move = pawnOf (sideToMove pos) ->
  (forall pc, pieceOf (other (sideToMove pos)) pc ->
     getBit (rd (bitboards pos) pc) (getMoveTarget move) = 0) ->
  0 <= epCaptureSquare (sideToMove pos) (getMoveTarget move) < 64 ->
  exists res made,
    makeMove move AllMoves pos = Done (res, made) /\
    rd (bitboards made) (pawnOf (other (sideToMove pos))) =
      popBit (rd (bitboards pos) (pawnOf (other (sideToMove pos))))
             (epCaptureSquare (sideToMove pos) (getMoveTarget move)) /\
    (forall i, 0 <= i < 64 ->
       Z.testbit (rd (bitboards made) (pawnOf (other (sideToMove pos)))) i =
       Z.testbit (rd (bitboards pos) (pawnOf (other (sideToMove pos)))) i &&
       negb (i =? epCaptureSquare (sideToMove pos) (getMoveTarget move))) /\
    rd (occupancies made) (other (sideToMove pos)) =
      popBit (rd (occupancies pos) (other (sideToMove pos)))
             (epCaptureSquare (sideToMove pos) (getMoveTarget move)) /\
    (forall pc, officerOf (other (sideToMove pos)) pc ->
       rd (bitboards made) pc = rd (bitboards pos) pc).
Proof.
  intros Hbb Hocc Hst Hside Hep Hpromo Hcastle Hpiece Hempty Hcap.
  set (us := sideToMove pos) in *.
  assert (Hthem : other us = White \/ other us = Black).
  { destruct Hside as [-> | ->]; [right | left]; reflexivity. }
  do 2 eexists. split; [apply makeMove_AllMoves, Hst|].
  unfold applyMove. cbv zeta. rewrite Hpromo, Hcastle, Hpiece.
  fold us.
  set (p1 := movePiece (pawnOf us) (getMoveSource move) (getMoveTarget move) pos).
  assert (F1 : themFrame (other us) p1 pos) by (apply movePiece_frame; auto).
  assert (S1 : sideToMove p1 = us) by apply movePiece_scalars.
  destruct F1 as (Hb1 & Ho1 & Hp1 & Hq1).
  rewrite (captureStep_none us) by
    (auto; intros pc Hpc; rewrite Hp1 by exact Hpc; apply Hempty, Hpc).
  unfold promoStep. change (truthy 0) with false. cbv iota.
  destruct (epStep_removes us (getEp move) (getMoveTarget move) p1 S1 Hside Hep)
    as (Hb2 & Ho2 & Hpawn & Hoc & Hoff); [congruence | congruence |].
  set (p2 := epStep (getEp move) (getMoveTarget move) p1) in *.
  destruct (after_ep_frame (other us) (getDoublePush move) (getMoveSource move)
              (getMoveTarget move) p2 Hthem) as (_ & _ & Hp3 & Hq3).
  assert (Hpawnof : pieceOf (other us) (pawnOf (other us))).
  { unfold pieceOf. lia. }
  assert (Hfinal : rd (bitboards
            (flipSide (bothStep (syncStateInfo (rightsStep (getMoveSource move)
               (getMoveTarget move) (castlingStep 0 (getMoveTarget move)
                 (dpushStep (getDoublePush move) (getMoveTarget move) p2)))))))
            (pawnOf (other us)) =
          popBit (rd (bitboards pos) (pawnOf (other us)))
                 (epCaptureSquare us (getMoveTarget move))).
  { rewrite Hp3, Hpawn, Hp1 by exact Hpawnof. reflexivity. }
  split; [exact Hfinal|].
  split.
  { intros i Hi. rewrite Hfinal. apply popBit_testbit; assumption. }
  split.
  { rewrite Hq3, Hoc, Hq1. reflexivity. }
  intros pc Hpc.
  assert (Hin : pieceOf (other us) pc) by (unfold pieceOf, officerOf in *; lia).
  rewrite Hp3, Hoff, Hp1 by assumption. reflexivity.
Qed.

Lemma makeMove_enpassant_removes_one_pawn_witness :
  exists res made,
    makeMove e5xf6_ep AllMoves enPassantWhite = Done (res, made) /\
    rd (bitboards made) Piece.p = popBit (rd (bitboards enPassantWhite) Piece.p) (21 + 8).
Proof.
  destruct (makeMove_enpassant_removes_one_pawn e5xf6_ep enPassantWhite)
    as (res & made & Hmade & Hpawn & _).
  - reflexivity.
  - reflexivity.
  - vm_compute. discriminate.
  - left. reflexivity.
  - vm_compute. discriminate.
  - reflexivity.
  - reflexivity.
  - reflexivity.
  - intros pc Hpc. change (6 <= pc < 6 + 6) in Hpc.
    assert (Hcases : pc = 6 \/ pc = 7 \/ pc = 8 \/ pc = 9 \/ pc = 10 \/ pc = 11) by lia.
    destruct Hcases as [-> | [-> | [-> | [-> | [-> | ->]]]]]; vm_compute; reflexivity.
  - vm_compute. split; [discriminate | reflexivity].
  - exists res, made. split; [exact Hmade | exact Hpawn].
Defined.

(** ** Failure of make: the position left behind *)







(** ** Move ordering *)

Lemma scoreMove_plain move pos ss :
  scorePV ss && (rd2 (pv_table ss) 0 (ply ss) =? move) = false ->
  scoreMove move pos ss = (plainScore move pos ss, ss).
Proof.
  intros H. unfold plainScore, scoreMove. rewrite H.
  cbn [scorePV withScorePV andb killers history ply].
  destruct (truthy (getMoveCapture move)); [reflexivity|].
  destruct (truthy (getPromo move)); [reflexivity|].
  destruct (rd2 (killers ss) 0 (ply ss) =? move); [reflexivity|].
  destruct (rd2 (killers ss) 1 (ply ss) =? move); reflexivity.
Qed.

Lemma scoreMove_pv move pos ss :
  scorePV ss && (rd2 (pv_table ss) 0 (ply ss) =? move) = true ->
  scoreMove move pos ss = (20000, withScorePV ss false).
Proof. intros H. unfold scoreMove. rewrite H. reflexivity. Qed.

Lemma plainScore_consumed move pos ss :
  plainScore move pos (withScorePV ss false) = plainScore move pos ss.
Proof. reflexivity. Qed.

(** Scoring a list without repeats: the PV move, where PV scoring is on,
    gets 20000 and every other move its plain score, wherever the PV move
    stands in the list. *)
Lemma scoreMoves_spec pos l : forall ss,
  NoDup l ->
  fst (scoreMoves l pos ss) =
  map (fun m => (m, if scorePV ss && (rd2 (pv_table ss) 0 (ply ss) =? m)
                    then 20000 else plainScore m pos ss)) l.
Proof.
  induction l as [|m rest IH]; intros ss Hnd; [reflexivity|].
  inversion Hnd as [|? ? Hnotin Hrest]; subst.
  cbn [scoreMoves map].
  destruct (scorePV ss && (rd2 (pv_table ss) 0 (ply ss) =? m)) eqn:Hpv.
  - rewrite (scoreMove_pv _ _ _ Hpv).
    specialize (IH (withScorePV ss false) Hrest).
    destruct (scoreMoves rest pos (withScorePV ss false)) as [scored ss2].
    cbn [fst] in *. rewrite IH. f_equal.
    apply map_ext_in. intros m' Hin.
    cbn [scorePV withScorePV andb]. rewrite plainScore_consumed.
    apply andb_true_iff in Hpv. destruct Hpv as [_ Hm]. apply Z.eqb_eq in Hm.
    destruct (Z.eqb_spec (rd2 (pv_table ss) 0 (ply ss)) m') as [He|_].
    + exfalso. apply Hnotin, list_elem_of_In. congruence.
    + rewrite andb_false_r. reflexivity.
  - rewrite (scoreMove_plain _ _ _ Hpv).
    specialize (IH ss Hrest).
    destruct (scoreMoves rest pos ss) as [scored ss2].
    cbn [fst] in *. rewrite IH. reflexivity.
Qed.

(** The victim loop finds the piece that stands on the target square. *)
Lemma victimLoop_finds pieces toSq bbs dflt v :
  In v pieces ->
  getBit (rd bbs v) toSq = 1 ->
  (forall pc, In pc pieces -> pc <> v -> getBit (rd bbs pc) toSq = 0) ->
  victimLoop pieces toSq bbs dflt = v.
Proof.
  induction pieces as [|pc rest IH]; intros Hin Hv Hothers; [destruct Hin|].
  cbn [victimLoop]. destruct (Z.eq_dec pc v) as [->|Hne].
  - rewrite Hv. reflexivity.
  - rewrite (Hothers pc) by (auto; left; reflexivity). cbn.
    apply IH; auto.
    + destruct Hin as [He|Hin]; [contradiction | exact Hin].
    + intros pc' Hin' Hne'. apply Hothers; auto. right. exact Hin'.
Qed.

(** The score of a capture of the piece [v] of the opponent. *)
Lemma plainScore_capture move pos ss v :
  sideToMove pos = White \/ sideToMove pos = Black ->
  getMoveCapture move <> 0 ->
  pieceOf (other (sideToMove pos)) v ->
  holds pos (getMoveTarget move) v ->
  plainScore move pos ss = rd2 mvv_lva (getMovePiece move) v + 10000.
Proof.
  intros Hside Hcap Hv (Hbit & Hrest).
  unfold plainScore, scoreMove. cbn [scorePV withScorePV andb].
  assert (Ht : truthy (getMoveCapture move) = true).
  { unfold truthy. apply negb_true_iff, Z.eqb_neq. exact Hcap. }
  rewrite Ht. cbv zeta. cbn [fst]. f_equal. f_equal.
  apply victimLoop_finds; auto.
  - apply list_elem_of_In, elem_of_seqZ. by_side Hside; lia.
  - intros pc Hin Hne. apply Hrest; auto.
    apply list_elem_of_In, elem_of_seqZ in Hin. by_side Hside; lia.
Qed.

(** A list sorted by a relation that is antisymmetric on its elements is
    the only sorted arrangement of those elements. *)
Lemma sorted_arrangement_unique {A} (Rel : A -> A -> Prop) (l1 : list A) :
  forall l2,
  (forall x y, In x l1 -> In y l1 -> Rel x y -> Rel y x -> x = y) ->
  StronglySorted Rel l1 -> StronglySorted Rel l2 -> Permutation l1 l2 -> l1 = l2.
Proof.
  induction l1 as [|x t1 IH]; intros l2 Hanti H1 H2 Hperm.
  - apply Permutation_nil in Hperm. congruence.
  - destruct l2 as [|y t2].
    { apply Permutation_sym, Permutation_nil in Hperm. discriminate. }
    apply StronglySorted_inv in H1. destruct H1 as [Ht1 Hx].
    apply StronglySorted_inv in H2. destruct H2 as [Ht2 Hy].
    rewrite Forall_forall in Hx, Hy.
    assert (Hxy : x = y).
    { assert (Hin_x : In x (y :: t2)).
      { eapply Permutation_in; [exact Hperm | left; reflexivity]. }
      assert (Hin_y : In y (x :: t1)).
      { eapply Permutation_in; [apply Permutation_sym; exact Hperm | left; reflexivity]. }
      destruct Hin_x as [He | Hin_x]; [congruence|].
      destruct Hin_y as [He | Hin_y]; [congruence|].
      apply Hanti; [left; reflexivity | right; exact Hin_y
                   | apply Hx, list_elem_of_In, Hin_y | apply Hy, list_elem_of_In, Hin_x]. }
    subst y. f_equal. apply IH; auto.
    + intros a c Ha Hc. apply Hanti; right; assumption.
    + eapply Permutation_cons_inv. exact Hperm.
Qed.

(** C9.  Take a position, a search state with PV scoring enabled on the
    move [pv], a pawn-takes-queen capture, a queen-takes-pawn capture, a
    non-capture promotion, the first and the second killer of the ply
    (quiet moves) and a quiet move with zero history, all distinct.
    Whatever the order the seven moves are scored in, [scoreMove] gives
    them 20000, 10505, 10101, 10000, 9000, 8000 and 0, and the one
    arrangement of the scored moves in descending score is PV,
    pawn-takes-queen, queen-takes-pawn, promotion, first killer, second
    killer, quiet. *)
Theorem scoreMove_ordering (pos : Position) (ss : SearchState)
    (pv pxq qxp promo k1 k2 quiet : Z) (l : list Z) :
  sideToMove pos = White \/ sideToMove pos = Black ->
  scorePV ss = true ->
  rd2 (pv_table ss) 0 (ply ss) = pv ->
  getMoveCapture pxq <> 0 ->
  getMovePiece pxq = pawnOf (sideToMove pos) ->
  holds pos (getMoveTarget pxq) (queenOf (other (sideToMove pos))) ->
  getMoveCapture qxp <> 0 ->
  getMovePiece qxp = queenOf (sideToMove pos) ->
  holds pos (getMoveTarget qxp) (pawnOf (other (sideToMove pos))) ->
  getMoveCapture promo = 0 ->
  getPromo promo <> 0 ->
  getMoveCapture k1 = 0 -> getPromo k1 = 0 ->
  rd2 (killers ss) 0 (ply ss) = k1 ->
  getMoveCapture k2 = 0 -> getPromo k2 = 0 ->
  rd2 (killers ss) 1 (ply ss) = k2 ->
  getMoveCapture quiet = 0 -> getPromo quiet = 0 ->
  rd2 (history ss) (getMovePiece quiet) (getMoveTarget quiet) = 0 ->
  NoDup [pv; pxq; qxp; promo; k1; k2; quiet] ->
  Permutation l [pv; pxq; qxp; promo; k1; k2; quiet] ->
  let ordered := [(pv, 20000); (pxq, 10505); (qxp, 10101); (promo, 10000);
                  (k1, 9000); (k2, 8000); (quiet, 0)] in
  Permutation (fst (scoreMoves l pos ss)) ordered /\
  StronglySorted scoreDescending ordered /\
  forall sorted,
    Permutation sorted (fst (scoreMoves l pos ss)) ->
    StronglySorted scoreDescending sorted ->
    sorted = ordered.
Proof.
  intros Hside Hon Hpv Hc1 Hp1 Hh1 Hc2 Hp2 Hh2 Hc3 Hpr3 Hc4 Hpr4 Hk1 Hc5 Hpr5 Hk2
         Hc6 Hpr6 Hhist Hnd Hperm ordered.
  assert (Hndl : NoDup l) by (rewrite Hperm; exact Hnd).
  (* the seven moves are pairwise distinct *)
  assert (Hdiff : forall i j x y, [pv; pxq; qxp; promo; k1; k2; quiet] !! i = Some x ->
             [pv; pxq; qxp; promo; k1; k2; quiet] !! j = Some y -> i <> j -> x <> y).
  { intros i j x y Hi Hj Hij Hxy. subst y. apply Hij.
    exact (NoDup_lookup _ i j x Hnd Hi Hj). }
  assert (Hq : forall m, truthy m = false <-> m = 0).
  { intros m. unfold truthy. rewrite negb_false_iff. apply Z.eqb_eq. }
  assert (Hnq : forall m, m <> 0 -> truthy m = true).
  { intros m Hm. unfold truthy. apply negb_true_iff, Z.eqb_neq, Hm. }
  (* the scores of the seven moves *)
  set (g := fun m => (m, if scorePV ss && (rd2 (pv_table ss) 0 (ply ss) =? m)
                         then 20000 else plainScore m pos ss)).
  assert (Hscores : map g [pv; pxq; qxp; promo; k1; k2; quiet] = ordered).
  { unfold g, ordered. cbn [map]. rewrite Hon, Hpv. cbn [andb].
    rewrite Z.eqb_refl.
    rewrite (proj2 (Z.eqb_neq pv pxq)) by (apply (Hdiff 0 1)%nat; auto).
    rewrite (proj2 (Z.eqb_neq pv qxp)) by (apply (Hdiff 0 2)%nat; auto).
    rewrite (proj2 (Z.eqb_neq pv promo)) by (apply (Hdiff 0 3)%nat; auto).
    rewrite (proj2 (Z.eqb_neq pv k1)) by (apply (Hdiff 0 4)%nat; auto).
    rewrite (proj2 (Z.eqb_neq pv k2)) by (apply (Hdiff 0 5)%nat; auto).
    rewrite (proj2 (Z.eqb_neq pv quiet)) by (apply (Hdiff 0 6)%nat; auto).
    assert (S1 : plainScore pxq pos ss = 10505).
    { rewrite (plainScore_capture pxq pos ss (queenOf (other (sideToMove pos))));
        auto.
      - rewrite Hp1. destruct Hside as [-> | ->]; reflexivity.
      - destruct Hside as [-> | ->]; vm_compute; split; congruence. }
    assert (S2 : plainScore qxp pos ss = 10101).
    { rewrite (plainScore_capture qxp pos ss (pawnOf (other (sideToMove pos))));
        auto.
      - rewrite Hp2. destruct Hside as [-> | ->]; reflexivity.
      - destruct Hside as [-> | ->]; vm_compute; split; congruence. }
    assert (S3 : plainScore promo pos ss = 10000).
    { unfold plainScore, scoreMove. cbn [scorePV withScorePV andb].
      rewrite (proj2 (Hq _) Hc3), (Hnq _ Hpr3). reflexivity. }
    assert (S4 : plainScore k1 pos ss = 9000).
    { unfold plainScore, scoreMove. cbn [scorePV withScorePV andb killers ply].
      rewrite (proj2 (Hq _) Hc4), (proj2 (Hq _) Hpr4), Hk1, Z.eqb_refl. reflexivity. }
    assert (S5 : plainScore k2 pos ss = 8000).
    { unfold plainScore, scoreMove. cbn [scorePV withScorePV andb killers ply].
      rewrite (proj2 (Hq _) Hc5), (proj2 (Hq _) Hpr5), Hk1, Hk2, Z.eqb_refl.
      rewrite (proj2 (Z.eqb_neq k1 k2)) by (apply (Hdiff 4 5)%nat; auto).
      reflexivity. }
    assert (S6 : plainScore quiet pos ss = 0).
    { unfold plainScore, scoreMove.
      cbn [scorePV withScorePV andb killers ply history].
      rewrite (proj2 (Hq _) Hc6), (proj2 (Hq _) Hpr6), Hk1, Hk2.
      rewrite (proj2 (Z.eqb_neq k1 quiet)) by (apply (Hdiff 4 6)%nat; auto).
      rewrite (proj2 (Z.eqb_neq k2 quiet)) by (apply (Hdiff 5 6)%nat; auto).
      cbn [fst]. exact Hhist. }
    rewrite S1, S2, S3, S4, S5, S6. reflexivity. }
  assert (Hscored : Permutation (fst (scoreMoves l pos ss)) ordered).
  { rewrite (scoreMoves_spec pos l ss Hndl). fold g. rewrite <- Hscores.
    apply Permutation_map, Hperm. }
  assert (Hsorted : StronglySorted scoreDescending ordered).
  { unfold ordered, scoreDescending.
    repeat (constructor; [|repeat (constructor; [cbn [snd]; lia|]); constructor]).
    constructor. }
  split; [exact Hscored|]. split; [exact Hsorted|].
  intros sorted Hps Hss. symmetry.
  apply (sorted_arrangement_unique scoreDescending); auto.
  - intros x y Hx Hy Hxy Hyx. unfold scoreDescending in Hxy, Hyx.
    unfold ordered in Hx, Hy. cbn [In] in Hx, Hy.
    repeat (destruct Hx as [<- | Hx]; [|]); try contradiction;
      repeat (destruct Hy as [<- | Hy]; [|]); try contradiction;
      cbn [snd] in *; first [reflexivity | lia].
  - rewrite Hps. symmetry. exact Hscored.
Qed.

Lemma holds_by_cases pos sq pc :
  getBit (rd (bitboards pos) pc) sq = 1 ->
  forallb (fun pc' => (pc' =? pc) || (getBit (rd (bitboards pos) pc') sq =? 0))
          (seqZ 0 12) = true ->
  holds pos sq pc.
Proof.
  intros Hbit Hall. split; [exact Hbit|].
  intros pc' Hrange Hne. rewrite forallb_forall in Hall.
  specialize (Hall pc'). rewrite <- list_elem_of_In, elem_of_seqZ in Hall.
  specialize (Hall ltac:(lia)). apply orb_true_iff in Hall.
  destruct Hall as [He | He]; apply Z.eqb_eq in He; [contradiction | exact He].
Qed.

Lemma scoreMove_ordering_witness :
  Permutation
    (fst (scoreMoves [Ke1e2_quiet; Nb1c3; Ng1f3; a7a8_queen; Qd1xd4; e4xd5_queen; Ng1h3]
                     orderingPos orderingState))
    [(Ng1h3, 20000); (e4xd5_queen, 10505); (Qd1xd4, 10101); (a7a8_queen, 10000);
     (Ng1f3, 9000); (Nb1c3, 8000); (Ke1e2_quiet, 0)].
Proof.
  apply (scoreMove_ordering orderingPos orderingState
           Ng1h3 e4xd5_queen Qd1xd4 a7a8_queen Ng1f3 Nb1c3 Ke1e2_quiet
           [Ke1e2_quiet; Nb1c3; Ng1f3; a7a8_queen; Qd1xd4; e4xd5_queen; Ng1h3]).
  - left. reflexivity.
  - reflexivity.
  - vm_compute. reflexivity.
  - vm_compute. discriminate.
  - reflexivity.
  - apply holds_by_cases; vm_compute; reflexivity.
  - vm_compute. discriminate.
  - reflexivity.
  - apply holds_by_cases; vm_compute; reflexivity.
  - reflexivity.
  - vm_compute. discriminate.
  - reflexivity.
  - reflexivity.
  - vm_compute. reflexivity.
  - reflexivity.
  - reflexivity.
  - vm_compute. reflexivity.
  - reflexivity.
  - reflexivity.
  - vm_compute. reflexivity.
  - vm_compute. repeat (apply NoDup_cons_2; [rewrite ?elem_of_cons, elem_of_nil; lia|]).
    apply NoDup_nil_2.
  - change [Ke1e2_quiet; Nb1c3; Ng1f3; a7a8_queen; Qd1xd4; e4xd5_queen; Ng1h3]
      with (rev [Ng1h3; e4xd5_queen; Qd1xd4; a7a8_queen; Ng1f3; Nb1c3; Ke1e2_quiet]).
    symmetry. apply Permutation_rev.
Defined.

(** ** Divide-perft *)

(** [perft] refuses a negative depth. *)
Lemma perft_negative generateMoves (depth : Z) (s : PerftState) :
  depth < 0 -> perft generateMoves depth s = AssertionFailed.
Proof.
  intros H. unfold perft.
  destruct (Z.geb_spec depth 0) as [Hge | _]; [lia | reflexivity].
Qed.

(** C10.  The entry assertion of [dperft] is [depth < 0]: for every depth
    of 0 or more, and so for every depth of 1 or more, whatever the
    position, the generated moves and the clock, the call ends in a failed
    assertion before a move is generated or a line printed. *)
Theorem dperft_entry_assertion_fails
    (generateMoves : Position -> MoveList_t)
    (SquareToCoordinates PromoPieces : Z -> string)
    (ns depth : Z) (s : PerftState) :
  0 <= depth ->
  dperft generateMoves SquareToCoordinates PromoPieces ns depth s = AssertionFailed.
Proof.
  intros H. unfold dperft.
  destruct (Z.ltb_spec depth 0) as [Hlt | _]; [lia | reflexivity].
Qed.

Lemma dperft_entry_assertion_fails_witness :
  dperft (fun _ => mkMoveList [e2e4; g1f3] 2) (fun _ => EmptyString) (fun _ => EmptyString)
         1000 1 (mkPerftState startpos 0) = AssertionFailed.
Proof.
  apply (dperft_entry_assertion_fails
           (fun _ => mkMoveList [e2e4; g1f3] 2) (fun _ => EmptyString)
           (fun _ => EmptyString) 1000 1 (mkPerftState startpos 0)).
  lia.
Defined.

(** * Further properties *)

(** ** Bit utilities *)

Lemma getBit_testbit bb pos :
  0 <= pos -> getBit bb pos = Z.b2z (Z.testbit bb pos).
Proof.
  intros Hpos. unfold getBit, shr64.
  change 1 with (Z.ones 1). rewrite Z.land_ones by lia.
  rewrite Z.shiftr_div_pow2 by lia. change (2 ^ 1) with 2.
  symmetry. apply Z.testbit_spec'. exact Hpos.
Qed.

Lemma below_pow2_of_bits x n :
  0 <= n -> 0 <= x -> (forall i, n <= i -> Z.testbit x i = false) -> x < 2 ^ n.
Proof.
  intros Hn Hx Hbits. destruct (Z.eq_dec x 0) as [->|Hne].
  - apply Z.pow_pos_nonneg; lia.
  - apply Z.log2_lt_pow2; [lia|].
    destruct (Z.lt_ge_cases (Z.log2 x) n) as [Hlt|Hge]; [exact Hlt|].
    specialize (Hbits (Z.log2 x) Hge).
    rewrite Z.bit_log2 in Hbits by lia. discriminate.
Qed.

Lemma bits_above_64 x i : 0 <= x < 2 ^ 64 -> 64 <= i -> Z.testbit x i = false.
Proof.
  intros Hx Hi. destruct (Z.eq_dec x 0) as [->|Hne]; [apply Z.bits_0|].
  apply Z.bits_above_log2; [lia|].
  assert (Z.log2 x < 64) by (apply Z.log2_lt_pow2; lia). lia.
Qed.

Lemma shl64_one_range s : 0 <= s < 64 -> 0 <= shl64 1 s < 2 ^ 64.
Proof. intros Hs. unfold shl64, wrap64. apply Z.mod_pos_bound. reflexivity. Qed.

Lemma setBit_testbit bb s i :
  0 <= s < 64 -> 0 <= i -> Z.testbit (setBit bb s) i = Z.testbit bb i || (i =? s).
Proof.
  intros Hs Hi. unfold setBit. rewrite Z.lor_spec, shl64_one_testbit by lia.
  reflexivity.
Qed.

Lemma toggleBit_testbit bb s i :
  0 <= s < 64 -> 0 <= i -> Z.testbit (toggleBit bb s) i = xorb (Z.testbit bb i) (i =? s).
Proof.
  intros Hs Hi. unfold toggleBit. rewrite Z.lxor_spec, shl64_one_testbit by lia.
  reflexivity.
Qed.

(** X1.  [setBit] then [getBit]: on a 64-bit board and a square 0..63 the
    bit set reads 1, every other bit reads as before, and the board stays
    a 64-bit word. *)
Theorem setBit_getBit (bb s : Z) :
  0 <= bb < 2 ^ 64 -> 0 <= s < 64 ->
  getBit (setBit bb s) s = 1 /\
  (forall t, 0 <= t -> t <> s -> getBit (setBit bb s) t = getBit bb t) /\
  0 <= setBit bb s < 2 ^ 64.
Proof.
  intros Hbb Hs. split; [|split].
  - rewrite getBit_testbit, setBit_testbit, Z.eqb_refl, orb_true_r by lia. reflexivity.
  - intros t Ht Hne. rewrite !getBit_testbit, setBit_testbit by lia.
    rewrite (proj2 (Z.eqb_neq t s) Hne), orb_false_r. reflexivity.
  - assert (Hnn : 0 <= setBit bb s).
    { unfold setBit. apply Z.lor_nonneg. split; [lia|]. apply shl64_one_range, Hs. }
    split; [exact Hnn|]. apply below_pow2_of_bits; [lia | exact Hnn |].
    intros i Hi. rewrite setBit_testbit by lia.
    rewrite (bits_above_64 bb i Hbb Hi). apply Z.eqb_neq. lia.
Qed.

Lemma setBit_getBit_witness :
  getBit (setBit 129 36) 36 = 1 /\
  (forall t, 0 <= t -> t <> 36 -> getBit (setBit 129 36) t = getBit 129 t) /\
  0 <= setBit 129 36 < 2 ^ 64.
Proof. apply (setBit_getBit 129 36); lia. Defined.

(** X2.  [clearBit] (and [popBit]) then [getBit]: on a square 0..63 the
    bit cleared reads 0, every other bit of the 64 reads as before, the
    result is a 64-bit word whatever the input, and clearing twice is
    clearing once. *)
Theorem clearBit_getBit (bb s : Z) :
  0 <= s < 64 ->
  getBit (clearBit bb s) s = 0 /\
  (forall t, 0 <= t < 64 -> t <> s -> getBit (clearBit bb s) t = getBit bb t) /\
  0 <= clearBit bb s < 2 ^ 64 /\
  clearBit (clearBit bb s) s = clearBit bb s /\
  popBit bb s = clearBit bb s.
Proof.
  intros Hs.
  assert (Hmask : 0 <= not64 (shl64 1 s) < 2 ^ 64).
  { unfold not64, wrap64. apply Z.mod_pos_bound. reflexivity. }
  split; [|split; [|split; [|split]]].
  - rewrite getBit_testbit by lia. change (clearBit bb s) with (popBit bb s).
    rewrite popBit_testbit, Z.eqb_refl, andb_false_r by lia. reflexivity.
  - intros t Ht Hne. rewrite !getBit_testbit by lia.
    change (clearBit bb s) with (popBit bb s). rewrite popBit_testbit by lia.
    rewrite (proj2 (Z.eqb_neq t s) Hne), andb_true_r. reflexivity.
  - assert (Hnn : 0 <= clearBit bb s).
    { unfold clearBit. apply Z.land_nonneg. right. lia. }
    split; [exact Hnn|]. apply below_pow2_of_bits; [lia | exact Hnn |].
    intros i Hi. unfold clearBit. rewrite Z.land_spec.
    rewrite (bits_above_64 _ i Hmask Hi). apply andb_false_r.
  - exact (popBit_twice bb s).
  - reflexivity.
Qed.

Lemma clearBit_getBit_witness :
  getBit (clearBit 129 7) 7 = 0 /\
  (forall t, 0 <= t < 64 -> t <> 7 -> getBit (clearBit 129 7) t = getBit 129 t) /\
  0 <= clearBit 129 7 < 2 ^ 64 /\
  clearBit (clearBit 129 7) 7 = clearBit 129 7 /\
  popBit 129 7 = clearBit 129 7.
Proof. apply (clearBit_getBit 129 7); lia. Defined.

(** X3.  [toggleBit] flips the bit of a square 0..63 and no other, and
    toggling the same square twice gives the board back. *)
Theorem toggleBit_involutive (bb s : Z) :
  0 <= s < 64 ->
  toggleBit (toggleBit bb s) s = bb /\
  getBit (toggleBit bb s) s = 1 - getBit bb s /\
  (forall t, 0 <= t -> t <> s -> getBit (toggleBit bb s) t = getBit bb t).
Proof.
  intros Hs. split; [|split].
  - unfold toggleBit. rewrite Z.lxor_assoc, Z.lxor_nilpotent, Z.lxor_0_r. reflexivity.
  - rewrite !getBit_testbit, toggleBit_testbit, Z.eqb_refl by lia.
    destruct (Z.testbit bb s); reflexivity.
  - intros t Ht Hne. rewrite !getBit_testbit, toggleBit_testbit by lia.
    rewrite (proj2 (Z.eqb_neq t s) Hne), xorb_false_r. reflexivity.
Qed.

Lemma toggleBit_involutive_witness :
  toggleBit (toggleBit 129 7) 7 = 129 /\
  getBit (toggleBit 129 7) 7 = 1 - getBit 129 7 /\
  (forall t, 0 <= t -> t <> 7 -> getBit (toggleBit 129 7) t = getBit 129 t).
Proof. apply (toggleBit_involutive 129 7); lia. Defined.

(** ** The least significant set bit *)

(** A positive number AND-ed with its negation is the power of two of its
    lowest set bit. *)
Lemma land_opp_isolates (x : positive) :
  exists k, 0 <= k /\ Z.land (Zpos x) (Zneg x) = 2 ^ k /\
            Z.testbit (Zpos x) k = true /\
            forall j, 0 <= j < k -> Z.testbit (Zpos x) j = false.
Proof.
  assert (Hodd : forall y, 0 <= y -> Z.land (2 * y + 1) (- (2 * y + 1)) = 1).
  { intros y Hy. apply Z.bits_inj'. intros i Hi.
    rewrite Z.land_spec, Z.bits_opp by lia.
    replace (Z.pred (2 * y + 1)) with (2 * y) by lia.
    destruct (Z.eq_dec i 0) as [->|Hne].
    - rewrite Z.testbit_odd_0, Z.testbit_even_0. reflexivity.
    - replace i with (Z.succ (i - 1)) by lia.
      rewrite Z.testbit_odd_succ, Z.testbit_even_succ by lia.
      rewrite andb_negb_r. symmetry.
      change 1 with (2 ^ 0). apply Z.pow2_bits_false. lia. }
  induction x as [x' _ | x' IH |].
  - exists 0. split; [lia|]. split; [|split].
    + change (Zpos x'~1) with (2 * Zpos x' + 1).
      change (Zneg x'~1) with (- (2 * Zpos x' + 1)). apply Hodd. lia.
    + reflexivity.
    + intros j Hj. lia.
  - destruct IH as (k & Hk & Hland & Hbit & Hlow).
    exists (k + 1). split; [lia|]. split; [|split].
    + change (Zpos x'~0) with (2 * Zpos x'). change (Zneg x'~0) with (2 * Zneg x').
      replace (2 * Zpos x') with (Z.shiftl (Zpos x') 1)
        by (rewrite Z.shiftl_mul_pow2 by lia; lia).
      replace (2 * Zneg x') with (Z.shiftl (Zneg x') 1)
        by (rewrite Z.shiftl_mul_pow2 by lia; lia).
      rewrite <- Z.shiftl_land, Hland, Z.shiftl_mul_pow2 by lia.
      rewrite Z.pow_add_r by lia. reflexivity.
    + change (Zpos x'~0) with (2 * Zpos x'). replace (k + 1) with (Z.succ k) by lia.
      rewrite Z.testbit_even_succ by lia. exact Hbit.
    + intros j Hj. change (Zpos x'~0) with (2 * Zpos x').
      destruct (Z.eq_dec j 0) as [->|Hne]; [apply Z.testbit_even_0|].
      replace j with (Z.succ (j - 1)) by lia.
      rewrite Z.testbit_even_succ by lia. apply Hlow. lia.
  - exists 0. split; [lia|]. split; [reflexivity|]. split; [reflexivity|].
    intros j Hj. lia.
Qed.

Lemma deBruijnIndex_all :
  forallb (fun k => deBruijnIndex k =? k) (seqZ 0 64) = true.
Proof. vm_compute. reflexivity. Qed.

Lemma deBruijnIndex_id k : 0 <= k < 64 -> deBruijnIndex k = k.
Proof.
  intros Hk. pose proof deBruijnIndex_all as H. rewrite forallb_forall in H.
  apply Z.eqb_eq, H, list_elem_of_In, elem_of_seqZ. lia.
Qed.

(** X4.  [ls1b] on a non-empty 64-bit board returns the index 0..63 of its
    least significant set bit: that bit is set and no lower one is.  On
    the empty board, which the source rules out, it returns 63. *)
Theorem ls1b_least_set_bit (bb : Z) :
  0 < bb < 2 ^ 64 ->
  0 <= ls1b bb < 64 /\
  getBit bb (ls1b bb) = 1 /\
  (forall j, 0 <= j < ls1b bb -> getBit bb j = 0) /\
  ls1b 0 = 63.
Proof.
  intros Hbb. destruct bb as [|x|x]; try lia.
  destruct (land_opp_isolates x) as (k & Hk & Hland & Hbit & Hlow).
  assert (Hk64 : k < 64).
  { destruct (Z.lt_ge_cases k 64) as [Hlt|Hge]; [exact Hlt|].
    rewrite (bits_above_64 (Zpos x) k) in Hbit by lia. discriminate. }
  assert (Hls : ls1b (Zpos x) = k).
  { unfold ls1b. fold (deBruijnIndex k).
    assert (Hiso : Z.land (Zpos x) (neg64 (Zpos x)) = 2 ^ k).
    { unfold neg64, wrap64. rewrite <- Z.land_ones by lia.
      rewrite Z.land_assoc. change (- Zpos x) with (Zneg x). rewrite Hland.
      rewrite Z.land_ones by lia. apply Z.mod_small.
      split; [apply Z.pow_nonneg; lia | apply Z.pow_lt_mono_r; lia]. }
    rewrite Hiso. apply deBruijnIndex_id. lia. }
  rewrite Hls. split; [lia|]. split; [|split].
  - rewrite getBit_testbit, Hbit by lia. reflexivity.
  - intros j Hj. rewrite getBit_testbit, Hlow by lia. reflexivity.
  - reflexivity.
Qed.

Lemma ls1b_least_set_bit_witness :
  0 <= ls1b 1152921504606846976 < 64 /\
  getBit 1152921504606846976 (ls1b 1152921504606846976) = 1 /\
  (forall j, 0 <= j < ls1b 1152921504606846976 -> getBit 1152921504606846976 j = 0) /\
  ls1b 0 = 63.
Proof. apply (ls1b_least_set_bit 1152921504606846976). lia. Defined.

(** ** The leaper tables and the geometry of the board *)

Lemma squares_forall2 (f : Z -> Z -> bool) :
  forallb (fun s => forallb (f s) squares) squares = true ->
  forall s t, 0 <= s < 64 -> 0 <= t < 64 -> f s t = true.
Proof.
  intros H s t Hs Ht. rewrite forallb_forall in H.
  specialize (H s (in_squares s Hs)). rewrite forallb_forall in H.
  exact (H t (in_squares t Ht)).
Qed.

Lemma memberb_eqb_iff t bb (c : bool) :
  eqb (memberb t bb) c = true -> (member t bb <-> c = true).
Proof. intros H. apply eqb_prop in H. rewrite <- memberb_spec, H. tauto. Qed.

(** X5.  [KnightAttacks[s]] holds exactly the squares a knight's jump away
    from [s]: one rank and two files, or two ranks and one file; nothing
    wraps around the edge of the board. *)
Theorem knight_attacks_geometry (s t : Z) :
  0 <= s < 64 -> 0 <= t < 64 ->
  (member t (KnightAttacks s) <->
   (Z.abs (rankOf t - rankOf s) = 1 /\ Z.abs (fileOf t - fileOf s) = 2) \/
   (Z.abs (rankOf t - rankOf s) = 2 /\ Z.abs (fileOf t - fileOf s) = 1)).
Proof.
  intros Hs Ht.
  assert (Hall : forallb (fun s => forallb (fun t =>
            eqb (memberb t (KnightAttacks s)) (knightJump s t)) squares) squares = true)
    by (vm_compute; reflexivity).
  pose proof (squares_forall2 _ Hall s t Hs Ht) as H. cbv beta in H.
  rewrite (memberb_eqb_iff _ _ _ H). unfold knightJump.
  rewrite orb_true_iff, !andb_true_iff, !Z.eqb_eq. tauto.
Qed.

Lemma knight_attacks_geometry_witness :
  member 45 (KnightAttacks 62) <->
   (Z.abs (rankOf 45 - rankOf 62) = 1 /\ Z.abs (fileOf 45 - fileOf 62) = 2) \/
   (Z.abs (rankOf 45 - rankOf 62) = 2 /\ Z.abs (fileOf 45 - fileOf 62) = 1).
Proof. apply (knight_attacks_geometry 62 45); lia. Defined.

(** X6.  [KingAttacks[s]] holds exactly the squares next to [s]: at most
    one rank and one file away, [s] itself left out. *)
Theorem king_attacks_geometry (s t : Z) :
  0 <= s < 64 -> 0 <= t < 64 ->
  (member t (KingAttacks s) <->
   Z.abs (rankOf t - rankOf s) <= 1 /\ Z.abs (fileOf t - fileOf s) <= 1 /\ t <> s).
Proof.
  intros Hs Ht.
  assert (Hall : forallb (fun s => forallb (fun t =>
            eqb (memberb t (KingAttacks s)) (kingStep s t)) squares) squares = true)
    by (vm_compute; reflexivity).
  pose proof (squares_forall2 _ Hall s t Hs Ht) as H. cbv beta in H.
  rewrite (memberb_eqb_iff _ _ _ H). unfold kingStep.
  rewrite !andb_true_iff, !Z.leb_le, negb_true_iff, Z.eqb_neq. tauto.
Qed.

Lemma king_attacks_geometry_witness :
  member 52 (KingAttacks 60) <->
   Z.abs (rankOf 52 - rankOf 60) <= 1 /\ Z.abs (fileOf 52 - fileOf 60) <= 1 /\ 52 <> 60.
Proof. apply (king_attacks_geometry 60 52); lia. Defined.

(** X7.  [PawnAttacks[c][s]] holds exactly the squares one file to either
    side of [s] on the next rank in the direction of play: the rank with
    the lower index for white, with the higher index for black.  A white
    pawn on the eighth rank and a black pawn on the first attack nothing. *)
Theorem pawn_attacks_geometry (c s t : Z) :
  c = White \/ c = Black -> 0 <= s < 64 -> 0 <= t < 64 ->
  (member t (PawnAttacks c s) <->
   rankOf t = (if c =? White then rankOf s - 1 else rankOf s + 1) /\
   Z.abs (fileOf t - fileOf s) = 1).
Proof.
  intros Hc Hs Ht.
  assert (Hall : forall c', c' = White \/ c' = Black ->
            forallb (fun s => forallb (fun t =>
              eqb (memberb t (PawnAttacks c' s)) (pawnCapture c' s t)) squares) squares = true).
  { intros c' [-> | ->]; vm_compute; reflexivity. }
  pose proof (squares_forall2 _ (Hall c Hc) s t Hs Ht) as H. cbv beta in H.
  rewrite (memberb_eqb_iff _ _ _ H). unfold pawnCapture.
  rewrite andb_true_iff, !Z.eqb_eq. tauto.
Qed.

Lemma pawn_attacks_geometry_witness :
  member 27 (PawnAttacks White 36) <->
   rankOf 27 = (if White =? White then rankOf 36 - 1 else rankOf 36 + 1) /\
   Z.abs (fileOf 27 - fileOf 36) = 1.
Proof. apply (pawn_attacks_geometry White 36 27); [left; reflexivity | lia | lia]. Defined.

(** ** The move encoding *)

Lemma testbit_outside x w i :
  0 <= x < 2 ^ w -> i < 0 \/ w <= i -> Z.testbit x i = false.
Proof.
  intros Hx [Hi | Hi]; [apply Z.testbit_neg_r; lia|].
  destruct (Z.eq_dec x 0) as [->|Hne]; [apply Z.bits_0|].
  apply Z.bits_above_log2; [lia|].
  assert (Z.log2 x < w) by (apply Z.log2_lt_pow2; lia). lia.
Qed.

Lemma encodeMove_bits f t pc pr c d e cs j :
  0 <= j ->
  Z.testbit (encodeMove f t pc pr c d e cs) j =
  Z.testbit f j || (Z.testbit t (j - 6) || (Z.testbit pc (j - 12) ||
    (Z.testbit pr (j - 16) || (Z.testbit c (j - 20) || (Z.testbit d (j - 21) ||
      (Z.testbit e (j - 22) || Z.testbit cs (j - 23))))))).
Proof.
  intros Hj. unfold encodeMove. rewrite !Z.lor_spec, !Z.shiftl_spec by lia.
  reflexivity.
Qed.

(** A field of width [w] at bit [s], shifted down. *)
Lemma field_bits m s w i :
  0 <= s -> 0 <= w -> 0 <= i ->
  Z.testbit (Z.shiftr (Z.land m (Z.shiftl (Z.ones w) s)) s) i =
  Z.testbit m (i + s) && (i <? w).
Proof.
  intros Hs Hw Hi.
  rewrite Z.shiftr_spec, Z.land_spec, Z.shiftl_spec by lia.
  replace (i + s - s) with i by lia.
  rewrite Z.testbit_ones_nonneg by lia. reflexivity.
Qed.

(** A flag at bit [s], left in place. *)
Lemma flag_bits m s i :
  0 <= s -> 0 <= i ->
  Z.testbit (Z.land m (Z.shiftl (Z.ones 1) s)) i = Z.testbit m i && (i =? s).
Proof.
  intros Hs Hi. rewrite Z.land_spec, Z.shiftl_spec by lia.
  rewrite Z.testbit_ones by lia. f_equal.
  destruct (Z.eqb_spec i s) as [->|Hne].
  - replace (s - s) with 0 by lia. reflexivity.
  - destruct (Z.leb_spec 0 (i - s)); destruct (Z.ltb_spec (i - s) 1);
      try reflexivity; lia.
Qed.

Section Encoding.

Variables fromSq toSq piece promo capture double ep castling : Z.
Hypothesis Hfrom : 0 <= fromSq < 2 ^ 6.
Hypothesis Hto : 0 <= toSq < 2 ^ 6.
Hypothesis Hpiece : 0 <= piece < 2 ^ 4.
Hypothesis Hpromo : 0 <= promo < 2 ^ 4.
Hypothesis Hcapture : 0 <= capture < 2 ^ 1.
Hypothesis Hdouble : 0 <= double < 2 ^ 1.
Hypothesis Hep : 0 <= ep < 2 ^ 1.
Hypothesis Hcastling : 0 <= castling < 2 ^ 1.

Let move := encodeMove fromSq toSq piece promo capture double ep castling.

(** Clears the bits of the fields that cannot reach the index at hand. *)
Ltac other_fields :=
  rewrite ?(testbit_outside fromSq 6), ?(testbit_outside toSq 6),
          ?(testbit_outside piece 4), ?(testbit_outside promo 4),
          ?(testbit_outside capture 1), ?(testbit_outside double 1),
          ?(testbit_outside ep 1), ?(testbit_outside castling 1)
    by (assumption || lia);
  rewrite ?orb_false_r, ?orb_false_l, ?andb_true_r, ?andb_false_r.

Lemma decoded_field x s w :
  0 <= s -> 0 <= w -> 0 <= x < 2 ^ w ->
  (forall i, 0 <= i < w -> Z.testbit move (i + s) = Z.testbit x i) ->
  Z.shiftr (Z.land move (Z.shiftl (Z.ones w) s)) s = x.
Proof using Type.
  intros Hs Hw Hx Hbits. apply Z.bits_inj'. intros i Hi.
  rewrite field_bits by lia. destruct (Z.ltb_spec i w) as [Hlt | Hge].
  - rewrite andb_true_r. apply Hbits. lia.
  - rewrite andb_false_r. symmetry. apply (testbit_outside x w); [exact Hx | lia].
Qed.

Lemma decoded_flag x s :
  0 <= s -> 0 <= x < 2 ^ 1 ->
  Z.testbit move s = Z.testbit x 0 ->
  Z.land move (Z.shiftl (Z.ones 1) s) = Z.shiftl x s.
Proof using Type.
  intros Hs Hx Hbit. apply Z.bits_inj'. intros i Hi.
  rewrite flag_bits, Z.shiftl_spec by lia.
  destruct (Z.eqb_spec i s) as [->|Hne].
  - replace (s - s) with 0 by lia. rewrite andb_true_r. exact Hbit.
  - rewrite andb_false_r. symmetry. apply (testbit_outside x 1); [exact Hx | lia].
Qed.

Lemma decode_source : getMoveSource move = fromSq.
Proof using Hfrom Hto Hpiece Hpromo Hcapture Hdouble Hep Hcastling.
  change (getMoveSource move) with (Z.shiftr (Z.land move (Z.shiftl (Z.ones 6) 0)) 0).
  apply decoded_field; try lia. intros i Hi. unfold move.
  rewrite encodeMove_bits by lia. replace (i + 0) with i by lia.
  other_fields. reflexivity.
Qed.

Lemma decode_target : getMoveTarget move = toSq.
Proof using Hfrom Hto Hpiece Hpromo Hcapture Hdouble Hep Hcastling.
  change (getMoveTarget move) with (Z.shiftr (Z.land move (Z.shiftl (Z.ones 6) 6)) 6).
  apply decoded_field; try lia. intros i Hi. unfold move.
  rewrite encodeMove_bits by lia. replace (i + 6 - 6) with i by lia.
  other_fields. reflexivity.
Qed.

Lemma decode_piece : getMovePiece move = piece.
Proof using Hfrom Hto Hpiece Hpromo Hcapture Hdouble Hep Hcastling.
  change (getMovePiece move) with (Z.shiftr (Z.land move (Z.shiftl (Z.ones 4) 12)) 12).
  apply decoded_field; try lia. intros i Hi. unfold move.
  rewrite encodeMove_bits by lia. replace (i + 12 - 12) with i by lia.
  other_fields. reflexivity.
Qed.

Lemma decode_promo : getPromo move = promo.
Proof using Hfrom Hto Hpiece Hpromo Hcapture Hdouble Hep Hcastling.
  change (getPromo move) with (Z.shiftr (Z.land move (Z.shiftl (Z.ones 4) 16)) 16).
  apply decoded_field; try lia. intros i Hi. unfold move.
  rewrite encodeMove_bits by lia. replace (i + 16 - 16) with i by lia.
  other_fields. reflexivity.
Qed.

Lemma decode_capture : getMoveCapture move = Z.shiftl capture 20.
Proof using Hfrom Hto Hpiece Hpromo Hcapture Hdouble Hep Hcastling.
  change (getMoveCapture move) with (Z.land move (Z.shiftl (Z.ones 1) 20)).
  apply decoded_flag; try lia. unfold move.
  rewrite encodeMove_bits by lia. change (20 - 20) with 0.
  other_fields. reflexivity.
Qed.

Lemma decode_double : getDoublePush move = Z.shiftl double 21.
Proof using Hfrom Hto Hpiece Hpromo Hcapture Hdouble Hep Hcastling.
  change (getDoublePush move) with (Z.land move (Z.shiftl (Z.ones 1) 21)).
  apply decoded_flag; try lia. unfold move.
  rewrite encodeMove_bits by lia. change (21 - 21) with 0.
  other_fields. reflexivity.
Qed.

Lemma decode_ep : getEp move = Z.shiftl ep 22.
Proof using Hfrom Hto Hpiece Hpromo Hcapture Hdouble Hep Hcastling.
  change (getEp move) with (Z.land move (Z.shiftl (Z.ones 1) 22)).
  apply decoded_flag; try lia. unfold move.
  rewrite encodeMove_bits by lia. change (22 - 22) with 0.
  other_fields. reflexivity.
Qed.

Lemma decode_castling : getCastle move = Z.shiftl castling 23.
Proof using Hfrom Hto Hpiece Hpromo Hcapture Hdouble Hep Hcastling.
  change (getCastle move) with (Z.land move (Z.shiftl (Z.ones 1) 23)).
  apply decoded_flag; try lia. unfold move.
  rewrite encodeMove_bits by lia. change (23 - 23) with 0.
  other_fields. reflexivity.
Qed.

Lemma encoded_range : 0 <= move < 2 ^ 24.
Proof using Hfrom Hto Hpiece Hpromo Hcapture Hdouble Hep Hcastling.
  assert (Hnn : 0 <= move).
  { unfold move, encodeMove.
    repeat (apply Z.lor_nonneg; split); try apply Z.shiftl_nonneg; lia. }
  split; [exact Hnn|]. apply below_pow2_of_bits; [lia | exact Hnn|].
  intros i Hi. unfold move. rewrite encodeMove_bits by lia.
  other_fields. reflexivity.
Qed.

End Encoding.

(** X8.  Decoding an encoded move gives the fields back: for squares
    0..63, piece and promotion 0..15 and flags 0 or 1, the four field macros
    return the source, the target, the piece and the promotion, each flag
    macro returns its flag in place (bit 20, 21, 22, 23: non-zero exactly
    when the flag is 1), and the encoded move fits in 24 bits. *)
Theorem encodeMove_decode (fromSq toSq piece promo capture double ep castling : Z) :
  0 <= fromSq < 64 -> 0 <= toSq < 64 ->
  0 <= piece < 16 -> 0 <= promo < 16 ->
  0 <= capture <= 1 -> 0 <= double <= 1 -> 0 <= ep <= 1 -> 0 <= castling <= 1 ->
  let move := encodeMove fromSq toSq piece promo capture double ep castling in
  getMoveSource move = fromSq /\
  getMoveTarget move = toSq /\
  getMovePiece move = piece /\
  getPromo move = promo /\
  getMoveCapture move = capture * 0x100000 /\
  getDoublePush move = double * 0x200000 /\
  getEp move = ep * 0x400000 /\
  getCastle move = castling * 0x800000 /\
  0 <= move < 2 ^ 24.
Proof.
  intros Hf Ht Hp Hpr Hc Hd He Hcs move.
  assert (H6 : 2 ^ 6 = 64) by reflexivity.
  assert (H4 : 2 ^ 4 = 16) by reflexivity.
  assert (H1 : 2 ^ 1 = 2) by reflexivity.
  assert (Hf' : 0 <= fromSq < 2 ^ 6) by lia.
  assert (Ht' : 0 <= toSq < 2 ^ 6) by lia.
  assert (Hp' : 0 <= piece < 2 ^ 4) by lia.
  assert (Hpr' : 0 <= promo < 2 ^ 4) by lia.
  assert (Hc' : 0 <= capture < 2 ^ 1) by lia.
  assert (Hd' : 0 <= double < 2 ^ 1) by lia.
  assert (He' : 0 <= ep < 2 ^ 1) by lia.
  assert (Hcs' : 0 <= castling < 2 ^ 1) by lia.
  unfold move.
  rewrite decode_source, decode_target, decode_piece, decode_promo,
          decode_capture, decode_double, decode_ep, decode_castling by assumption.
  rewrite !Z.shiftl_mul_pow2 by lia.
  repeat split; try reflexivity; apply encoded_range; assumption.
Qed.

Lemma encodeMove_decode_witness :
  let move := encodeMove 36 27 0 0 1 0 0 0 in
  getMoveSource move = 36 /\
  getMoveTarget move = 27 /\
  getMovePiece move = 0 /\
  getPromo move = 0 /\
  getMoveCapture move = 1 * 0x100000 /\
  getDoublePush move = 0 * 0x200000 /\
  getEp move = 0 * 0x400000 /\
  getCastle move = 0 * 0x800000 /\
  0 <= move < 2 ^ 24.
Proof. apply (encodeMove_decode 36 27 0 0 1 0 0 0); lia. Defined.

Lemma low_field_range m s w :
  0 <= s -> 0 <= w ->
  0 <= Z.shiftr (Z.land m (Z.shiftl (Z.ones w) s)) s < 2 ^ w.
Proof.
  intros Hs Hw.
  assert (Heq : Z.shiftr (Z.land m (Z.shiftl (Z.ones w) s)) s =
                Z.land (Z.shiftr m s) (Z.ones w)).
  { apply Z.bits_inj'. intros i Hi.
    rewrite field_bits, Z.land_spec, Z.shiftr_spec, Z.testbit_ones_nonneg by lia.
    reflexivity. }
  rewrite Heq, Z.land_ones by lia. apply Z.mod_pos_bound.
  apply Z.pow_pos_nonneg; lia.
Qed.

Lemma decoded_squares (move : Z) :
  0 <= getMoveSource move < 64 /\ 0 <= getMoveTarget move < 64.
Proof.
  pose proof (low_field_range move 0 6 ltac:(lia) ltac:(lia)) as Hs.
  pose proof (low_field_range move 6 6 ltac:(lia) ltac:(lia)) as Ht.
  change (Z.shiftr (Z.land move (Z.shiftl (Z.ones 6) 0)) 0) with (getMoveSource move) in Hs.
  change (Z.shiftr (Z.land move (Z.shiftl (Z.ones 6) 6)) 6) with (getMoveTarget move) in Ht.
  change (2 ^ 6) with 64 in *. split; assumption.
Qed.

(** X9.  Whatever integer is decoded, negative ones included, the source
    and the target are squares 0..63, so the reads of [CastlingRights] in
    [makeMove] stay inside the table; the piece and the promotion are
    0..15, which the twelve bitboards do not all cover. *)
Theorem decoded_fields_in_range (move : Z) :
  0 <= getMoveSource move < 64 /\
  0 <= getMoveTarget move < 64 /\
  0 <= getMovePiece move < 16 /\
  0 <= getPromo move < 16 /\
  (Z.to_nat (getMoveSource move) < length CastlingRights)%nat /\
  (Z.to_nat (getMoveTarget move) < length CastlingRights)%nat /\
  getMovePiece (encodeMove 0 0 15 0 0 0 0 0) = 15.
Proof.
  pose proof (low_field_range move 0 6 ltac:(lia) ltac:(lia)) as Hs.
  pose proof (low_field_range move 6 6 ltac:(lia) ltac:(lia)) as Ht.
  pose proof (low_field_range move 12 4 ltac:(lia) ltac:(lia)) as Hp.
  pose proof (low_field_range move 16 4 ltac:(lia) ltac:(lia)) as Hpr.
  change (Z.shiftr (Z.land move (Z.shiftl (Z.ones 6) 0)) 0) with (getMoveSource move) in Hs.
  change (Z.shiftr (Z.land move (Z.shiftl (Z.ones 6) 6)) 6) with (getMoveTarget move) in Ht.
  change (Z.shiftr (Z.land move (Z.shiftl (Z.ones 4) 12)) 12) with (getMovePiece move) in Hp.
  change (Z.shiftr (Z.land move (Z.shiftl (Z.ones 4) 16)) 16) with (getPromo move) in Hpr.
  change (2 ^ 6) with 64 in *. change (2 ^ 4) with 16 in *.
  change (length CastlingRights) with 64%nat.
  repeat split; try lia.
Qed.

(** ** The move list *)

Lemma listed_addMove (ml : MoveList_t) (m : Z) :
  0 <= count ml -> (Z.to_nat (count ml) < length (moves ml))%nat ->
  listed (addMove ml m) = listed ml ++ [m].
Proof.
  intros Hc Hlen. unfold listed, addMove. cbn [moves count].
  rewrite seqZ_app by lia. rewrite map_app. f_equal.
  - apply map_ext_in. intros i Hi.
    apply list_elem_of_In, elem_of_seqZ in Hi. apply rd_wr_other; lia.
  - change (seqZ (0 + count ml) 1) with [0 + count ml]. cbn [map]. f_equal.
    rewrite Z.add_0_l. apply rd_wr_same. lia.
Qed.

(** X10.  [addMove] appends: after adding the moves of [l] one by one to a
    list with room for them, the moves listed are the old ones followed
    by [l] in order, and the count has grown by the length of [l]. *)
Theorem addMove_appends (l : list Z) : forall (ml : MoveList_t),
  0 <= count ml ->
  count ml + Z.of_nat (length l) <= Z.of_nat (length (moves ml)) ->
  listed (fold_left addMove l ml) = listed ml ++ l /\
  count (fold_left addMove l ml) = count ml + Z.of_nat (length l) /\
  length (moves (fold_left addMove l ml)) = length (moves ml).
Proof.
  induction l as [|m rest IH]; intros ml Hc Hroom.
  - cbn. rewrite app_nil_r. repeat split; lia.
  - cbn [fold_left length] in *.
    destruct (IH (addMove ml m)) as (Hl & Hcnt & Hlen).
    + cbn. lia.
    + cbn [addMove moves count]. rewrite length_wr. cbn [addMove count]. lia.
    + rewrite Hl, Hcnt, Hlen. rewrite listed_addMove by lia.
      rewrite <- app_assoc. cbn [addMove moves count app]. rewrite length_wr.
      repeat split; lia.
Qed.

Lemma addMove_appends_witness :
  listed (fold_left addMove [e2e4; g1f3] (mkMoveList (replicate 256 0) 0)) =
    listed (mkMoveList (replicate 256 0) 0) ++ [e2e4; g1f3] /\
  count (fold_left addMove [e2e4; g1f3] (mkMoveList (replicate 256 0) 0)) =
    count (mkMoveList (replicate 256 0) 0) + Z.of_nat (length [e2e4; g1f3]) /\
  length (moves (fold_left addMove [e2e4; g1f3] (mkMoveList (replicate 256 0) 0))) =
    length (moves (mkMoveList (replicate 256 0) 0)).
Proof.
  apply (addMove_appends [e2e4; g1f3] (mkMoveList (replicate 256 0) 0)).
  - simpl. lia.
  - vm_compute. discriminate.
Defined.

(** ** The attack query *)

Lemma member_testbit t bb : 0 <= t -> (member t bb <-> Z.testbit bb t = true).
Proof.
  intros Ht. unfold member. rewrite getBit_testbit by lia.
  destruct (Z.testbit bb t); cbn; split; congruence.
Qed.

Lemma truthy_land_common a c t :
  0 <= t -> Z.testbit a t = true -> Z.testbit c t = true -> truthy (Z.land a c) = true.
Proof.
  intros Ht Ha Hc. unfold truthy. apply negb_true_iff, Z.eqb_neq. intros H0.
  assert (Hbit : Z.testbit (Z.land a c) t = true) by (rewrite Z.land_spec, Ha, Hc; reflexivity).
  rewrite H0, Z.bits_0 in Hbit. discriminate.
Qed.

(** X11.  [isSquareAttacked] sees every leaper: when a pawn, a knight or
    the king of [side] stands on a square [t] whose attack set holds [sq],
    the query answers true for [sq] and [side], whatever else is on the
    board. *)
Theorem isSquareAttacked_by_leaper (pos : Position) (sq t side : Z) :
  0 <= sq < 64 -> 0 <= t < 64 -> side = White \/ side = Black ->
  (member t (rd (bitboards pos) (pawnOf side)) /\ member sq (PawnAttacks side t)) \/
  (member t (rd (bitboards pos) (knightOf side)) /\ member sq (KnightAttacks t)) \/
  (member t (rd (bitboards pos) (kingOf side)) /\ member sq (KingAttacks t)) ->
  isSquareAttacked sq side pos = true.
Proof.
  intros Hsq Ht Hside Hatt.
  pose proof (symmetricAt_holds t sq Ht Hsq) as Hsym.
  unfold symmetricAt in Hsym. rewrite !andb_true_iff in Hsym.
  destruct Hsym as (((Hw & Hb) & Hn) & Hk).
  apply eqb_member_iff in Hw, Hb, Hn, Hk.
  unfold isSquareAttacked. cbv zeta.
  destruct Hside as [-> | ->];
    unfold pawnOf, knightOf, kingOf in Hatt;
    change (White =? White) with true in *; change (Black =? White) with false in *;
    change (Black =? Black) with true; change (White =? Black) with false;
    cbv iota in *; cbn [andb];
    destruct Hatt as [(Hpc & Hm) | [(Hpc & Hm) | (Hpc & Hm)]];
    apply member_testbit in Hpc; try lia.
  - apply Hw, member_testbit in Hm; [|lia].
    rewrite (truthy_land_common _ _ t); auto; lia.
  - apply Hn, member_testbit in Hm; [|lia].
    destruct (truthy (Z.land (PawnAttacks Black sq) _)); [reflexivity|].
    rewrite (truthy_land_common (KnightAttacks sq) _ t); auto; lia.
  - apply Hk, member_testbit in Hm; [|lia].
    repeat match goal with
           | |- (if truthy (Z.land (KingAttacks sq) _) then true else _) = true =>
               rewrite (truthy_land_common (KingAttacks sq) _ t) by (auto; lia); reflexivity
           | |- (if ?c then true else _) = true => destruct c; [reflexivity|]
           end.
  - apply Hb, member_testbit in Hm; [|lia].
    rewrite (truthy_land_common _ _ t); auto; lia.
  - apply Hn, member_testbit in Hm; [|lia].
    destruct (truthy (Z.land (PawnAttacks White sq) _)); [reflexivity|].
    rewrite (truthy_land_common (KnightAttacks sq) _ t); auto; lia.
  - apply Hk, member_testbit in Hm; [|lia].
    repeat match goal with
           | |- (if truthy (Z.land (KingAttacks sq) _) then true else _) = true =>
               rewrite (truthy_land_common (KingAttacks sq) _ t) by (auto; lia); reflexivity
           | |- (if ?c then true else _) = true => destruct c; [reflexivity|]
           end.
Qed.

Lemma isSquareAttacked_by_leaper_witness :
  isSquareAttacked 52 Black kingAndPawn = true.
Proof.
  apply (isSquareAttacked_by_leaper kingAndPawn 52 43 Black).
  - lia.
  - lia.
  - right. reflexivity.
  - left. split; vm_compute; reflexivity.
Defined.

(** ** The state record and the array sizes under make *)

Lemma movePiece_st pc f t pos : st (movePiece pc f t pos) = st pos.
Proof. reflexivity. Qed.

Lemma promoStep_st pr t pos : st (promoStep pr t pos) = st pos.
Proof. unfold promoStep. destruct (truthy pr); [destruct (_ =? _)|]; reflexivity. Qed.

Lemma epStep_st e t pos : st (epStep e t pos) = st pos.
Proof.
  unfold epStep. cbv zeta.
  destruct (truthy e); [|reflexivity].
  destruct (sideToMove pos =? White) eqn:E; cbn [sideToMove popBB withBitboards];
    rewrite E; reflexivity.
Qed.

Lemma dpushStep_st d t pos : st (dpushStep d t pos) = st pos.
Proof. unfold dpushStep. cbv zeta. destruct (truthy d); [destruct (_ =? _)|]; reflexivity. Qed.

Lemma castlingStep_st c t pos : st (castlingStep c t pos) = st pos.
Proof.
  unfold castlingStep, castleRook. destruct (truthy c); [|reflexivity].
  repeat (destruct (_ =? _); [reflexivity|]). reflexivity.
Qed.

Lemma rightsStep_st f t pos : st (rightsStep f t pos) = st pos.
Proof. reflexivity. Qed.

(** The capture loop writes at most the captured piece of the top record. *)
Lemma captureLoop_st pieces toSq Them pos :
  exists c, st (captureLoop pieces toSq Them pos) =
            match st pos with
            | s :: prev => mkStateInfo c (st_castle s) (st_epsq s) :: prev
            | [] => []
            end.
Proof.
  induction pieces as [|pc rest IH]; cbn [captureLoop].
  - destruct (st pos) as [|s prev]; [exists 0; reflexivity|].
    exists (capturedPiece s). destruct s; reflexivity.
  - destruct (truthy _); [|exact IH].
    cbv zeta. unfold setCaptured. cbn [st popOcc popBB withOccupancies withBitboards].
    destruct (st pos) as [|s prev] eqn:E; exists pc;
      cbn [st withSt popOcc popBB withOccupancies withBitboards]; [exact E | reflexivity].
Qed.

Lemma captureLoop_finds pieces toSq Them pos v :
  In v pieces ->
  getBit (rd (bitboards pos) v) toSq = 1 ->
  (forall pc, In pc pieces -> pc <> v -> getBit (rd (bitboards pos) pc) toSq = 0) ->
  captureLoop pieces toSq Them pos = setCaptured (popOcc (popBB pos v toSq) Them toSq) v.
Proof.
  induction pieces as [|pc rest IH]; intros Hin Hv Hothers; [destruct Hin|].
  cbn [captureLoop]. destruct (Z.eq_dec pc v) as [->|Hne].
  - rewrite Hv. reflexivity.
  - rewrite (Hothers pc) by (auto; left; reflexivity). cbn [truthy Z.eqb negb].
    apply IH; auto.
    + destruct Hin as [He|Hin]; [contradiction | exact Hin].
    + intros pc' Hin' Hne'. apply Hothers; auto. right. exact Hin'.
Qed.

(** The state chain after the mutations of a move: the top record carries
    the new rights and en-passant square, the records below are the old
    ones. *)
Lemma applyMove_st move pos s prev :
  st pos = s :: prev ->
  exists c,
    st (applyMove move pos) =
      mkStateInfo c (castle (applyMove move pos)) (epsq (applyMove move pos)) :: prev /\
    (getMoveCapture move = 0 -> c = capturedPiece s).
Proof.
  intros Hst. unfold applyMove. cbv zeta.
  set (Them := if sideToMove pos =? White then Black else White).
  set (p1 := movePiece _ _ _ pos).
  set (p2 := captureStep _ _ _ p1).
  assert (H2 : exists c, st p2 = mkStateInfo c (st_castle s) (st_epsq s) :: prev /\
                         (getMoveCapture move = 0 -> c = capturedPiece s)).
  { unfold p2, captureStep. destruct (truthy (getMoveCapture move)) eqn:Hc.
    - cbv zeta.
      destruct (captureLoop_st
                  (seqZ (if sideToMove p1 =? White then Piece.p else Piece.P)
                        ((if sideToMove p1 =? White then Piece.k else Piece.K) -
                         (if sideToMove p1 =? White then Piece.p else Piece.P) + 1))
                  (getMoveTarget move) Them p1) as (c & Hc').
      exists c. unfold p1 in Hc'. rewrite movePiece_st, Hst in Hc'. fold p1 in Hc'.
      split; [exact Hc'|]. intros H0. rewrite H0 in Hc. discriminate.
    - exists (capturedPiece s). unfold p1. rewrite movePiece_st, Hst.
      split; [destruct s; reflexivity | reflexivity]. }
  destruct H2 as (c & Hst2 & Hquiet). exists c. split; [|exact Hquiet].
  set (p6 := castlingStep _ _ _).
  assert (H6 : st p6 = mkStateInfo c (st_castle s) (st_epsq s) :: prev).
  { unfold p6. rewrite castlingStep_st, dpushStep_st, epStep_st, promoStep_st.
    exact Hst2. }
  unfold flipSide, bothStep, syncStateInfo.
  cbn [st castle epsq withSide withOccupancies].
  rewrite rightsStep_st, H6.
  cbn [st castle epsq withSt capturedPiece]. reflexivity.
Qed.

Lemma shape_refl x : sameShape x x.
Proof. split; reflexivity. Qed.

Lemma shape_trans x y z : sameShape x y -> sameShape y z -> sameShape x z.
Proof. intros [? ?] [? ?]. split; congruence. Qed.

Lemma shape_if (c : bool) x y z :
  sameShape x z -> sameShape y z -> sameShape (if c then x else y) z.
Proof. destruct c; auto. Qed.

Lemma popBB_shape pos pc sq : sameShape (popBB pos pc sq) pos.
Proof. split; [apply length_wr | reflexivity]. Qed.
Lemma setBB_shape pos pc sq : sameShape (setBB pos pc sq) pos.
Proof. split; [apply length_wr | reflexivity]. Qed.
Lemma popOcc_shape pos sd sq : sameShape (popOcc pos sd sq) pos.
Proof. split; [reflexivity | apply length_wr]. Qed.
Lemma setOcc_shape pos sd sq : sameShape (setOcc pos sd sq) pos.
Proof. split; [reflexivity | apply length_wr]. Qed.
Lemma bothStep_shape pos : sameShape (bothStep pos) pos.
Proof. split; [reflexivity | apply length_wr]. Qed.
Lemma setCaptured_shape pos v : sameShape (setCaptured pos v) pos.
Proof. unfold setCaptured. destruct (st pos); split; reflexivity. Qed.
Lemma syncStateInfo_shape pos : sameShape (syncStateInfo pos) pos.
Proof. unfold syncStateInfo. destruct (st pos); split; reflexivity. Qed.
Lemma flipSide_shape pos : sameShape (flipSide pos) pos.
Proof. split; reflexivity. Qed.
Lemma rightsStep_shape f t pos : sameShape (rightsStep f t pos) pos.
Proof. split; reflexivity. Qed.
Lemma withEpsq_shape pos e : sameShape (withEpsq pos e) pos.
Proof. split; reflexivity. Qed.

Create HintDb shape.
#[local] Hint Resolve shape_refl popBB_shape setBB_shape popOcc_shape setOcc_shape
  bothStep_shape setCaptured_shape syncStateInfo_shape flipSide_shape
  rightsStep_shape withEpsq_shape shape_if : shape.

(** Chains the elementary facts on the array sizes along a composition. *)
Ltac shape :=
  repeat first
    [ apply shape_refl
    | apply shape_if
    | (eapply shape_trans; [solve [eauto with shape]|]) ].

Lemma movePiece_shape pc f t pos : sameShape (movePiece pc f t pos) pos.
Proof. unfold movePiece. shape. Qed.

Lemma captureLoop_shape pieces toSq Them pos :
  sameShape (captureLoop pieces toSq Them pos) pos.
Proof.
  induction pieces as [|pc rest IH]; cbn [captureLoop]; [apply shape_refl|].
  apply shape_if; [|exact IH]. shape.
Qed.

Lemma captureStep_shape c t them pos : sameShape (captureStep c t them pos) pos.
Proof. unfold captureStep. apply shape_if; [apply captureLoop_shape | apply shape_refl]. Qed.

Lemma promoStep_shape pr t pos : sameShape (promoStep pr t pos) pos.
Proof. unfold promoStep. shape. Qed.

Lemma epStep_shape e t pos : sameShape (epStep e t pos) pos.
Proof. unfold epStep. cbv zeta. shape. Qed.

Lemma dpushStep_shape d t pos : sameShape (dpushStep d t pos) pos.
Proof. unfold dpushStep. cbv zeta. shape. Qed.

Lemma castlingStep_shape c t pos : sameShape (castlingStep c t pos) pos.
Proof. unfold castlingStep, castleRook. shape. Qed.

Lemma applyMove_shape move pos : sameShape (applyMove move pos) pos.
Proof.
  unfold applyMove. cbv zeta.
  eapply shape_trans; [apply flipSide_shape|].
  eapply shape_trans; [apply bothStep_shape|].
  eapply shape_trans; [apply syncStateInfo_shape|].
  eapply shape_trans; [apply rightsStep_shape|].
  eapply shape_trans; [apply castlingStep_shape|].
  eapply shape_trans; [apply dpushStep_shape|].
  eapply shape_trans; [apply epStep_shape|].
  eapply shape_trans; [apply promoStep_shape|].
  eapply shape_trans; [apply captureStep_shape|].
  apply movePiece_shape.
Qed.

(** ** Scalars, state record and occupancies after make *)

(** X12.  [makeMove(m, AllMoves)] on a position with a state record always
    flips the side to move and resets the en-passant square: to [NoSq],
    or behind a double push to target + 8 (white) or target - 8 (black);
    this holds for the failing return as for the successful one. *)
Theorem makeMove_side_and_epsq (move : Z) (pos : Position) :
  st pos <> [] ->
  exists res pos',
    makeMove move AllMoves pos = Done (res, pos') /\
    (res = 0 \/ res = 1) /\
    sideToMove pos' = Z.lxor (sideToMove pos) 1 /\
    epsq pos' = (if truthy (getDoublePush move) then
                   if sideToMove pos =? White then getMoveTarget move + 8
                   else getMoveTarget move - 8
                 else NoSq).
Proof.
  intros Hst. do 2 eexists. split; [apply makeMove_AllMoves, Hst|].
  destruct (applyMove_fields move pos) as (Hs & _ & He & _).
  split; [destruct (kingAttacked _); auto|]. split; assumption.
Qed.

Lemma makeMove_side_and_epsq_witness :
  exists res pos',
    makeMove e2e4 AllMoves startpos = Done (res, pos') /\
    (res = 0 \/ res = 1) /\
    sideToMove pos' = Z.lxor (sideToMove startpos) 1 /\
    epsq pos' = (if truthy (getDoublePush e2e4) then
                   if sideToMove startpos =? White then getMoveTarget e2e4 + 8
                   else getMoveTarget e2e4 - 8
                 else NoSq).
Proof. apply (makeMove_side_and_epsq e2e4 startpos). vm_compute. discriminate. Defined.

(** X13.  [makeMove] pushes no state record: it overwrites the top one.
    After the call the top record carries the castling rights and the
    en-passant square of the new position, the records below are the old
    ones, and for a move without the capture flag the captured piece of
    the top record is whatever it was before (it is never reset). *)
Theorem makeMove_state_record (move : Z) (pos : Position) (s : StateInfo)
    (prev : list StateInfo) :
  st pos = s :: prev ->
  exists res pos' c,
    makeMove move AllMoves pos = Done (res, pos') /\
    st pos' = mkStateInfo c (castle pos') (epsq pos') :: prev /\
    (getMoveCapture move = 0 -> c = capturedPiece s).
Proof.
  intros Hst. destruct (applyMove_st move pos s prev Hst) as (c & Hc & Hq).
  exists (if kingAttacked (applyMove move pos) then 0 else 1), (applyMove move pos), c.
  split; [apply makeMove_AllMoves; rewrite Hst; discriminate|]. split; assumption.
Qed.

Lemma makeMove_state_record_witness :
  exists res pos' c,
    makeMove g1f3 AllMoves startpos = Done (res, pos') /\
    st pos' = mkStateInfo c (castle pos') (epsq pos') :: [] /\
    (getMoveCapture g1f3 = 0 -> c = capturedPiece (mkStateInfo NoPiece 15 NoSq)).
Proof.
  apply (makeMove_state_record g1f3 startpos (mkStateInfo NoPiece 15 NoSq) []).
  reflexivity.
Defined.

Lemma other_squares_keep_rights :
  forallb (fun sq => (sq =? a8) || (sq =? e8) || (sq =? h8) || (sq =? a1) ||
                     (sq =? e1) || (sq =? h1) || (rd CastlingRights sq =? 15))
          squares = true.
Proof. vm_compute. reflexivity. Qed.

Lemma land_15 c : 0 <= c < 16 -> Z.land c 15 = c.
Proof.
  intros Hc. change 15 with (Z.ones 4). rewrite Z.land_ones by lia.
  apply Z.mod_small. exact Hc.
Qed.

(** X14.  The bookkeeping of castling rights by squares.  A move from or
    to e1 leaves white without either right (bits 0 and 1 clear), from or
    to h1 without the king-side right (bit 0), from or to a1 without the
    queen-side right (bit 1); e8, h8, a8 do the same for black (bits 2
    and 3).  A move that touches none of the six squares leaves four-bit
    rights as they were. *)
Theorem makeMove_rights_by_square (move : Z) (pos : Position) :
  st pos <> [] ->
  exists res pos',
    makeMove move AllMoves pos = Done (res, pos') /\
    let touches sq := getMoveSource move = sq \/ getMoveTarget move = sq in
    (touches e1 -> Z.testbit (castle pos') 0 = false /\ Z.testbit (castle pos') 1 = false) /\
    (touches h1 -> Z.testbit (castle pos') 0 = false) /\
    (touches a1 -> Z.testbit (castle pos') 1 = false) /\
    (touches e8 -> Z.testbit (castle pos') 2 = false /\ Z.testbit (castle pos') 3 = false) /\
    (touches h8 -> Z.testbit (castle pos') 2 = false) /\
    (touches a8 -> Z.testbit (castle pos') 3 = false) /\
    (0 <= castle pos < 16 ->
     ~ touches e1 -> ~ touches h1 -> ~ touches a1 ->
     ~ touches e8 -> ~ touches h8 -> ~ touches a8 ->
     castle pos' = castle pos).
Proof.
  intros Hst. do 2 eexists. split; [apply makeMove_AllMoves, Hst|].
  destruct (applyMove_fields move pos) as (_ & Hc & _). cbv zeta.
  rewrite Hc.
  assert (Hcl : forall sq b, getMoveSource move = sq \/ getMoveTarget move = sq ->
            Z.testbit (rd CastlingRights sq) b = false ->
            Z.testbit (Z.land (Z.land (castle pos) (rd CastlingRights (getMoveSource move)))
                              (rd CastlingRights (getMoveTarget move))) b = false).
  { intros sq b [<- | <-] Hb; rewrite !Z.land_spec, Hb;
      rewrite ?andb_false_r; reflexivity. }
  split; [intros Ht; split; apply (Hcl _ _ Ht); reflexivity|].
  split; [intros Ht; apply (Hcl _ _ Ht); reflexivity|].
  split; [intros Ht; apply (Hcl _ _ Ht); reflexivity|].
  split; [intros Ht; split; apply (Hcl _ _ Ht); reflexivity|].
  split; [intros Ht; apply (Hcl _ _ Ht); reflexivity|].
  split; [intros Ht; apply (Hcl _ _ Ht); reflexivity|].
  intros Hrange N1 N2 N3 N4 N5 N6.
  pose proof (decoded_squares move) as (Hs & Ht).
  pose proof other_squares_keep_rights as Hall. rewrite forallb_forall in Hall.
  assert (Hkeep : forall sq, 0 <= sq < 64 ->
            sq <> a8 -> sq <> e8 -> sq <> h8 -> sq <> a1 -> sq <> e1 -> sq <> h1 ->
            rd CastlingRights sq = 15).
  { intros sq Hsq M1 M2 M3 M4 M5 M6. specialize (Hall sq (in_squares sq Hsq)).
    rewrite !orb_true_iff, !Z.eqb_eq in Hall. tauto. }
  rewrite !Hkeep by tauto. rewrite !(land_15 (castle pos)) by lia. reflexivity.
Qed.

Lemma makeMove_rights_by_square_witness :
  (exists res pos',
    makeMove black_OO AllMoves castlingBlack = Done (res, pos') /\
    let touches sq := getMoveSource black_OO = sq \/ getMoveTarget black_OO = sq in
    (touches e1 -> Z.testbit (castle pos') 0 = false /\ Z.testbit (castle pos') 1 = false) /\
    (touches h1 -> Z.testbit (castle pos') 0 = false) /\
    (touches a1 -> Z.testbit (castle pos') 1 = false) /\
    (touches e8 -> Z.testbit (castle pos') 2 = false /\ Z.testbit (castle pos') 3 = false) /\
    (touches h8 -> Z.testbit (castle pos') 2 = false) /\
    (touches a8 -> Z.testbit (castle pos') 3 = false) /\
    (0 <= castle castlingBlack < 16 ->
     ~ touches e1 -> ~ touches h1 -> ~ touches a1 ->
     ~ touches e8 -> ~ touches h8 -> ~ touches a8 ->
     castle pos' = castle castlingBlack)) /\
  (exists res pos',
    makeMove g1f3 AllMoves startpos = Done (res, pos') /\
    let touches sq := getMoveSource g1f3 = sq \/ getMoveTarget g1f3 = sq in
    (touches e1 -> Z.testbit (castle pos') 0 = false /\ Z.testbit (castle pos') 1 = false) /\
    (touches h1 -> Z.testbit (castle pos') 0 = false) /\
    (touches a1 -> Z.testbit (castle pos') 1 = false) /\
    (touches e8 -> Z.testbit (castle pos') 2 = false /\ Z.testbit (castle pos') 3 = false) /\
    (touches h8 -> Z.testbit (castle pos') 2 = false) /\
    (touches a8 -> Z.testbit (castle pos') 3 = false) /\
    (0 <= castle startpos < 16 ->
     ~ touches e1 -> ~ touches h1 -> ~ touches a1 ->
     ~ touches e8 -> ~ touches h8 -> ~ touches a8 ->
     castle pos' = castle startpos)).
Proof.
  split.
  - apply (makeMove_rights_by_square black_OO castlingBlack). vm_compute. discriminate.
  - apply (makeMove_rights_by_square g1f3 startpos). vm_compute. discriminate.
Defined.

(** ** The outcomes of unmake *)

Lemma undoBoard_st m pos : st (undoBoard m pos) = st pos.
Proof.
  unfold undoBoard. cbv zeta. cbn [st bothStep withOccupancies].
  destruct (truthy (getPromo m)); [|destruct (truthy (getCastle m))].
  - unfold undoPromotion. cbv zeta.
    repeat (match goal with |- context [if ?c then _ else _] => destruct c end);
      reflexivity.
  - unfold undoCastling. cbv zeta.
    repeat (match goal with |- context [if ?c then _ else _] => destruct c end);
      reflexivity.
  - rewrite undoOther_st. reflexivity.
Qed.

(** [undoMove] by the length of the state chain. *)
Lemma undoMove_eq m pos :
  undoMove m pos =
  match st pos with
  | [] => AssertionFailed
  | [_] => NullDereference
  | _ :: s :: prev => Done (withCastle (withSt (undoBoard m pos) (s :: prev)) (st_castle s))
  end.
Proof.
  pose proof (undoBoard_st m pos) as Hst.
  unfold undoMove. destruct (st pos) as [|s0 [|s1 prev]] eqn:E; [reflexivity| |];
    cbv zeta; fold (undoBoard m pos); cbn [st withSt]; rewrite Hst; reflexivity.
Qed.

(** X15.  The three outcomes of [undoMove], by the state chain alone: a
    failed assertion exactly on the empty chain ([st] null), the
    dereference of a null [previous] pointer exactly on a chain of one
    record, and a normal return exactly on a chain of two records or
    more, whatever the move and the board. *)
Theorem undoMove_outcomes (m : Z) (pos : Position) :
  (undoMove m pos = AssertionFailed <-> st pos = []) /\
  (undoMove m pos = NullDereference <-> length (st pos) = 1%nat) /\
  ((exists pos', undoMove m pos = Done pos') <-> (2 <= length (st pos))%nat).
Proof.
  rewrite undoMove_eq. destruct (st pos) as [|s0 [|s1 prev]]; cbn [length].
  - repeat split; try discriminate; try lia; auto.
    intros [pos' H]. discriminate.
  - repeat split; try discriminate; try lia; auto.
    intros [pos' H]. discriminate.
  - repeat split; try discriminate; try lia; eauto.
Qed.

(** ** [occupancies[Both]] *)

Lemma rd_both_after (pos : Position) :
  length (occupancies pos) = 3%nat ->
  rd (occupancies (bothStep pos)) Both =
    Z.lor (rd (occupancies (bothStep pos)) White) (rd (occupancies (bothStep pos)) Black).
Proof.
  intros Hlen. unfold bothStep. cbn [occupancies withOccupancies].
  rewrite rd_wr_same by (unfold Both; lia).
  rewrite !rd_wr_other by (unfold Both, White, Black; lia). reflexivity.
Qed.

Lemma moveBack_shape pc sd f t pos : sameShape (moveBack pc sd f t pos) pos.
Proof. unfold moveBack. shape. Qed.

Lemma undoPromotion_shape pr f t pos : sameShape (undoPromotion pr f t pos) pos.
Proof. unfold undoPromotion. cbv zeta. shape. Qed.

Lemma undoCastling_shape f t pos : sameShape (undoCastling f t pos) pos.
Proof. unfold undoCastling. cbv zeta. shape. Qed.

Lemma restoreCaptured_shape m t pos : sameShape (restoreCaptured m t pos) pos.
Proof. unfold restoreCaptured. destruct (st pos); shape. Qed.

Lemma undoOther_shape m pc f t pos : sameShape (undoOther m pc f t pos) pos.
Proof.
  unfold undoOther. cbv zeta.
  eapply shape_trans; [apply restoreCaptured_shape|].
  repeat apply shape_if; auto using moveBack_shape, shape_refl.
Qed.

Lemma applyMove_before_both move pos :
  exists x, applyMove move pos = flipSide (bothStep x) /\ sameShape x pos.
Proof.
  unfold applyMove. cbv zeta. eexists. split; [reflexivity|].
  eapply shape_trans; [apply syncStateInfo_shape|].
  eapply shape_trans; [apply rightsStep_shape|].
  eapply shape_trans; [apply castlingStep_shape|].
  eapply shape_trans; [apply dpushStep_shape|].
  eapply shape_trans; [apply epStep_shape|].
  eapply shape_trans; [apply promoStep_shape|].
  eapply shape_trans; [apply captureStep_shape|].
  apply movePiece_shape.
Qed.

(** X16.  With the three-entry occupancy array, [occupancies[Both]] is
    the OR of [occupancies[White]] and [occupancies[Black]] after every
    [makeMove(m, AllMoves)], failing or not, whatever the occupancies
    were before and whatever the move did to the two sides. *)
Theorem makeMove_both_occupancy (m : Z) (pos : Position) :
  length (occupancies pos) = 3%nat ->
  st pos <> [] ->
  exists res pos',
    makeMove m AllMoves pos = Done (res, pos') /\
    rd (occupancies pos') Both =
      Z.lor (rd (occupancies pos') White) (rd (occupancies pos') Black).
Proof.
  intros Hlen Hst. do 2 eexists. split; [apply makeMove_AllMoves, Hst|].
  destruct (applyMove_before_both m pos) as (x & -> & [_ Hx]).
  cbn [occupancies flipSide withSide]. apply rd_both_after. congruence.
Qed.

Lemma makeMove_both_occupancy_witness :
  exists res pos',
    makeMove e4xd5 AllMoves afterE4D5 = Done (res, pos') /\
    rd (occupancies pos') Both =
      Z.lor (rd (occupancies pos') White) (rd (occupancies pos') Black).
Proof.
  apply (makeMove_both_occupancy e4xd5 afterE4D5); [reflexivity|].
  vm_compute. discriminate.
Defined.

(** X17.  With the three-entry occupancy array, [occupancies[Both]] is
    the OR of [occupancies[White]] and [occupancies[Black]] after every
    [undoMove] on a chain of two records or more, also where the undo
    leaves the two sides themselves wrong. *)
Theorem undoMove_both_occupancy (m : Z) (pos : Position) :
  length (occupancies pos) = 3%nat ->
  (2 <= length (st pos))%nat ->
  exists pos',
    undoMove m pos = Done pos' /\
    rd (occupancies pos') Both =
      Z.lor (rd (occupancies pos') White) (rd (occupancies pos') Black).
Proof.
  intros Hlen Hst. rewrite undoMove_eq.
  destruct (st pos) as [|s0 [|s1 prev]]; cbn [length] in Hst; try lia.
  eexists. split; [reflexivity|].
  cbn [occupancies withCastle withSt]. unfold undoBoard. cbv zeta.
  apply rd_both_after.
  assert (Hshape : forall x, sameShape x (flipSide pos) ->
                   length (occupancies x) = 3%nat).
  { intros x [_ Hx]. rewrite Hx. exact Hlen. }
  apply Hshape.
  destruct (truthy (getPromo m)); [|destruct (truthy (getCastle m))].
  - apply undoPromotion_shape.
  - apply undoCastling_shape.
  - apply undoOther_shape.
Qed.

Lemma undoMove_both_occupancy_witness :
  exists pos',
    undoMove e4xd5 (applyMove e4xd5 (pushState afterE4D5)) = Done pos' /\
    rd (occupancies pos') Both =
      Z.lor (rd (occupancies pos') White) (rd (occupancies pos') Black).
Proof.
  apply (undoMove_both_occupancy e4xd5 (applyMove e4xd5 (pushState afterE4D5)));
    [reflexivity|].
  vm_compute. lia.
Defined.

(** ** Captures *)

Lemma applyMove_st_after_capture move pos c a e prev :
  st (captureStep (getMoveCapture move) (getMoveTarget move)
        (if sideToMove pos =? White then Black else White)
        (movePiece (getMovePiece move) (getMoveSource move) (getMoveTarget move) pos)) =
    mkStateInfo c a e :: prev ->
  st (applyMove move pos) =
    mkStateInfo c (castle (applyMove move pos)) (epsq (applyMove move pos)) :: prev.
Proof.
  intros H2. unfold applyMove. cbv zeta.
  set (p6 := castlingStep _ _ _).
  assert (H6 : st p6 = mkStateInfo c a e :: prev).
  { unfold p6. rewrite castlingStep_st, dpushStep_st, epStep_st, promoStep_st.
    exact H2. }
  unfold flipSide, bothStep, syncStateInfo.
  cbn [st castle epsq withSide withOccupancies].
  rewrite rightsStep_st, H6.
  cbn [st castle epsq withSt capturedPiece]. reflexivity.
Qed.

Lemma setCaptured_boards pos v :
  bitboards (setCaptured pos v) = bitboards pos /\
  occupancies (setCaptured pos v) = occupancies pos.
Proof. unfold setCaptured. destruct (st pos); split; reflexivity. Qed.

(** X18.  A plain capture (capture flag set; no promotion, en-passant or
    castling flag) by a piece of the side to move, onto a square that
    holds exactly the opponent piece [v]: [makeMove] records [v] as the
    captured piece of the top state record, clears the target square in
    [bitboards[v]] and in the opponent's occupancy, and leaves every other
    opponent bitboard as it was. *)
Theorem makeMove_capture_records (move v : Z) (pos : Position) (s : StateInfo)
    (prev : list StateInfo) :
  st pos = s :: prev ->
  sideToMove pos = White \/ sideToMove pos = Black ->
  length (bitboards pos) = 12%nat ->
  length (occupancies pos) = 3%nat ->
  getMoveCapture move <> 0 ->
  getPromo move = 0 -> getEp move = 0 -> getCastle move = 0 ->
  pieceOf (sideToMove pos) (getMovePiece move) ->
  pieceOf (other (sideToMove pos)) v ->
  holds pos (getMoveTarget move) v ->
  exists res pos' a e,
    makeMove move AllMoves pos = Done (res, pos') /\
    st pos' = mkStateInfo v a e :: prev /\
    rd (bitboards pos') v = popBit (rd (bitboards pos) v) (getMoveTarget move) /\
    rd (occupancies pos') (other (sideToMove pos)) =
      popBit (rd (occupancies pos) (other (sideToMove pos))) (getMoveTarget move) /\
    (forall pc, pieceOf (other (sideToMove pos)) pc -> pc <> v ->
       rd (bitboards pos') pc = rd (bitboards pos) pc).
Proof.
  intros Hst Hside Hlen Hlen3 Hcap Hpromo Hep Hcastle Hpiece Hv (Hbit & Hrest).
  set (us := sideToMove pos) in *.
  assert (Hthem : other us = White \/ other us = Black).
  { destruct Hside as [-> | ->]; [right | left]; reflexivity. }
  assert (Htc : truthy (getMoveCapture move) = true).
  { unfold truthy. apply negb_true_iff, Z.eqb_neq, Hcap. }
  set (p1 := movePiece (getMovePiece move) (getMoveSource move) (getMoveTarget move) pos).
  assert (S1 : sideToMove p1 = us) by apply movePiece_scalars.
  (* the opponent's bitboards and occupancy after the mover's piece has moved *)
  assert (F1 : forall pc, pieceOf (other us) pc ->
                 rd (bitboards p1) pc = rd (bitboards pos) pc).
  { intros pc Hpc. unfold p1, movePiece. cbv zeta.
    cbn [bitboards popBB setBB popOcc setOcc withBitboards withOccupancies].
    rewrite !rd_wr_other; auto;
      clear - Hside Hpiece Hpc; by_side Hside; lia. }
  assert (O1 : rd (occupancies p1) (other us) = rd (occupancies pos) (other us)).
  { unfold p1, movePiece. cbv zeta.
    cbn [occupancies sideToMove popBB setBB popOcc setOcc withBitboards withOccupancies].
    fold us. rewrite !rd_wr_other; auto; clear - Hside; by_side Hside; lia. }
  assert (L1 : length (bitboards p1) = 12%nat /\ length (occupancies p1) = 3%nat).
  { destruct (movePiece_shape (getMovePiece move) (getMoveSource move)
                (getMoveTarget move) pos) as [Hl Hl']. fold p1 in Hl, Hl'.
    split; congruence. }
  destruct L1 as [L1 L1'].
  (* the capture step *)
  set (p2 := captureStep (getMoveCapture move) (getMoveTarget move) (other us) p1).
  assert (E2 : p2 = setCaptured (popOcc (popBB p1 v (getMoveTarget move)) (other us)
                                    (getMoveTarget move)) v).
  { unfold p2, captureStep. rewrite Htc. cbv zeta. rewrite S1.
    apply captureLoop_finds.
    - apply list_elem_of_In, elem_of_seqZ. clear - Hside Hv. by_side Hside; lia.
    - rewrite F1 by exact Hv. exact Hbit.
    - intros pc Hin Hne. apply list_elem_of_In, elem_of_seqZ in Hin.
      assert (Hpc : pieceOf (other us) pc) by (clear - Hside Hin; by_side Hside; lia).
      rewrite F1 by exact Hpc. apply Hrest; [|exact Hne].
      clear - Hside Hpc. by_side Hside; lia. }
  assert (St2 : st p2 = mkStateInfo v (st_castle s) (st_epsq s) :: prev).
  { rewrite E2. unfold setCaptured.
    cbn [st popOcc popBB withOccupancies withBitboards].
    unfold p1. rewrite movePiece_st, Hst. reflexivity. }
  assert (Hv0 : 0 <= v < 12) by (clear - Hside Hv; by_side Hside; lia).
  destruct (setCaptured_boards (popOcc (popBB p1 v (getMoveTarget move)) (other us)
                                  (getMoveTarget move)) v) as [Eb Eo].
  rewrite <- E2 in Eb, Eo.
  cbn [bitboards occupancies popOcc popBB withOccupancies withBitboards] in Eb, Eo.
  assert (B2 : rd (bitboards p2) v = popBit (rd (bitboards pos) v) (getMoveTarget move)).
  { rewrite Eb, rd_wr_same by lia. rewrite F1 by exact Hv. reflexivity. }
  assert (B2' : forall pc, pieceOf (other us) pc -> pc <> v ->
                  rd (bitboards p2) pc = rd (bitboards pos) pc).
  { intros pc Hpc Hne.
    assert (0 <= pc) by (clear - Hside Hpc; by_side Hside; lia).
    rewrite Eb, rd_wr_other by lia. apply F1, Hpc. }
  assert (O2 : rd (occupancies p2) (other us) =
               popBit (rd (occupancies pos) (other us)) (getMoveTarget move)).
  { rewrite Eo, rd_wr_same by (clear - Hthem L1'; by_side Hthem; lia).
    rewrite O1. reflexivity. }
  (* what follows leaves the opponent alone *)
  exists (if kingAttacked (applyMove move pos) then 0 else 1), (applyMove move pos).
  exists (castle (applyMove move pos)), (epsq (applyMove move pos)).
  split; [apply makeMove_AllMoves; rewrite Hst; discriminate|].
  split.
  { apply (applyMove_st_after_capture move pos v (st_castle s) (st_epsq s) prev).
    fold us. change (if us =? White then Black else White) with (other us).
    fold p1. fold p2. exact St2. }
  unfold applyMove. cbv zeta. fold us.
  change (if us =? White then Black else White) with (other us). fold p1. fold p2.
  rewrite Hpromo, Hep, Hcastle.
  unfold promoStep, epStep. change (truthy 0) with false. cbv iota.
  destruct (after_ep_frame (other us) (getDoublePush move) (getMoveSource move)
              (getMoveTarget move) p2 Hthem) as (_ & _ & Hp3 & Hq3).
  split; [rewrite Hp3 by exact Hv; exact B2|].
  split; [rewrite Hq3; exact O2|].
  intros pc Hpc Hne. rewrite Hp3 by exact Hpc. apply B2'; assumption.
Qed.

Lemma makeMove_capture_records_witness :
  exists res pos' a e,
    makeMove e4xd5 AllMoves afterE4D5 = Done (res, pos') /\
    st pos' = mkStateInfo Piece.p a e :: [] /\
    rd (bitboards pos') Piece.p = popBit (rd (bitboards afterE4D5) Piece.p) 27.
Proof.
  destruct (makeMove_capture_records e4xd5 Piece.p afterE4D5 (mkStateInfo NoPiece 15 19) [])
    as (res & pos' & a & e & Hmade & Hst & Hbb & _).
  - reflexivity.
  - left. reflexivity.
  - reflexivity.
  - reflexivity.
  - vm_compute. discriminate.
  - reflexivity.
  - reflexivity.
  - reflexivity.
  - vm_compute. split; [discriminate | reflexivity].
  - vm_compute. split; [discriminate | reflexivity].
  - apply holds_by_cases; vm_compute; reflexivity.
  - exists res, pos', a, e. split; [exact Hmade|]. split; [exact Hst | exact Hbb].
Defined.

(** ** The round trip of a quiet move *)

Lemma popBit_testbit_all bb s i :
  0 <= s < 64 -> 0 <= i ->
  Z.testbit (popBit bb s) i = Z.testbit bb i && negb (i =? s) && (i <? 64).
Proof.
  intros Hs Hi. destruct (Z.ltb_spec i 64) as [Hlt | Hge].
  - rewrite popBit_testbit, andb_true_r by lia. reflexivity.
  - rewrite andb_false_r. unfold popBit, clearBit. rewrite Z.land_spec.
    rewrite (bits_above_64 (not64 (shl64 1 s)) i); [apply andb_false_r | | lia].
    unfold not64, wrap64. apply Z.mod_pos_bound. reflexivity.
Qed.

(** Moving a piece from [f] to [t] and back gives the bitboard back. *)
Lemma move_and_back bb f t :
  0 <= bb < 2 ^ 64 -> 0 <= f < 64 -> 0 <= t < 64 ->
  getBit bb f = 1 -> getBit bb t = 0 ->
  setBit (popBit (setBit (popBit bb f) t) t) f = bb.
Proof.
  intros Hbb Hf Ht Hbf Hbt.
  rewrite getBit_testbit in Hbf, Hbt by lia.
  destruct (Z.testbit bb f) eqn:Ef; [|discriminate].
  destruct (Z.testbit bb t) eqn:Et; [discriminate|].
  apply Z.bits_inj'. intros i Hi.
  rewrite setBit_testbit, popBit_testbit_all, setBit_testbit, popBit_testbit_all by lia.
  destruct (Z.eqb_spec i f) as [->|Hnf]; [rewrite Ef; apply orb_true_r|].
  destruct (Z.eqb_spec i t) as [->|Hnt].
  - rewrite Et. reflexivity.
  - destruct (Z.ltb_spec i 64) as [Hlt|Hge].
    + cbn. rewrite !orb_false_r, !andb_true_r. reflexivity.
    + rewrite (bits_above_64 bb i Hbb Hge). reflexivity.
Qed.

Lemma list_rd_ext (l1 l2 : list Z) :
  length l1 = length l2 ->
  (forall i, 0 <= i < Z.of_nat (length l1) -> rd l1 i = rd l2 i) ->
  l1 = l2.
Proof.
  intros Hlen Hrd. apply (list_eq_same_length _ _ (length l1)); auto.
  intros i x y Hi Hx Hy.
  specialize (Hrd (Z.of_nat i) ltac:(lia)). unfold rd in Hrd.
  rewrite Nat2Z.id in Hrd.
  rewrite (list_lookup_total_correct _ _ _ Hx), (list_lookup_total_correct _ _ _ Hy) in Hrd.
  exact Hrd.
Qed.

(** The mutations of a move without any flag or promotion. *)
Lemma applyMove_quiet move pos :
  getMoveCapture move = 0 -> getPromo move = 0 -> getDoublePush move = 0 ->
  getEp move = 0 -> getCastle move = 0 ->
  applyMove move pos =
  flipSide (bothStep (syncStateInfo (rightsStep (getMoveSource move) (getMoveTarget move)
    (withEpsq (movePiece (getMovePiece move) (getMoveSource move) (getMoveTarget move) pos)
              NoSq)))).
Proof.
  intros Hc Hp Hd He Hcs. unfold applyMove. cbv zeta.
  rewrite Hc, Hp, Hd, He, Hcs.
  unfold captureStep, promoStep, epStep, dpushStep, castlingStep.
  change (truthy 0) with false. cbv iota zeta. reflexivity.
Qed.

(** X19.  Make then unmake of a quiet move is the identity on the board.
    Take a position whose state chain has a record below the top that
    holds the position's castling rights (the caller pushed a copy), with
    no en-passant square pending and no captured piece in the top record;
    take a move without capture, promotion, double-push, en-passant or
    castling flag, of a piece of the side to move that stands on the
    source square, to a square empty of that side.  Then [makeMove]
    followed by [undoMove] returns the position it started from, with the
    pushed record popped. *)
Theorem make_undo_quiet_round_trip (move : Z) (pos : Position)
    (top below : StateInfo) (rest : list StateInfo) :
  st pos = top :: below :: rest ->
  length (bitboards pos) = 12%nat ->
  length (occupancies pos) = 3%nat ->
  sideToMove pos = White \/ sideToMove pos = Black ->
  pieceOf (sideToMove pos) (getMovePiece move) ->
  getMoveCapture move = 0 -> getPromo move = 0 -> getDoublePush move = 0 ->
  getEp move = 0 -> getCastle move = 0 ->
  epsq pos = NoSq ->
  st_castle below = castle pos ->
  capturedPiece top < Piece.P \/ Piece.k < capturedPiece top ->
  0 <= rd (bitboards pos) (getMovePiece move) < 2 ^ 64 ->
  0 <= rd (occupancies pos) (sideToMove pos) < 2 ^ 64 ->
  getBit (rd (bitboards pos) (getMovePiece move)) (getMoveSource move) = 1 ->
  getBit (rd (bitboards pos) (getMovePiece move)) (getMoveTarget move) = 0 ->
  getBit (rd (occupancies pos) (sideToMove pos)) (getMoveSource move) = 1 ->
  getBit (rd (occupancies pos) (sideToMove pos)) (getMoveTarget move) = 0 ->
  rd (occupancies pos) Both =
    Z.lor (rd (occupancies pos) White) (rd (occupancies pos) Black) ->
  exists res made,
    makeMove move AllMoves pos = Done (res, made) /\
    undoMove move made = Done (withSt pos (below :: rest)).
Proof.
  intros Hst Hlb Hlo Hside Hpiece Hc Hp Hd He Hcs Hepsq Hcastle Hcap
         Rb Ro Bf Bt Of Ot Hboth.
  pose proof (decoded_squares move) as (Hf & Ht).
  set (f := getMoveSource move) in *. set (t := getMoveTarget move) in *.
  set (pc := getMovePiece move) in *. set (us := sideToMove pos) in *.
  exists (if kingAttacked (applyMove move pos) then 0 else 1), (applyMove move pos).
  split; [apply makeMove_AllMoves; rewrite Hst; discriminate|].
  destruct (applyMove_st move pos top (below :: rest) Hst) as (c & Hstm & Hcq).
  specialize (Hcq Hc). subst c.
  rewrite undoMove_eq, Hstm. f_equal.
  (* the board rebuilt by the undo *)
  unfold undoBoard. cbv zeta. rewrite Hp, Hcs. change (truthy 0) with false. cbv iota.
  unfold undoOther. cbv zeta.
  assert (Hrc : forall x, st x = st (applyMove move pos) -> restoreCaptured move t x = x).
  { intros x Hx. unfold restoreCaptured. rewrite Hx, Hstm. cbn [capturedPiece].
    replace ((Piece.P <=? capturedPiece top) && (capturedPiece top <=? Piece.k))
      with false; [reflexivity|].
    symmetry. apply andb_false_iff.
    destruct Hcap; [left; apply Z.leb_gt | right; apply Z.leb_gt]; assumption. }
  rewrite Hrc by (repeat (match goal with |- context [if ?b then _ else _] => destruct b end);
                  reflexivity).
  rewrite (applyMove_quiet move pos Hc Hp Hd He Hcs). fold f t pc.
  assert (Hmb : (if (Piece.P <=? pc) && (pc <=? Piece.K)
                 then moveBack pc White f t
                 else if (Piece.p <=? pc) && (pc <=? Piece.k)
                      then moveBack pc Black f t else fun x => x) =
                moveBack pc us f t).
  { clear - Hside Hpiece. by_side Hside.
    - replace ((0 <=? pc) && (pc <=? 5)) with true; [reflexivity|].
      symmetry. apply andb_true_iff. split; apply Z.leb_le; lia.
    - replace ((0 <=? pc) && (pc <=? 5)) with false
        by (symmetry; apply andb_false_iff; right; apply Z.leb_gt; lia).
      replace ((6 <=? pc) && (pc <=? 11)) with true; [reflexivity|].
      symmetry. apply andb_true_iff. split; apply Z.leb_le; lia. }
  match goal with
  | |- context [if ?a then moveBack pc White f t ?x
                else if ?b then moveBack pc Black f t ?x else ?x] =>
      replace (if a then moveBack pc White f t x
               else if b then moveBack pc Black f t x else x)
        with (moveBack pc us f t x)
        by (rewrite <- Hmb; destruct a; [reflexivity | destruct b; reflexivity])
  end.
  (* field by field *)
  unfold withSt, withCastle, bothStep, moveBack, flipSide, syncStateInfo,
         rightsStep, movePiece.
  cbv zeta.
  cbn [st bitboards occupancies sideToMove epsq castle withSide withOccupancies
       withBitboards withCastle withEpsq withSt popBB setBB popOcc setOcc].
  rewrite Hst.
  cbn [st bitboards occupancies sideToMove epsq castle withSide withOccupancies
       withBitboards withCastle withEpsq withSt popBB setBB popOcc setOcc].
  fold us.
  assert (Hpc0 : 0 <= pc < 12) by (clear - Hside Hpiece; by_side Hside; lia).
  assert (Hus : us = 0 \/ us = 1) by (clear - Hside; destruct Hside; auto).
  f_equal.
  - (* bitboards *)
    apply list_rd_ext; [rewrite !length_wr; reflexivity|].
    intros i Hi. rewrite !length_wr in Hi.
    destruct (Z.eq_dec i pc) as [->|Hne].
    + rewrite !rd_wr_same by (rewrite ?length_wr; lia).
      apply move_and_back; assumption.
    + rewrite !rd_wr_other by lia. reflexivity.
  - (* occupancies *)
    apply list_rd_ext; [rewrite !length_wr; reflexivity|].
    intros i Hi. rewrite !length_wr in Hi.
    assert (Hmv : setBit (popBit (setBit (popBit (rd (occupancies pos) us) f) t) t) f =
                  rd (occupancies pos) us) by (apply move_and_back; assumption).
    unfold White, Black, Both in *. clearbody us.
    assert (Hi3 : i = 0 \/ i = 1 \/ i = 2) by lia.
    destruct Hus as [-> | ->]; destruct Hi3 as [-> | [-> | ->]];
      repeat first [ rewrite rd_wr_same by (rewrite ?length_wr; lia)
                   | rewrite rd_wr_other by lia ];
      rewrite ?Hmv, ?Hboth; reflexivity.
  - (* side to move *)
    rewrite Z.lxor_assoc. change (Z.lxor 1 1) with 0. apply Z.lxor_0_r.
  - (* en-passant square *)
    symmetry. exact Hepsq.
  - (* castling rights *)
    exact Hcastle.
Qed.


Lemma make_undo_quiet_round_trip_witness :
  exists res made,
    makeMove g1f3 AllMoves (pushState startpos) = Done (res, made) /\
    undoMove g1f3 made = Done (withSt (pushState startpos) [mkStateInfo NoPiece 15 NoSq]).
Proof.
  apply (make_undo_quiet_round_trip g1f3 (pushState startpos)
           (mkStateInfo NoPiece 15 NoSq) (mkStateInfo NoPiece 15 NoSq) []).
  - reflexivity.
  - reflexivity.
  - reflexivity.
  - left. reflexivity.
  - vm_compute. split; [discriminate | reflexivity].
  - reflexivity.
  - reflexivity.
  - reflexivity.
  - reflexivity.
  - reflexivity.
  - reflexivity.
  - reflexivity.
  - right. vm_compute. reflexivity.
  - vm_compute. split; [discriminate | reflexivity].
  - vm_compute. split; [discriminate | reflexivity].
  - vm_compute. reflexivity.
  - vm_compute. reflexivity.
  - vm_compute. reflexivity.
  - vm_compute. reflexivity.
  - vm_compute. reflexivity.
Defined.

(** ** More on the scores of moves *)

(** X20.  The PV score is given once.  With PV scoring on, the PV move of
    the ply scores 20000 and the call turns PV scoring off; from then on
    every call, on the PV move too, gives the plain score and leaves the
    search state alone.  No call changes anything but the PV-scoring flag,
    and none turns it on. *)
Theorem scoreMove_pv_once (m m' : Z) (pos : Position) (ss : SearchState) :
  scorePV ss = true ->
  rd2 (pv_table ss) 0 (ply ss) = m ->
  scoreMove m pos ss = (20000, withScorePV ss false) /\
  scoreMove m' pos (withScorePV ss false) = (plainScore m' pos ss, withScorePV ss false) /\
  (snd (scoreMove m' pos ss) = ss \/ snd (scoreMove m' pos ss) = withScorePV ss false).
Proof.
  intros Hon Hpv. split; [|split].
  - apply scoreMove_pv. rewrite Hon, Hpv, Z.eqb_refl. reflexivity.
  - rewrite scoreMove_plain by reflexivity. rewrite plainScore_consumed. reflexivity.
  - destruct (scorePV ss && (rd2 (pv_table ss) 0 (ply ss) =? m')) eqn:E.
    + right. rewrite (scoreMove_pv _ _ _ E). reflexivity.
    + left. rewrite (scoreMove_plain _ _ _ E). reflexivity.
Qed.

Lemma scoreMove_pv_once_witness :
  scoreMove Ng1h3 orderingPos orderingState = (20000, withScorePV orderingState false) /\
  scoreMove Ng1h3 orderingPos (withScorePV orderingState false) =
    (plainScore Ng1h3 orderingPos orderingState, withScorePV orderingState false) /\
  (snd (scoreMove Ng1h3 orderingPos orderingState) = orderingState \/
   snd (scoreMove Ng1h3 orderingPos orderingState) = withScorePV orderingState false).
Proof.
  apply (scoreMove_pv_once Ng1h3 Ng1h3 orderingPos orderingState).
  - reflexivity.
  - vm_compute. reflexivity.
Defined.

Lemma victimLoop_range pieces toSq bbs dflt :
  (forall pc, In pc pieces -> 0 <= pc < 12) -> 0 <= dflt < 12 ->
  0 <= victimLoop pieces toSq bbs dflt < 12.
Proof.
  induction pieces as [|pc rest IH]; intros Hin Hd; cbn [victimLoop]; [exact Hd|].
  destruct (truthy _).
  - apply Hin. left. reflexivity.
  - apply IH; auto. intros pc' H. apply Hin. right. exact H.
Qed.

Lemma victimLoop_none pieces toSq bbs dflt :
  (forall pc, In pc pieces -> getBit (rd bbs pc) toSq = 0) ->
  victimLoop pieces toSq bbs dflt = dflt.
Proof.
  induction pieces as [|pc rest IH]; intros H; cbn [victimLoop]; [reflexivity|].
  rewrite (H pc) by (left; reflexivity). cbn. apply IH.
  intros pc' Hin. apply H. right. exact Hin.
Qed.

Lemma mvv_lva_all :
  forallb (fun a => forallb (fun v =>
     rd2 mvv_lva a v =? 100 * (v mod 6) + 105 - a mod 6) (seqZ 0 12)) (seqZ 0 12) = true.
Proof. vm_compute. reflexivity. Qed.

Lemma mvv_lva_entry (x y : Z) :
  0 <= x < 12 -> 0 <= y < 12 ->
  rd2 mvv_lva x y = 100 * (y mod 6) + 105 - x mod 6.
Proof.
  intros Hx Hy. pose proof mvv_lva_all as H. rewrite forallb_forall in H.
  specialize (H x). rewrite <- list_elem_of_In, elem_of_seqZ in H.
  specialize (H ltac:(lia)). rewrite forallb_forall in H.
  specialize (H y). rewrite <- list_elem_of_In, elem_of_seqZ in H.
  apply Z.eqb_eq, H. lia.
Qed.

(** X21.  The table behind the capture scores: for attackers and victims
    0..11, [mvv_lva[a][v]] is 100 times the rank of the victim among the
    six piece kinds, plus 105, minus the rank of the attacker.  So a more
    valuable victim scores higher whatever the two attackers, and on the
    same victim the less valuable attacker scores higher. *)
Theorem mvv_lva_formula (a v a' v' : Z) :
  0 <= a < 12 -> 0 <= v < 12 -> 0 <= a' < 12 -> 0 <= v' < 12 ->
  rd2 mvv_lva a v = 100 * (v mod 6) + 105 - a mod 6 /\
  (v mod 6 < v' mod 6 -> rd2 mvv_lva a v < rd2 mvv_lva a' v') /\
  (v mod 6 = v' mod 6 -> a mod 6 < a' mod 6 -> rd2 mvv_lva a' v' < rd2 mvv_lva a v).
Proof.
  intros Ha Hv Ha' Hv'.
  rewrite !mvv_lva_entry by assumption.
  pose proof (Z.mod_pos_bound a 6 ltac:(lia)).
  pose proof (Z.mod_pos_bound a' 6 ltac:(lia)).
  repeat split; lia.
Qed.

Lemma mvv_lva_formula_witness :
  rd2 mvv_lva Piece.P Piece.q = 100 * (Piece.q mod 6) + 105 - Piece.P mod 6 /\
  (Piece.q mod 6 < Piece.k mod 6 -> rd2 mvv_lva Piece.P Piece.q < rd2 mvv_lva Piece.Q Piece.k) /\
  (Piece.q mod 6 = Piece.k mod 6 -> Piece.P mod 6 < Piece.Q mod 6 ->
   rd2 mvv_lva Piece.Q Piece.k < rd2 mvv_lva Piece.P Piece.q).
Proof.
  apply (mvv_lva_formula Piece.P Piece.q Piece.Q Piece.k);
    vm_compute; split; (discriminate || reflexivity).
Defined.

(** X22.  Every capture outranks every quiet move but the PV move: a move
    with the capture flag and a piece 0..11 has a plain score between
    10100 and 10605, above the 10000 of a quiet promotion and the 9000
    and 8000 of the killers, whatever stands on the target square. *)
Theorem capture_score_band (move : Z) (pos : Position) (ss : SearchState) :
  getMoveCapture move <> 0 ->
  0 <= getMovePiece move < 12 ->
  10100 <= plainScore move pos ss <= 10605 /\
  MOVESCORE_PROMO_QUIET < plainScore move pos ss < 20000.
Proof.
  intros Hcap Hpc.
  assert (Ht : truthy (getMoveCapture move) = true).
  { unfold truthy. apply negb_true_iff, Z.eqb_neq, Hcap. }
  unfold plainScore, scoreMove. cbn [scorePV withScorePV andb]. rewrite Ht.
  cbv zeta. cbn [fst].
  set (victim := victimLoop _ _ _ _).
  assert (Hv : 0 <= victim < 12).
  { unfold victim. apply victimLoop_range; [|unfold Piece.P; lia].
    intros pc Hin. apply list_elem_of_In, elem_of_seqZ in Hin.
    destruct (sideToMove pos =? White); unfold Piece.p, Piece.k, Piece.P, Piece.K in Hin; lia. }
  rewrite (mvv_lva_entry _ _ Hpc Hv).
  pose proof (Z.mod_pos_bound victim 6 ltac:(lia)).
  pose proof (Z.mod_pos_bound (getMovePiece move) 6 ltac:(lia)).
  unfold MOVESCORE_PROMO_QUIET. lia.
Qed.

Lemma capture_score_band_witness :
  10100 <= plainScore Qd1xd4 orderingPos orderingState <= 10605 /\
  MOVESCORE_PROMO_QUIET < plainScore Qd1xd4 orderingPos orderingState < 20000.
Proof.
  apply (capture_score_band Qd1xd4 orderingPos orderingState).
  - vm_compute. discriminate.
  - vm_compute. split; [discriminate | reflexivity].
Defined.

(** X23.  A capture onto a square where no piece of the opponent stands
    (an en-passant capture lands on an empty square) is scored as the
    capture of a pawn: the victim keeps its initial value [P]. *)
Theorem capture_of_nothing_scores_pawn (move : Z) (pos : Position) (ss : SearchState) :
  getMoveCapture move <> 0 ->
  (forall pc, pawnOf (other (sideToMove pos)) <= pc < pawnOf (other (sideToMove pos)) + 6 ->
     getBit (rd (bitboards pos) pc) (getMoveTarget move) = 0) ->
  plainScore move pos ss = rd2 mvv_lva (getMovePiece move) Piece.P + 10000.
Proof.
  intros Hcap Hnone.
  assert (Ht : truthy (getMoveCapture move) = true).
  { unfold truthy. apply negb_true_iff, Z.eqb_neq, Hcap. }
  unfold plainScore, scoreMove. cbn [scorePV withScorePV andb]. rewrite Ht.
  cbv zeta. cbn [fst].
  rewrite victimLoop_none; [reflexivity|].
  intros pc Hin. apply Hnone.
  apply list_elem_of_In, elem_of_seqZ in Hin.
  revert Hin. unfold other, pawnOf.
  destruct (sideToMove pos =? White);
    change (Black =? White) with false; change (White =? White) with true;
    cbv iota; unfold Piece.p, Piece.P, Piece.k, Piece.K; lia.
Qed.

Lemma capture_of_nothing_scores_pawn_witness :
  plainScore e5xf6_ep enPassantWhite orderingState =
  rd2 mvv_lva (getMovePiece e5xf6_ep) Piece.P + 10000.
Proof.
  apply (capture_of_nothing_scores_pawn e5xf6_ep enPassantWhite orderingState).
  - vm_compute. discriminate.
  - intros pc Hpc. change (6 <= pc < 6 + 6) in Hpc.
    assert (Hc : pc = 6 \/ pc = 7 \/ pc = 8 \/ pc = 9 \/ pc = 10 \/ pc = 11) by lia.
    destruct Hc as [-> | [-> | [-> | [-> | [-> | ->]]]]]; vm_compute; reflexivity.
Defined.

(** ** The principal variation flags *)

Lemma enablePV_fold (l : list Z) (s : SearchState) :
  let s' := fold_left enablePVStep l s in
  let hit := existsb (Z.eqb (rd2 (pv_table s) 0 (ply s))) l in
  ply s' = ply s /\ pv_table s' = pv_table s /\
  killers s' = killers s /\ history s' = history s /\
  followPV s' = followPV s || hit /\ scorePV s' = scorePV s || hit.
Proof.
  revert s. induction l as [|m rest IH]; intros s; cbn [fold_left existsb].
  - rewrite !orb_false_r. repeat split; reflexivity.
  - specialize (IH (enablePVStep s m)). cbv zeta in IH.
    destruct IH as (Hp & Ht & Hk & Hh & Hf & Hs).
    unfold enablePVStep in *.
    destruct (rd2 (pv_table s) 0 (ply s) =? m);
      cbn [ply pv_table killers history followPV scorePV withFollowPV withScorePV] in *;
      rewrite Hp, Ht, Hk, Hh, Hf, Hs; cbn [orb]; rewrite ?orb_true_r;
      repeat split; reflexivity.
Qed.

(** X24.  [enablePV_scoring] says whether the PV move of the ply is in
    the move list: [followPV] is true afterwards exactly when it is
    listed, whatever the flag was before.  [scorePV] is only ever set: it
    is true afterwards when it was true before or the PV move is listed,
    so a list without the PV move leaves a stale [scorePV] on.  Nothing
    else of the search state changes. *)
Theorem enablePV_scoring_flags (MoveList : MoveList_t) (ss : SearchState) :
  let ss' := enablePV_scoring MoveList ss in
  let pvMove := rd2 (pv_table ss) 0 (ply ss) in
  (followPV ss' = true <-> In pvMove (listed MoveList)) /\
  (scorePV ss' = true <-> scorePV ss = true \/ In pvMove (listed MoveList)) /\
  ply ss' = ply ss /\ pv_table ss' = pv_table ss /\
  killers ss' = killers ss /\ history ss' = history ss.
Proof.
  cbv zeta. unfold enablePV_scoring.
  destruct (enablePV_fold (listed MoveList) (withFollowPV ss false))
    as (Hp & Ht & Hk & Hh & Hf & Hs).
  cbn [ply pv_table killers history followPV scorePV withFollowPV] in *.
  assert (Hex : existsb (Z.eqb (rd2 (pv_table ss) 0 (ply ss))) (listed MoveList) = true <->
                In (rd2 (pv_table ss) 0 (ply ss)) (listed MoveList)).
  { rewrite existsb_exists. split.
    - intros (x & Hin & Heq). apply Z.eqb_eq in Heq. subst x. exact Hin.
    - intros Hin. eexists. split; [exact Hin | apply Z.eqb_refl]. }
  rewrite Hf, Hs, Hp, Ht, Hk, Hh. cbn [orb]. rewrite orb_true_iff, Hex.
  repeat split; auto.
Qed.

(** ** The board under perft *)

Lemma sameBoard_refl x : sameBoard x x.
Proof. repeat split; reflexivity. Qed.

Lemma sameBoard_sym x y : sameBoard x y -> sameBoard y x.
Proof. intros (? & ? & ? & ? & ?). repeat split; congruence. Qed.

Lemma sameBoard_trans x y z : sameBoard x y -> sameBoard y z -> sameBoard x z.
Proof. intros (? & ? & ? & ? & ?) (? & ? & ? & ? & ?). repeat split; congruence. Qed.

Ltac board_fields :=
  cbn [bitboards occupancies sideToMove epsq castle st
       withBitboards withOccupancies withSide withEpsq withCastle withSt] in *.

(** Two positions that agree on the five board fields, as records that
    differ in the state chain only. *)
Ltac same_board :=
  intros [b o s e c l] [b' o' s' e' c' l'] (Hb & Ho & Hs & He & Hc);
  board_fields; subst b' o' s' e' c'.

Ltac board_done :=
  board_fields;
  repeat match goal with
         | |- context [if ?c then _ else _] => destruct c
         | |- context [match ?l with [] => _ | _ :: _ => _ end] => destruct l
         end;
  board_fields; unfold sameBoard; board_fields; repeat split; reflexivity.

Lemma popBB_board p sq x y : sameBoard x y -> sameBoard (popBB x p sq) (popBB y p sq).
Proof. revert x y. same_board. unfold popBB, withBitboards. board_done. Qed.

Lemma setBB_board p sq x y : sameBoard x y -> sameBoard (setBB x p sq) (setBB y p sq).
Proof. revert x y. same_board. unfold setBB, withBitboards. board_done. Qed.

Lemma popOcc_board p sq x y : sameBoard x y -> sameBoard (popOcc x p sq) (popOcc y p sq).
Proof. revert x y. same_board. unfold popOcc, withOccupancies. board_done. Qed.

Lemma setOcc_board p sq x y : sameBoard x y -> sameBoard (setOcc x p sq) (setOcc y p sq).
Proof. revert x y. same_board. unfold setOcc, withOccupancies. board_done. Qed.

Lemma setCaptured_board v x y : sameBoard x y -> sameBoard (setCaptured x v) (setCaptured y v).
Proof. revert x y. same_board. unfold setCaptured. board_done. Qed.

Lemma syncStateInfo_board x y : sameBoard x y -> sameBoard (syncStateInfo x) (syncStateInfo y).
Proof. revert x y. same_board. unfold syncStateInfo. board_done. Qed.

Lemma captureLoop_board pieces toSq Them x y :
  sameBoard x y -> sameBoard (captureLoop pieces toSq Them x) (captureLoop pieces toSq Them y).
Proof.
  revert x y. induction pieces as [|pc rest IH]; intros x y H; cbn [captureLoop]; [exact H|].
  assert (Hb : bitboards x = bitboards y) by apply H. rewrite Hb.
  destruct (truthy _).
  - apply setCaptured_board, popOcc_board, popBB_board, H.
  - apply IH, H.
Qed.

Lemma movePiece_board piece f t x y :
  sameBoard x y -> sameBoard (movePiece piece f t x) (movePiece piece f t y).
Proof.
  revert x y. same_board.
  unfold movePiece, setOcc, popOcc, setBB, popBB, withBitboards, withOccupancies.
  board_done.
Qed.

Lemma captureStep_board capture toSq Them x y :
  sameBoard x y -> sameBoard (captureStep capture toSq Them x) (captureStep capture toSq Them y).
Proof.
  intros H. unfold captureStep. destruct (truthy capture); [|exact H]. cbv zeta.
  assert (Hs : sideToMove x = sideToMove y) by apply H. rewrite Hs.
  apply captureLoop_board, H.
Qed.

Lemma promoStep_board promo toSq x y :
  sameBoard x y -> sameBoard (promoStep promo toSq x) (promoStep promo toSq y).
Proof.
  intros H. unfold promoStep. destruct (truthy promo); [|exact H]. cbv zeta.
  assert (Hs : sideToMove x = sideToMove y) by apply H. rewrite Hs.
  destruct (sideToMove y =? White); apply setBB_board, popBB_board, H.
Qed.

Lemma epStep_board ep toSq x y :
  sameBoard x y -> sameBoard (epStep ep toSq x) (epStep ep toSq y).
Proof.
  revert x y. same_board. unfold epStep.
  destruct (truthy ep); [|board_done].
  board_fields. destruct (s =? White) eqn:E;
    unfold popOcc, popBB, withBitboards, withOccupancies; board_fields;
    rewrite E; board_done.
Qed.

Lemma dpushStep_board dpush toSq x y :
  sameBoard x y -> sameBoard (dpushStep dpush toSq x) (dpushStep dpush toSq y).
Proof. revert x y. same_board. unfold dpushStep, withEpsq. board_done. Qed.

Lemma castlingStep_board castling toSq x y :
  sameBoard x y -> sameBoard (castlingStep castling toSq x) (castlingStep castling toSq y).
Proof.
  intros H. unfold castlingStep, castleRook.
  repeat match goal with
         | |- context [if ?c then _ else _] => destruct c
         end;
    try exact H; apply setOcc_board, popOcc_board, setBB_board, popBB_board, H.
Qed.

Lemma rightsStep_board f t x y :
  sameBoard x y -> sameBoard (rightsStep f t x) (rightsStep f t y).
Proof. revert x y. same_board. unfold rightsStep, withCastle. board_done. Qed.

Lemma bothStep_board x y : sameBoard x y -> sameBoard (bothStep x) (bothStep y).
Proof. revert x y. same_board. unfold bothStep, withOccupancies. board_done. Qed.

Lemma flipSide_board x y : sameBoard x y -> sameBoard (flipSide x) (flipSide y).
Proof. revert x y. same_board. unfold flipSide, withSide. board_done. Qed.

(** The board after a move depends on the board before it only, not on
    the state records. *)
Lemma applyMove_board move x y :
  sameBoard x y -> sameBoard (applyMove move x) (applyMove move y).
Proof.
  intros H. unfold applyMove. cbv zeta.
  assert (Hs : sideToMove x = sideToMove y) by apply H. rewrite Hs.
  apply flipSide_board, bothStep_board, syncStateInfo_board, rightsStep_board,
    castlingStep_board, dpushStep_board, epStep_board, promoStep_board,
    captureStep_board, movePiece_board, H.
Qed.

Lemma kingAttacked_board x y : sameBoard x y -> kingAttacked x = kingAttacked y.
Proof.
  revert x y. same_board. reflexivity.
Qed.

Lemma takeBack_board c x : sameBoard (takeBack (saveBoard c) x) c.
Proof. repeat split; reflexivity. Qed.

Section PerftProperties.

Variable generateMoves : Position -> MoveList_t.

Lemma perftStep_keeps (recur : PerftState -> outcome PerftState) (x : PerftState) (m : Z) :
  (forall s, st (board s) <> [] ->
     exists s', recur s = Done s' /\ handedBack (board s) (board s')) ->
  st (board x) <> [] ->
  exists x', perftStep recur (Done x) m = Done x' /\ handedBack (board x) (board x').
Proof.
  intros Hrec Hst. unfold handedBack in *.
  unfold perftStep. rewrite makeMove_AllMoves by exact Hst.
  destruct (st (board x)) as [|s1 prev] eqn:Est; [congruence|].
  destruct (applyMove_st m (board x) s1 prev Est) as (c & Hc & _).
  destruct (kingAttacked (applyMove m (board x))).
  - change (0 =? 0) with true. cbv iota. eexists. split; [reflexivity|].
    cbn [board]. split; [apply takeBack_board|].
    unfold takeBack. cbn [st]. rewrite Hc, ?Est. split; [reflexivity | discriminate].
  - change (1 =? 0) with false. cbv iota.
    destruct (Hrec (mkPerftState (applyMove m (board x)) (nodes x))) as (s' & Hs' & Hk).
    { cbn [board]. rewrite Hc. discriminate. }
    rewrite Hs'. eexists. split; [reflexivity|].
    cbn [board] in *. destruct Hk as (_ & Htl & Hne).
    split; [apply takeBack_board|].
    unfold takeBack. cbn [st]. rewrite Htl, Hc, ?Est. split; [reflexivity | exact Hne].
Qed.

Lemma perft_loop_keeps (recur : PerftState -> outcome PerftState) (l : list Z)
    (b0 : Position) (x : PerftState) :
  (forall s, st (board s) <> [] ->
     exists s', recur s = Done s' /\ handedBack (board s) (board s')) ->
  handedBack b0 (board x) ->
  exists x', fold_left (perftStep recur) l (Done x) = Done x' /\ handedBack b0 (board x').
Proof.
  intros Hrec. revert x. induction l as [|m rest IH]; intros x Hx; cbn [fold_left].
  - exists x. split; [reflexivity | exact Hx].
  - destruct Hx as (Hb & Htl & Hne).
    destruct (perftStep_keeps recur x m Hrec Hne) as (x1 & H1 & (Hb1 & Htl1 & Hne1)).
    rewrite H1. apply IH. split; [|split].
    + eapply sameBoard_trans; eassumption.
    + congruence.
    + exact Hne1.
Qed.

Lemma perftFrom_keeps (depth : nat) (s : PerftState) :
  st (board s) <> [] ->
  exists s', perftFrom generateMoves depth s = Done s' /\ handedBack (board s) (board s').
Proof.
  revert s. induction depth as [|d IH]; intros s Hst; cbn [perftFrom].
  - eexists. split; [reflexivity|]. cbn [board].
    split; [apply sameBoard_refl | split; [reflexivity | exact Hst]].
  - apply perft_loop_keeps; [exact IH|].
    split; [apply sameBoard_refl | split; [reflexivity | exact Hst]].
Qed.

(** X25.  [perft] cleans up after itself.  For every depth of 0 or more,
    on a position with a state record, and whatever moves the generator
    lists (legal or not, captures, castlings, promotions), the call
    returns, and the piece bitboards, the occupancies, the side to move,
    the en-passant square and the castling rights are the ones before the
    call.  The state chain keeps its records below the top one; the top
    record is the one the moves have overwritten. *)
Theorem perft_restores_board (depth : Z) (s : PerftState) :
  0 <= depth -> st (board s) <> [] ->
  exists s',
    perft generateMoves depth s = Done s' /\
    sameBoard (board s') (board s) /\
    tl (st (board s')) = tl (st (board s)) /\
    st (board s') <> [].
Proof.
  intros Hd Hst. unfold perft.
  destruct (Z.geb_spec depth 0) as [_ | Hlt]; [|lia].
  apply perftFrom_keeps, Hst.
Qed.

Lemma perft_one_loop (l : list Z) (b0 : Position) (x : PerftState) :
  sameBoard (board x) b0 -> st (board x) <> [] -> 0 <= nodes x < 2 ^ 64 ->
  exists x',
    fold_left (perftStep (perftFrom generateMoves 0)) l (Done x) = Done x' /\
    nodes x' =
      wrap64 (nodes x +
              Z.of_nat (length (List.filter (fun m => negb (kingAttacked (applyMove m b0))) l))).
Proof.
  revert x. induction l as [|m rest IH]; intros x Hb Hst Hn; cbn [fold_left List.filter].
  - exists x. split; [reflexivity|]. cbn [length]. rewrite Z.add_0_r.
    unfold wrap64. rewrite Z.mod_small by exact Hn. reflexivity.
  - unfold perftStep at 2. rewrite makeMove_AllMoves by exact Hst.
    destruct (st (board x)) as [|s1 prev] eqn:Est; [congruence|].
    destruct (applyMove_st m (board x) s1 prev Est) as (c & Hc & _).
    rewrite <- (kingAttacked_board _ _ (applyMove_board m _ _ Hb)).
    destruct (kingAttacked (applyMove m (board x))).
    + change (0 =? 0) with true. cbv iota. cbn [negb].
      destruct (IH (mkPerftState (takeBack (saveBoard (board x)) (applyMove m (board x)))
                                 (nodes x))) as (x' & Hx' & Hn').
      * cbn [board]. eapply sameBoard_trans; [apply takeBack_board | exact Hb].
      * cbn [board]. unfold takeBack. cbn [st]. rewrite Hc. discriminate.
      * exact Hn.
      * exists x'. split; [exact Hx' | exact Hn'].
    + change (1 =? 0) with false. cbv iota. cbn [negb perftFrom board nodes length].
      destruct (IH (mkPerftState (takeBack (saveBoard (board x)) (applyMove m (board x)))
                                 (wrap64 (nodes x + 1)))) as (x' & Hx' & Hn').
      * cbn [board]. eapply sameBoard_trans; [apply takeBack_board | exact Hb].
      * cbn [board]. unfold takeBack. cbn [st]. rewrite Hc. discriminate.
      * cbn [nodes]. unfold wrap64. apply Z.mod_pos_bound. reflexivity.
      * exists x'. split; [exact Hx'|]. rewrite Hn'. cbn [nodes].
        unfold wrap64. rewrite Zplus_mod_idemp_l. f_equal. lia.
Qed.

(** X26.  [perft(1)] counts the legal moves among the listed ones: on a
    position with a state record the call returns, and the node counter
    has grown (modulo 2^64) by the number of listed moves after which the
    mover's king is not attacked, duplicates counted as often as they are
    listed.  The one-argument call [makeMove(move)] of [perft] is read as
    [makeMove(move, AllMoves)], the flag movgen.h names the standard one. *)
Theorem perft_one_counts_legal (s : PerftState) :
  st (board s) <> [] -> 0 <= nodes s < 2 ^ 64 ->
  exists s',
    perft generateMoves 1 s = Done s' /\
    nodes s' =
      wrap64 (nodes s +
              Z.of_nat (length (List.filter (fun m => negb (kingAttacked (applyMove m (board s))))
                                       (listed (generateMoves (board s)))))).
Proof.
  intros Hst Hn.
  change (perft generateMoves 1 s)
    with (fold_left (perftStep (perftFrom generateMoves 0))
                    (listed (generateMoves (board s))) (Done s)).
  apply perft_one_loop; [apply sameBoard_refl | exact Hst | exact Hn].
Qed.

End PerftProperties.

Lemma perft_restores_board_witness :
  exists s',
    perft (fun _ => mkMoveList [e2e4; Ke1e2] 2) 2 (mkPerftState (pushState startpos) 0) =
      Done s' /\
    sameBoard (board s') (board (mkPerftState (pushState startpos) 0)) /\
    tl (st (board s')) = tl (st (board (mkPerftState (pushState startpos) 0))) /\
    st (board s') <> [].
Proof.
  apply (perft_restores_board (fun _ => mkMoveList [e2e4; Ke1e2] 2) 2
           (mkPerftState (pushState startpos) 0)).
  - lia.
  - vm_compute. discriminate.
Defined.

Lemma perft_one_counts_legal_witness :
  exists s',
    perft (fun _ => mkMoveList [e2e4; g1f3; g1f3] 3) 1 (mkPerftState startpos 5) = Done s' /\
    nodes s' =
      wrap64 (nodes (mkPerftState startpos 5) +
              Z.of_nat (length (List.filter
                (fun m => negb (kingAttacked (applyMove m (board (mkPerftState startpos 5)))))
                (listed ((fun _ => mkMoveList [e2e4; g1f3; g1f3] 3)
                           (board (mkPerftState startpos 5))))))).
Proof.
  apply (perft_one_counts_legal (fun _ => mkMoveList [e2e4; g1f3; g1f3] 3)
           (mkPerftState startpos 5)).
  - vm_compute. discriminate.
  - vm_compute. split; [discriminate | reflexivity].
Defined.

Section DividePerft.

Variable generateMoves : Position -> MoveList_t.
Variables SquareToCoordinates PromoPieces : Z -> string.

Lemma dperft_loop_silent (depth : Z) (l : list Z) (acc : outcome DivideState) :
  depth < 0 ->
  match acc with Done (s, out) => out = [] /\ nodes s = 0 | _ => True end ->
  match fold_left (dperftStep generateMoves SquareToCoordinates PromoPieces depth) l acc with
  | Done (s, out) => out = [] /\ nodes s = 0
  | _ => True
  end.
Proof.
  intros Hd. revert acc. induction l as [|m rest IH]; intros acc Hacc; cbn [fold_left].
  - exact Hacc.
  - apply IH. unfold dperftStep.
    destruct acc as [[s out] | |]; [|exact I..].
    destruct (makeMove m AllMoves (board s)) as [[res pos'] | |]; [|exact I..].
    destruct (res =? 0).
    + cbn [nodes]. exact Hacc.
    + cbv zeta. rewrite perft_negative by lia. exact I.
Qed.

(** X27.  No call of [dperft] prints a line for a move or counts a node.
    Whatever the depth, the position, the generated moves and the clock,
    a call that runs to its end has printed no per-move line and its node
    counter is 0: a depth that passes the entry assertion is negative, and
    then the first move that is made fails the assertion of [perft]. *)
Theorem dperft_never_prints (ns depth : Z) (s : PerftState) :
  match dperft generateMoves SquareToCoordinates PromoPieces ns depth s with
  | Done (s', out) => out = [] /\ nodes s' = 0
  | _ => True
  end.
Proof.
  unfold dperft. destruct (Z.ltb_spec depth 0) as [Hd | _]; [|exact I]. cbv zeta.
  pose proof (dperft_loop_silent depth
                (listed (generateMoves (board (mkPerftState (board s) 0))))
                (Done (mkPerftState (board s) 0, [])) Hd) as H.
  destruct (fold_left _ _ _) as [[s' out] | |]; [|exact I..].
  destruct (truthy ns); [|exact I]. apply H. split; reflexivity.
Qed.

End DividePerft.

(** ** The pseudo-random numbers *)

Lemma xor_shift_left (x k : Z) :
  0 < k -> 0 <= x < 2 ^ 32 ->
  0 <= Z.lxor x (wrap32 (Z.shiftl x k)) < 2 ^ 32 /\
  (Z.lxor x (wrap32 (Z.shiftl x k)) = 0 -> x = 0).
Proof.
  intros Hk Hx. unfold wrap32.
  assert (Hm : 0 <= Z.shiftl x k mod 2 ^ 32 < 2 ^ 32) by (apply Z.mod_pos_bound; reflexivity).
  split; [split|].
  - apply Z.lxor_nonneg. lia.
  - apply below_pow2_of_bits; [lia | apply Z.lxor_nonneg; lia |].
    intros i Hi. rewrite Z.lxor_spec.
    rewrite (testbit_outside x 32 i Hx) by lia.
    rewrite (testbit_outside _ 32 i Hm) by lia. reflexivity.
  - intros H0.
    assert (Hall : forall n : nat, forall i, 0 <= i < Z.of_nat n -> Z.testbit x i = false).
    { induction n as [|n IH]; intros i Hi; [lia|].
      destruct (Z.lt_ge_cases i 32) as [Hlt | Hge];
        [|apply (testbit_outside x 32 i Hx); lia].
      assert (Hb : Z.testbit (Z.lxor x (Z.shiftl x k mod 2 ^ 32)) i = false)
        by (rewrite H0; apply Z.bits_0).
      rewrite Z.lxor_spec, Z.mod_pow2_bits_low, Z.shiftl_spec in Hb by lia.
      destruct (Z.lt_ge_cases (i - k) 0) as [Hneg | Hpos].
      - rewrite (Z.testbit_neg_r x (i - k)) in Hb by lia.
        rewrite xorb_false_r in Hb. exact Hb.
      - rewrite (IH (i - k)) in Hb by lia. rewrite xorb_false_r in Hb. exact Hb. }
    apply Z.bits_inj'. intros i Hi. rewrite Z.bits_0.
    apply (Hall (Z.to_nat (i + 1))). lia.
Qed.

Lemma xor_shift_right (x k : Z) :
  0 < k -> 0 <= x < 2 ^ 32 ->
  0 <= Z.lxor x (Z.shiftr x k) < 2 ^ 32 /\
  (Z.lxor x (Z.shiftr x k) = 0 -> x = 0).
Proof.
  intros Hk Hx.
  assert (Hs : 0 <= Z.shiftr x k) by (apply Z.shiftr_nonneg; lia).
  split; [split|].
  - apply Z.lxor_nonneg. lia.
  - apply below_pow2_of_bits; [lia | apply Z.lxor_nonneg; lia |].
    intros i Hi. rewrite Z.lxor_spec, Z.shiftr_spec by lia.
    rewrite (testbit_outside x 32 i Hx) by lia.
    rewrite (testbit_outside x 32 (i + k) Hx) by lia. reflexivity.
  - intros H0.
    assert (Hall : forall n : nat, forall i, 32 - Z.of_nat n <= i -> Z.testbit x i = false).
    { induction n as [|n IH]; intros i Hi.
      - apply (testbit_outside x 32 i Hx). lia.
      - destruct (Z.lt_ge_cases i 0) as [Hneg | Hpos]; [apply Z.testbit_neg_r; lia|].
        assert (Hb : Z.testbit (Z.lxor x (Z.shiftr x k)) i = false)
          by (rewrite H0; apply Z.bits_0).
        rewrite Z.lxor_spec, Z.shiftr_spec in Hb by lia.
        rewrite (IH (i + k)) in Hb by lia. rewrite xorb_false_r in Hb. exact Hb. }
    apply Z.bits_inj'. intros i Hi. rewrite Z.bits_0.
    apply (Hall 32%nat). lia.
Qed.

(** X28.  [rng32] never gets stuck.  On a 32-bit state the number
    returned is the new state, it is a 32-bit value again, and it is 0
    only when the state was 0: a generator seeded with a nonzero state
    never reaches the all-zero state, from which every later number would
    be 0. *)
Theorem rng32_state_never_zero (rng32_state : Z) :
  0 <= rng32_state < 2 ^ 32 ->
  fst (rng32 rng32_state) = snd (rng32 rng32_state) /\
  0 <= snd (rng32 rng32_state) < 2 ^ 32 /\
  (snd (rng32 rng32_state) = 0 <-> rng32_state = 0).
Proof.
  intros Hx. unfold rng32. cbv zeta. cbn [fst snd].
  destruct (xor_shift_left rng32_state 13 ltac:(lia) Hx) as (H1 & Z1).
  destruct (xor_shift_right _ 17 ltac:(lia) H1) as (H2 & Z2).
  destruct (xor_shift_left _ 5 ltac:(lia) H2) as (H3 & Z3).
  split; [reflexivity|]. split; [exact H3|]. split.
  - intros H0. apply Z1, Z2, Z3, H0.
  - intros ->. reflexivity.
Qed.

Lemma rng32_state_never_zero_witness :
  fst (rng32 1804289383) = snd (rng32 1804289383) /\
  0 <= snd (rng32 1804289383) < 2 ^ 32 /\
  (snd (rng32 1804289383) = 0 <-> 1804289383 = 0).
Proof.
  apply (rng32_state_never_zero 1804289383).
  vm_compute. split; [discriminate | reflexivity].
Defined.

(** ** The population count *)

Lemma lowMask_nonneg k n : 0 <= k -> 0 <= lowMask k n.
Proof.
  intros Hk. induction n as [|n IH]; cbn [lowMask]; [lia|].
  assert (0 <= Z.ones k) by (rewrite Z.ones_equiv; pose proof (Z.pow_pos_nonneg 2 k); lia).
  assert (0 < 2 ^ (2 * k)) by (apply Z.pow_pos_nonneg; lia).
  nia.
Qed.

(** A masked word, field by field: the low field and the rest. *)
Lemma land_lowMask k n x :
  0 < k -> 0 <= x ->
  Z.land x (lowMask k (S n)) =
  x mod 2 ^ k + 2 ^ (2 * k) * Z.land (x / 2 ^ (2 * k)) (lowMask k n).
Proof.
  intros Hk Hx. cbn [lowMask].
  set (W := 2 ^ (2 * k)). set (M' := lowMask k n).
  assert (HW : 0 < W) by (apply Z.pow_pos_nonneg; lia).
  assert (HM' : 0 <= M') by (apply lowMask_nonneg; lia).
  assert (Hones : 0 <= Z.ones k < W).
  { rewrite Z.ones_equiv. unfold W.
    assert (2 ^ k <= 2 ^ (2 * k)) by (apply Z.pow_le_mono_r; lia).
    pose proof (Z.pow_pos_nonneg 2 k). lia. }
  assert (Hmod : (Z.ones k + W * M') mod W = Z.ones k).
  { rewrite (Z.mul_comm W M'), Z.mod_add by lia. apply Z.mod_small. exact Hones. }
  assert (Hdiv : (Z.ones k + W * M') / W = M').
  { rewrite (Z.mul_comm W M'), Z.div_add by lia.
    rewrite (Z.div_small (Z.ones k) W) by exact Hones. lia. }
  set (A := Z.land x (Z.ones k + W * M')).
  rewrite (Z.div_mod A W) by lia. rewrite (Z.add_comm (x mod 2 ^ k)). f_equal.
  - f_equal. unfold A, W.
    rewrite <- !Z.shiftr_div_pow2 by lia. rewrite Z.shiftr_land.
    rewrite !Z.shiftr_div_pow2 by lia. fold W. rewrite Hdiv. reflexivity.
  - unfold A, W. rewrite <- !Z.land_ones by lia.
    rewrite <- Z.land_assoc. rewrite (Z.land_ones _ (2 * k)) by lia. fold W.
    rewrite Hmod. reflexivity.
Qed.

(** One line of [countBits]: the halves of every field are added, no sum
    leaves its field, and the sum of all fields is kept. *)
Lemma countBits_line k n x :
  0 < k -> 0 <= x ->
  let y := Z.land x (lowMask k n) + Z.land (Z.shiftr x k) (lowMask k n) in
  fieldSum (2 * k) n y = fieldSum k (n + n) x /\
  0 <= y < 2 ^ (2 * k * Z.of_nat n).
Proof.
  intros Hk. revert x. induction n as [|n IH]; intros x Hx; cbv zeta.
  - cbn [lowMask fieldSum Nat.add]. rewrite !Z.land_0_r. cbn. lia.
  - assert (Hs : 0 <= Z.shiftr x k) by (apply Z.shiftr_nonneg; exact Hx).
    rewrite !land_lowMask by assumption.
    set (W := 2 ^ (2 * k)).
    assert (HW : 0 < W) by (apply Z.pow_pos_nonneg; lia).
    assert (Hkk : 2 * 2 ^ k <= W).
    { unfold W. replace (2 * k) with (k + k) by lia. rewrite Z.pow_add_r by lia.
      assert (2 <= 2 ^ k) by (change 2 with (2 ^ 1) at 1; apply Z.pow_le_mono_r; lia).
      nia. }
    assert (Hx' : 0 <= x / W) by (apply Z.div_pos; lia).
    specialize (IH (x / W) Hx'). cbv zeta in IH. destruct IH as (IHs & IHr).
    assert (Hsw : Z.shiftr x k / W = Z.shiftr (x / W) k).
    { unfold W. rewrite <- !Z.shiftr_div_pow2 by lia.
      rewrite !Z.shiftr_shiftr by lia. f_equal. lia. }
    rewrite Hsw.
    set (y' := Z.land (x / W) (lowMask k n) + Z.land (Z.shiftr (x / W) k) (lowMask k n)) in *.
    set (a := x mod 2 ^ k). set (a' := Z.shiftr x k mod 2 ^ k).
    assert (Ha : 0 <= a < 2 ^ k) by (apply Z.mod_pos_bound, Z.pow_pos_nonneg; lia).
    assert (Ha' : 0 <= a' < 2 ^ k) by (apply Z.mod_pos_bound, Z.pow_pos_nonneg; lia).
    replace (a + W * Z.land (x / W) (lowMask k n) +
             (a' + W * Z.land (Z.shiftr (x / W) k) (lowMask k n)))
      with (a + a' + y' * W) by (unfold y'; ring).
    split.
    + cbn [fieldSum]. fold W.
      rewrite Z.mod_add, Z.div_add by lia.
      rewrite Z.mod_small, Z.div_small by lia. rewrite Z.add_0_l, IHs.
      replace (S n + S n)%nat with (S (S (n + n))) by lia. cbn [fieldSum].
      unfold a, a'. rewrite Z.shiftr_div_pow2 by lia.
      rewrite Z.div_div by (try apply Z.pow_pos_nonneg; lia).
      rewrite <- Z.pow_add_r by lia. replace (k + k) with (2 * k) by lia. fold W. lia.
    + replace (2 * k * Z.of_nat (S n)) with (2 * k * Z.of_nat n + 2 * k) by lia.
      rewrite Z.pow_add_r by lia. fold W. nia.
Qed.

Lemma fieldSum_bits (x : Z) (n : nat) (s : Z) :
  0 <= s ->
  fold_right Z.add 0 (map (getBit x) (seqZ s (Z.of_nat n))) = fieldSum 1 n (x / 2 ^ s).
Proof.
  revert s. induction n as [|n IH]; intros s Hs; [reflexivity|].
  rewrite seqZ_cons by lia.
  replace (Z.pred (Z.of_nat (S n))) with (Z.of_nat n) by lia.
  cbn [map fold_right fieldSum]. rewrite IH by lia. f_equal.
  - unfold getBit, shr64. change 1 with (Z.ones 1) at 1.
    rewrite Z.land_ones, Z.shiftr_div_pow2 by lia. reflexivity.
  - f_equal. rewrite Z.div_div by (try apply Z.pow_pos_nonneg; lia).
    rewrite <- Z.pow_add_r by lia. reflexivity.
Qed.

Lemma fieldSum_1_bound (n : nat) (x : Z) : 0 <= fieldSum 1 n x <= Z.of_nat n.
Proof.
  revert x. induction n as [|n IH]; intros x; cbn [fieldSum]; [lia|].
  specialize (IH (x / 2 ^ 1)).
  pose proof (Z.mod_pos_bound x (2 ^ 1) ltac:(lia)). change (2 ^ 1) with 2 in *. lia.
Qed.

(** One line of [countBits] on the 64-bit word: the addition does not
    wrap. *)
Lemma countBits_line64 (k : Z) (n : nat) (M x : Z) :
  0 < k -> 0 <= x -> lowMask k n = M -> 2 * k * Z.of_nat n = 64 ->
  let y := wrap64 (Z.land x M + Z.land (shr64 x k) M) in
  fieldSum (2 * k) n y = fieldSum k (n + n) x /\ 0 <= y.
Proof.
  intros Hk Hx <- Hn. cbv zeta.
  destruct (countBits_line k n x Hk Hx) as (Hs & Hr). rewrite Hn in Hr.
  unfold wrap64, shr64. rewrite Z.mod_small by exact Hr.
  split; [exact Hs | lia].
Qed.

(** X29.  [countBits] counts: on a 64-bit word the result of the six
    masked additions is the number of squares 0..63 whose bit [getBit]
    reports, so it lies between 0 and 64 and the conversion to [int] of
    the source loses nothing. *)
Theorem countBits_counts_squares (bb : Bitboard) :
  0 <= bb < 2 ^ 64 ->
  countBits bb = fold_right Z.add 0 (map (getBit bb) squares) /\
  0 <= countBits bb <= 64.
Proof.
  intros Hbb.
  assert (Hsum : countBits bb = fieldSum 1 64 bb).
  { unfold countBits. cbv zeta.
    set (x1 := wrap64 (Z.land bb 0x5555555555555555 +
                       Z.land (shr64 bb 1) 0x5555555555555555)).
    set (x2 := wrap64 (Z.land x1 0x3333333333333333 +
                       Z.land (shr64 x1 2) 0x3333333333333333)).
    set (x3 := wrap64 (Z.land x2 0x0f0f0f0f0f0f0f0f +
                       Z.land (shr64 x2 4) 0x0f0f0f0f0f0f0f0f)).
    set (x4 := wrap64 (Z.land x3 0x00ff00ff00ff00ff +
                       Z.land (shr64 x3 8) 0x00ff00ff00ff00ff)).
    set (x5 := wrap64 (Z.land x4 0x0000ffff0000ffff +
                       Z.land (shr64 x4 16) 0x0000ffff0000ffff)).
    set (x6 := wrap64 (Z.land x5 0x00000000ffffffff +
                       Z.land (shr64 x5 32) 0x00000000ffffffff)).
    assert (H1 : fieldSum 2 32 x1 = fieldSum 1 64 bb /\ 0 <= x1)
      by (apply (countBits_line64 1 32 0x5555555555555555 bb);
          [lia | lia | vm_compute; reflexivity | reflexivity]).
    destruct H1 as (S1 & P1).
    assert (H2 : fieldSum 4 16 x2 = fieldSum 2 32 x1 /\ 0 <= x2)
      by (apply (countBits_line64 2 16 0x3333333333333333 x1);
          [lia | exact P1 | vm_compute; reflexivity | reflexivity]).
    destruct H2 as (S2 & P2).
    assert (H3 : fieldSum 8 8 x3 = fieldSum 4 16 x2 /\ 0 <= x3)
      by (apply (countBits_line64 4 8 0x0f0f0f0f0f0f0f0f x2);
          [lia | exact P2 | vm_compute; reflexivity | reflexivity]).
    destruct H3 as (S3 & P3).
    assert (H4 : fieldSum 16 4 x4 = fieldSum 8 8 x3 /\ 0 <= x4)
      by (apply (countBits_line64 8 4 0x00ff00ff00ff00ff x3);
          [lia | exact P3 | vm_compute; reflexivity | reflexivity]).
    destruct H4 as (S4 & P4).
    assert (H5 : fieldSum 32 2 x5 = fieldSum 16 4 x4 /\ 0 <= x5)
      by (apply (countBits_line64 16 2 0x0000ffff0000ffff x4);
          [lia | exact P4 | vm_compute; reflexivity | reflexivity]).
    destruct H5 as (S5 & P5).
    assert (H6 : fieldSum 64 1 x6 = fieldSum 32 2 x5 /\ 0 <= x6)
      by (apply (countBits_line64 32 1 0x00000000ffffffff x5);
          [lia | exact P5 | vm_compute; reflexivity | reflexivity]).
    destruct H6 as (S6 & P6).
    assert (R6 : 0 <= x6 < 2 ^ 64)
      by (unfold x6, wrap64; apply Z.mod_pos_bound; reflexivity).
    rewrite <- S1, <- S2, <- S3, <- S4, <- S5, <- S6.
    cbn [fieldSum]. rewrite Z.mod_small by exact R6. lia. }
  rewrite Hsum. split.
  - unfold squares. change 64 with (Z.of_nat 64) at 1.
    rewrite (fieldSum_bits bb 64 0) by lia.
    change (2 ^ 0) with 1. rewrite Z.div_1_r. reflexivity.
  - pose proof (fieldSum_1_bound 64 bb). lia.
Qed.

Lemma countBits_counts_squares_witness :
  countBits (rd (occupancies startpos) Both) =
    fold_right Z.add 0 (map (getBit (rd (occupancies startpos) Both)) squares) /\
  0 <= countBits (rd (occupancies startpos) Both) <= 64.
Proof.
  apply (countBits_counts_squares (rd (occupancies startpos) Both)).
  vm_compute. split; [discriminate | reflexivity].
Defined.

(** ** The occupancies under a quiet move *)

Lemma fold_lor_testbit (g : Z -> Z) (l : list Z) (a i : Z) :
  Z.testbit (fold_left Z.lor (map g l) a) i =
  Z.testbit a i || existsb (fun q => Z.testbit (g q) i) l.
Proof.
  revert a. induction l as [|q rest IH]; intros a; cbn [map fold_left existsb].
  - rewrite orb_false_r. reflexivity.
  - rewrite IH, Z.lor_spec, orb_assoc. reflexivity.
Qed.

(** The OR of six piece bitboards after one of them has moved a piece from
    [f] to [t], when the five others have no bit on [f]. *)
Lemma or_after_move (bbs : list Z) (pc f t from : Z) :
  0 <= f < 64 -> 0 <= t < 64 -> 0 <= from ->
  from <= pc < from + 6 -> pc < Z.of_nat (length bbs) ->
  (forall q, from <= q < from + 6 -> q <> pc ->
     0 <= rd bbs q < 2 ^ 64 /\ getBit (rd bbs q) f = 0) ->
  fold_left Z.lor
    (map (rd (wr bbs pc (setBit (popBit (rd bbs pc) f) t))) (seqZ from 6)) 0 =
  setBit (popBit (fold_left Z.lor (map (rd bbs) (seqZ from 6)) 0) f) t.
Proof.
  intros Hf Ht Hfrom Hpc Hlen Hothers.
  apply Z.bits_inj'. intros i Hi.
  rewrite setBit_testbit, popBit_testbit_all, !fold_lor_testbit, Z.bits_0 by lia.
  cbn [orb].
  assert (Hin : forall l : list Z,
            (forall q, In q l -> from <= q < from + 6) ->
            existsb (fun q => Z.testbit
                       (rd (wr bbs pc (setBit (popBit (rd bbs pc) f) t)) q) i) l =
            existsb (fun q => Z.testbit (rd bbs q) i) l && negb (i =? f) && (i <? 64)
            || existsb (Z.eqb pc) l && (i =? t)).
  { induction l as [|q rest IH]; intros Hl; cbn [existsb]; [reflexivity|].
    rewrite IH by (intros q' Hq'; apply Hl; right; exact Hq').
    specialize (Hl q (or_introl eq_refl)).
    destruct (Z.eqb_spec pc q) as [<- | Hne].
    - rewrite rd_wr_same, setBit_testbit, popBit_testbit_all by lia.
      destruct (Z.testbit (rd bbs pc) i), (negb (i =? f)), (i <? 64), (i =? t),
        (existsb (fun q => Z.testbit (rd bbs q) i) rest), (existsb (Z.eqb pc) rest);
        reflexivity.
    - rewrite rd_wr_other by lia.
      destruct (Hothers q Hl ltac:(congruence)) as (Hr & Hb).
      assert (Hclean : Z.testbit (rd bbs q) i =
                       Z.testbit (rd bbs q) i && negb (i =? f) && (i <? 64)).
      { destruct (Z.ltb_spec i 64) as [Hlt | Hge].
        - destruct (Z.eqb_spec i f) as [-> | _];
            [|rewrite !andb_true_r; reflexivity].
          rewrite getBit_testbit in Hb by lia.
          destruct (Z.testbit (rd bbs q) f); [discriminate | reflexivity].
        - rewrite (bits_above_64 _ i Hr) by lia. reflexivity. }
      rewrite Hclean.
      destruct (Z.testbit (rd bbs q) i), (negb (i =? f)), (i <? 64), (i =? t),
        (existsb (fun q => Z.testbit (rd bbs q) i) rest), (existsb (Z.eqb pc) rest);
        reflexivity. }
  rewrite Hin by (intros q Hq; apply list_elem_of_In, elem_of_seqZ in Hq; lia).
  assert (Hex : existsb (Z.eqb pc) (seqZ from 6) = true).
  { apply existsb_exists. exists pc. split; [|apply Z.eqb_refl].
    apply list_elem_of_In, elem_of_seqZ. lia. }
  rewrite Hex. reflexivity.
Qed.

Lemma occupanciesConsistent_iff (pos : Position) :
  occupanciesConsistent pos = true <->
  rd (occupancies pos) White = orBitboards pos Piece.P 6 /\
  rd (occupancies pos) Black = orBitboards pos Piece.p 6 /\
  rd (occupancies pos) Both =
    Z.lor (rd (occupancies pos) White) (rd (occupancies pos) Black).
Proof.
  unfold occupanciesConsistent. rewrite !andb_true_iff, !Z.eqb_eq. tauto.
Qed.

Lemma wr_wr (l : list Z) i a b : wr (wr l i a) i b = wr l i b.
Proof. unfold wr. apply list_insert_insert_eq. Qed.

(** The bitboards and the occupancies after a move without any flag. *)
Lemma applyMove_quiet_boards move pos :
  getMoveCapture move = 0 -> getPromo move = 0 -> getDoublePush move = 0 ->
  getEp move = 0 -> getCastle move = 0 ->
  0 <= getMovePiece move < Z.of_nat (length (bitboards pos)) ->
  0 <= sideToMove pos < Z.of_nat (length (occupancies pos)) ->
  let pc := getMovePiece move in
  let f := getMoveSource move in
  let t := getMoveTarget move in
  let us := sideToMove pos in
  let occ := wr (occupancies pos) us (setBit (popBit (rd (occupancies pos) us) f) t) in
  bitboards (applyMove move pos) =
    wr (bitboards pos) pc (setBit (popBit (rd (bitboards pos) pc) f) t) /\
  occupancies (applyMove move pos) =
    wr occ Both (Z.lor (rd occ White) (rd occ Black)).
Proof.
  intros Hc Hp Hd He Hcs Hpc Hus. cbv zeta.
  rewrite (applyMove_quiet move pos Hc Hp Hd He Hcs).
  unfold bothStep, flipSide, syncStateInfo, rightsStep, movePiece. cbv zeta.
  cbn [st bitboards occupancies sideToMove epsq castle withSide withOccupancies
       withBitboards withCastle withEpsq withSt popBB setBB popOcc setOcc].
  destruct (st pos);
    cbn [st bitboards occupancies sideToMove epsq castle withSide withOccupancies
         withBitboards withCastle withEpsq withSt popBB setBB popOcc setOcc];
    rewrite !rd_wr_same, !wr_wr by lia; split; reflexivity.
Qed.

Lemma or_of_others (bbs : list Z) (pc v from : Z) :
  0 <= pc -> 0 <= from -> pc < from \/ from + 6 <= pc ->
  fold_left Z.lor (map (rd (wr bbs pc v)) (seqZ from 6)) 0 =
  fold_left Z.lor (map (rd bbs) (seqZ from 6)) 0.
Proof.
  intros Hpc Hfrom Hout. f_equal. apply map_ext_in. intros q Hq.
  apply list_elem_of_In, elem_of_seqZ in Hq. apply rd_wr_other; lia.
Qed.

(** X30.  A quiet move keeps the occupancies in step with the piece
    bitboards.  On a position whose occupancies are the OR of the piece
    bitboards, a move without capture, promotion, double-push, en-passant
    or castling flag, of a piece of the side to move, from a square no
    other piece of that side stands on, leaves occupancies that are again
    the OR of the piece bitboards. *)
Theorem makeMove_quiet_keeps_occupancies (move : Z) (pos : Position) :
  st pos <> [] ->
  length (bitboards pos) = 12%nat -> length (occupancies pos) = 3%nat ->
  sideToMove pos = White \/ sideToMove pos = Black ->
  pieceOf (sideToMove pos) (getMovePiece move) ->
  getMoveCapture move = 0 -> getPromo move = 0 -> getDoublePush move = 0 ->
  getEp move = 0 -> getCastle move = 0 ->
  (forall q, pieceOf (sideToMove pos) q -> q <> getMovePiece move ->
     0 <= rd (bitboards pos) q < 2 ^ 64 /\
     getBit (rd (bitboards pos) q) (getMoveSource move) = 0) ->
  occupanciesConsistent pos = true ->
  exists res pos',
    makeMove move AllMoves pos = Done (res, pos') /\
    occupanciesConsistent pos' = true.
Proof.
  intros Hst Hlb Hlo Hside Hpiece Hc Hp Hd He Hcs Hothers Hcons.
  pose proof (decoded_squares move) as (Hf & Ht).
  exists (if kingAttacked (applyMove move pos) then 0 else 1), (applyMove move pos).
  split; [apply makeMove_AllMoves; exact Hst|].
  assert (Hpc : 0 <= getMovePiece move < 12)
    by (clear - Hside Hpiece; by_side Hside; lia).
  assert (Hus : 0 <= sideToMove pos < 3)
    by (clear - Hside; destruct Hside as [-> | ->]; unfold White, Black; lia).
  destruct (applyMove_quiet_boards move pos Hc Hp Hd He Hcs) as (Hbb & Hocc);
    [rewrite Hlb; lia | rewrite Hlo; lia |].
  apply occupanciesConsistent_iff in Hcons. destruct Hcons as (HW & HB & _).
  apply occupanciesConsistent_iff. unfold orBitboards in *. rewrite Hbb, Hocc.
  set (f := getMoveSource move) in *. set (t := getMoveTarget move) in *.
  set (pc := getMovePiece move) in *.
  clear Hbb Hocc Hc Hp Hd He Hcs Hst.
  destruct Hside as [Hs | Hs]; rewrite Hs in *;
    unfold pieceOf, pawnOf, White, Black, Both, Piece.P, Piece.p in *;
    cbn [Z.eqb Pos.eqb] in *;
    (split; [|split]);
    repeat first [ rewrite rd_wr_same by (rewrite ?length_wr; lia)
                 | rewrite rd_wr_other by lia ];
    try reflexivity.
  - rewrite or_after_move; try lia; [rewrite <- HW; reflexivity | exact Hothers].
  - rewrite or_of_others by lia. exact HB.
  - rewrite or_of_others by lia. exact HW.
  - rewrite or_after_move; try lia; [rewrite <- HB; reflexivity | exact Hothers].
Qed.

Lemma makeMove_quiet_keeps_occupancies_witness :
  exists res pos',
    makeMove g1f3 AllMoves startpos = Done (res, pos') /\
    occupanciesConsistent pos' = true.
Proof.
  apply (makeMove_quiet_keeps_occupancies g1f3 startpos).
  - vm_compute. discriminate.
  - reflexivity.
  - reflexivity.
  - left. reflexivity.
  - vm_compute. split; [discriminate | reflexivity].
  - reflexivity.
  - reflexivity.
  - reflexivity.
  - reflexivity.
  - reflexivity.
  - intros q Hq Hne. change (0 <= q < 0 + 6) in Hq. change (q <> 1) in Hne.
    assert (Hcases : q = 0 \/ q = 2 \/ q = 3 \/ q = 4 \/ q = 5) by lia.
    destruct Hcases as [-> | [-> | [-> | [-> | ->]]]];
      vm_compute; (split; [split; [discriminate | reflexivity] | reflexivity]).
  - vm_compute. reflexivity.
Defined.
